(** * vault-nexus-eternal: Store40D and ElephantMemory

    A shallow embedding of [src/core/store40d.py] and
    [src/core/elephant_memory.py], with the part of the Python runtime
    the two classes rely on (values, [str]/[repr], [json.dumps],
    comparisons, [hashlib.sha256]), and the properties of the
    specification established against it. *)

From Stdlib Require Import ZArith NArith Floats String Ascii List DecimalString Lia Sorted
  OrderedTypeEx.
From stdpp Require Import base option list gmap strings sorting.

Set Default Proof Using "Type".
Set Warnings "-register-all,-inexact-float,-clear-no-such-hyp".
#[local] Open Scope Z_scope.

(** ** Python values *)

Module Py.

(** The exceptions the modelled code can raise. *)
Inductive exn : Type :=
| TypeError | ValueError | OverflowError | ZeroDivisionError | IndexError.

(** Values a [Dict[str, Any]] holds.  Strings are sequences of code
    points below 256; [PBytes] stands for the values [json] cannot
    encode; dictionaries keep their insertion order and have string
    keys, as the annotations of the source say. *)
Inductive pyval : Type :=
| PNone
| PBool (b : bool)
| PInt (z : Z)
| PFloat (f : float)
| PStr (s : string)
| PBytes (s : string)
| PList (l : list pyval)
| PDict (d : list (string * pyval)).

Abbreviation pydict := (list (string * pyval)) (only parsing).

(** The outcome of a method call on an object of state [S]: the value
    returned, or the exception raised, with the state the call leaves
    behind in either case. *)
Inductive result (S A : Type) : Type :=
| Ok (a : A) (s : S)
| Raise (e : exn) (s : S).
Arguments Ok {S A} a s.
Arguments Raise {S A} e s.

(** [d.get(k)] and [k in d]. *)
Fixpoint dict_get (k : string) (d : pydict) : option pyval :=
  match d with
  | [] => None
  | (k', v) :: d' => if String.eqb k k' then Some v else dict_get k d'
  end.

Definition dict_mem (k : string) (d : pydict) : bool :=
  match dict_get k d with Some _ => true | None => false end.

(** [d[k] = v]: an existing key keeps its position. *)
Fixpoint dict_set (k : string) (v : pyval) (d : pydict) : pydict :=
  match d with
  | [] => [(k, v)]
  | (k', v') :: d' =>
      if String.eqb k k' then (k, v) :: d' else (k', v') :: dict_set k v d'
  end.

(** *** Integers and floats *)

Definition Z_of_bool (b : bool) : Z := if b then 1 else 0.

(** [float(z)]: rounds to nearest, ties to even; [OverflowError] when the
    integer is out of the range of a double. *)
Definition float_of_Z (z : Z) : option float :=
  let f := SF2Prim (binary_normalize 53 1024 z 0 false) in
  if PrimFloat.is_infinity f then None else Some f.

(** The float of a count of calls or of list items.  Such a count stays
    far below [2^1024], where [float_of_Z] would raise, so this
    conversion is total. *)
Definition float_of_count (n : nat) : float :=
  SF2Prim (binary_normalize 53 1024 (Z.of_nat n) 0 false).

Definition str_of_Z (z : Z) : string := NilZero.string_of_int (Z.to_int z).

(** *** [repr] of a float: the shortest decimal that reads back as the
    same double, nearest to it, ties to the even digit. *)

(** Compares [d * 10^k] with [n * 2^e]. *)
Definition cmp_scaled (d k n e : Z) : comparison :=
  Z.compare (d * 10 ^ Z.max k 0 * 2 ^ Z.max (- e) 0)
            (n * 2 ^ Z.max e 0 * 10 ^ Z.max (- k) 0).

(** The [p] with [10^p <= m * 2^e < 10^(p+1)], for [m > 0]. *)
Definition log10_floor (m e : Z) : Z :=
  let bits := Z.log2 m + e in
  let step p := match cmp_scaled 1 (p + 1) m e with Gt => p | _ => p + 1 end in
  step (step (step (bits * 30103 / 100000 - 1))).

(** Digits [d] and exponent [k] of the shortest decimal [d * 10^k] in the
    rounding interval of [m * 2^e]; [n] counts the digits tried. *)
Fixpoint shortest_from (fuel : nat) (n : Z) (m e p : Z) : Z * Z :=
  let e2 := e - 2 in
  let x := 4 * m in
  let hi := 4 * m + 2 in
  let lo := if (m =? 2 ^ 52) && (-1074 <? e) then 4 * m - 1 else 4 * m - 2 in
  let even := Z.even m in
  let k := p - n + 1 in
  let dlo := (x * 2 ^ Z.max e2 0 * 10 ^ Z.max (- k) 0)
             / (2 ^ Z.max (- e2) 0 * 10 ^ Z.max k 0) in
  let dhi := dlo + 1 in
  let lo_in := match cmp_scaled dlo k lo e2 with
               | Gt => true | Eq => even | Lt => false end in
  let hi_in := match cmp_scaled dhi k hi e2 with
               | Lt => true | Eq => even | Gt => false end in
  let nearest := match cmp_scaled (dlo + dhi) k (2 * x) e2 with
                 | Gt => dlo | Lt => dhi
                 | Eq => if Z.even dlo then dlo else dhi end in
  if lo_in && hi_in then (nearest, k)
  else if lo_in then (dlo, k)
  else if hi_in then (dhi, k)
  else match fuel with
       | O => (dlo, k)
       | S fuel' => shortest_from fuel' (n + 1) m e p
       end.

Definition shortest (m e : Z) : Z * Z :=
  shortest_from 16 1 m e (log10_floor m e).

(** Drops the trailing zeros of [d], at most [fuel] of them. *)
Fixpoint strip_zeros (fuel : nat) (d k : Z) : Z * Z :=
  match fuel with
  | O => (d, k)
  | S fuel' => if (d mod 10 =? 0) && negb (d =? 0)
               then strip_zeros fuel' (d / 10) (k + 1) else (d, k)
  end.

Fixpoint zeros (n : nat) : string :=
  match n with O => EmptyString | S n' => String "0" (zeros n') end.

Definition str_take (n : nat) (s : string) : string := String.substring 0 n s.
Definition str_drop (n : nat) (s : string) : string :=
  String.substring n (String.length s - n) s.

(** The text of the finite positive double [m * 2^e], laid out as
    [float_repr] does: exponent form when the decimal point falls outside
    [-4 < decpt <= 16]. *)
Definition format_finite (m e : Z) : string :=
  let '(d0, k0) := shortest m e in
  let '(d, k) := strip_zeros 17 d0 k0 in
  let digits := str_of_Z d in
  let n := Z.of_nat (String.length digits) in
  let decpt := n + k in
  if (decpt <=? -4) || (16 <? decpt) then
    let ex := decpt - 1 in
    let mant := if n =? 1 then digits
                else str_take 1 digits +:+ "." +:+ str_drop 1 digits in
    let exs := str_of_Z (Z.abs ex) in
    mant +:+ "e" +:+ (if ex <? 0 then "-" else "+")
         +:+ (if Z.abs ex <? 10 then "0" +:+ exs else exs)
  else if decpt <=? 0 then
    "0." +:+ zeros (Z.to_nat (- decpt)) +:+ digits
  else if decpt <? n then
    str_take (Z.to_nat decpt) digits +:+ "." +:+ str_drop (Z.to_nat decpt) digits
  else
    digits +:+ zeros (Z.to_nat (decpt - n)) +:+ ".0".

Definition float_repr (f : float) : string :=
  match Prim2SF f with
  | S754_zero s => if s then "-0.0" else "0.0"
  | S754_infinity s => if s then "-inf" else "inf"
  | S754_nan => "nan"
  | S754_finite s m e =>
      (if s then "-" else EmptyString) +:+ format_finite (Z.pos m) e
  end.

(** *** [repr], [str] and the f-string conversion *)

(** The double quote, U+0022. *)
Definition dquote : ascii := "034"%char.

Definition hex_digit (n : N) : ascii :=
  match String.get (N.to_nat n) "0123456789abcdef" with
  | Some c => c
  | None => "0"%char
  end.

Definition hex2 (c : ascii) : string :=
  let n := N_of_ascii c in
  String (hex_digit (n / 16)) (String (hex_digit (n mod 16)) EmptyString).

Fixpoint str_concat_map (f : ascii -> string) (s : string) : string :=
  match s with
  | EmptyString => EmptyString
  | String c s' => f c +:+ str_concat_map f s'
  end.

Fixpoint str_mem (c : ascii) (s : string) : bool :=
  match s with
  | EmptyString => false
  | String c' s' => Ascii.eqb c c' || str_mem c s'
  end.

(** Single quotes, unless the text has a single quote and no double one. *)
Definition repr_quote (s : string) : ascii :=
  if str_mem "'" s && negb (str_mem dquote s) then dquote else "'"%char.

(** [latin1] tells [str] from [bytes]: the printable characters above
    U+007F are kept in the [repr] of a [str]. *)
Definition repr_char (latin1 : bool) (q c : ascii) : string :=
  let n := N_of_ascii c in
  if Ascii.eqb c "\" then "\\"
  else if Ascii.eqb c q then String "\" (String q EmptyString)
  else if (n =? 9)%N then "\t"
  else if (n =? 10)%N then "\n"
  else if (n =? 13)%N then "\r"
  else if (n <? 32)%N || (n =? 127)%N then "\x" +:+ hex2 c
  else if (n <? 127)%N then String c EmptyString
  else if latin1 && (160 <? n)%N && negb (n =? 173)%N then String c EmptyString
  else "\x" +:+ hex2 c.

Definition repr_str (s : string) : string :=
  let q := repr_quote s in
  String q (str_concat_map (repr_char true q) s) +:+ String q EmptyString.

Definition repr_bytes (s : string) : string :=
  let q := repr_quote s in
  "b" +:+ String q (str_concat_map (repr_char false q) s) +:+ String q EmptyString.

Fixpoint py_repr (v : pyval) : string :=
  match v with
  | PNone => "None"
  | PBool b => if b then "True" else "False"
  | PInt z => str_of_Z z
  | PFloat f => float_repr f
  | PStr s => repr_str s
  | PBytes s => repr_bytes s
  | PList l => "[" +:+ String.concat ", " (map py_repr l) +:+ "]"
  | PDict d =>
      "{" +:+ String.concat ", "
                (map (fun kv => repr_str (fst kv) +:+ ": " +:+ py_repr (snd kv)) d)
          +:+ "}"
  end.

(** What [f"{v}"] inserts. *)
Definition py_str (v : pyval) : string :=
  match v with
  | PStr s => s
  | _ => py_repr v
  end.

(** *** [json.dumps(v, sort_keys=True)] *)

Definition json_char (c : ascii) : string :=
  let n := N_of_ascii c in
  if Ascii.eqb c dquote then String "\" (String dquote EmptyString)
  else if Ascii.eqb c "\" then "\\"
  else if (n =? 10)%N then "\n"
  else if (n =? 13)%N then "\r"
  else if (n =? 9)%N then "\t"
  else if (n =? 8)%N then "\b"
  else if (n =? 12)%N then "\f"
  else if (32 <=? n)%N && (n <? 127)%N then String c EmptyString
  else "\u00" +:+ hex2 c.

Definition json_str (s : string) : string :=
  String dquote (str_concat_map json_char s) +:+ String dquote EmptyString.

Definition json_float (f : float) : string :=
  match Prim2SF f with
  | S754_nan => "NaN"
  | S754_infinity s => if s then "-Infinity" else "Infinity"
  | _ => float_repr f
  end.

(** Stable insertion into a list sorted by key. *)
Fixpoint insert_item (kv : string * string) (l : list (string * string))
  : list (string * string) :=
  match l with
  | [] => [kv]
  | kv' :: l' =>
      match String.compare (fst kv) (fst kv') with
      | Lt => kv :: l
      | _ => kv' :: insert_item kv l'
      end
  end.

Definition sort_items (l : list (string * string)) : list (string * string) :=
  fold_left (fun acc kv => insert_item kv acc) l [].

(** [None] when the encoder raises [TypeError]. *)
Fixpoint json_dumps (v : pyval) : option string :=
  match v with
  | PNone => Some "null"
  | PBool b => Some (if b then "true" else "false")
  | PInt z => Some (str_of_Z z)
  | PFloat f => Some (json_float f)
  | PStr s => Some (json_str s)
  | PBytes _ => None
  | PList l =>
      let fix items (l : list pyval) : option (list string) :=
        match l with
        | [] => Some []
        | x :: l' =>
            match json_dumps x, items l' with
            | Some s, Some r => Some (s :: r)
            | _, _ => None
            end
        end in
      match items l with
      | Some parts => Some ("[" +:+ String.concat ", " parts +:+ "]")
      | None => None
      end
  | PDict d =>
      let fix items (d : list (string * pyval)) : option (list (string * string)) :=
        match d with
        | [] => Some []
        | (k, x) :: d' =>
            match json_dumps x, items d' with
            | Some s, Some r => Some ((k, s) :: r)
            | _, _ => None
            end
        end in
      match items d with
      | Some parts =>
          Some ("{" +:+ String.concat ", "
                          (map (fun ks => json_str (fst ks) +:+ ": " +:+ snd ks)
                               (sort_items parts))
                    +:+ "}")
      | None => None
      end
  end.

(** *** Equality and ordering *)

Inductive ordering : Type := OLt | OEq | OGt | OUnordered.

Definition ordering_of (c : comparison) : ordering :=
  match c with Lt => OLt | Eq => OEq | Gt => OGt end.

Definition ordering_flip (o : ordering) : ordering :=
  match o with OLt => OGt | OGt => OLt | _ => o end.

(** Integers compare with floats by value, without rounding. *)
Definition order_Z_float (z : Z) (f : float) : ordering :=
  match Prim2SF f with
  | S754_nan => OUnordered
  | S754_infinity s => if s then OGt else OLt
  | S754_zero _ => ordering_of (z ?= 0)
  | S754_finite s m e =>
      let v := if s then Z.neg m else Z.pos m in
      ordering_of (if 0 <=? e then z ?= v * 2 ^ e else z * 2 ^ (- e) ?= v)
  end.

Definition order_float (a b : float) : ordering :=
  match PrimFloat.compare a b with
  | FEq => OEq | FLt => OLt | FGt => OGt | FNotComparable => OUnordered
  end.

Definition as_num (v : pyval) : option (Z + float) :=
  match v with
  | PBool b => Some (inl (Z_of_bool b))
  | PInt z => Some (inl z)
  | PFloat f => Some (inr f)
  | _ => None
  end.

Definition order_num (a b : Z + float) : ordering :=
  match a, b with
  | inl x, inl y => ordering_of (x ?= y)
  | inl x, inr g => order_Z_float x g
  | inr f, inl y => ordering_flip (order_Z_float y f)
  | inr f, inr g => order_float f g
  end.

(** [a == b]. *)
Fixpoint py_eqb (a b : pyval) : bool :=
  match a with
  | PNone => match b with PNone => true | _ => false end
  | PStr s => match b with PStr t => String.eqb s t | _ => false end
  | PBytes s => match b with PBytes t => String.eqb s t | _ => false end
  | PList l1 =>
      match b with
      | PList l2 =>
          (fix go (l1 l2 : list pyval) : bool :=
             match l1, l2 with
             | [], [] => true
             | x :: xs, y :: ys => py_eqb x y && go xs ys
             | _, _ => false
             end) l1 l2
      | _ => false
      end
  | PDict d1 =>
      match b with
      | PDict d2 =>
          Nat.eqb (length d1) (length d2)
          && (fix go (d : list (string * pyval)) : bool :=
                match d with
                | [] => true
                | (k, v) :: d' =>
                    match dict_get k d2 with
                    | Some w => py_eqb v w
                    | None => false
                    end && go d'
                end) d1
      | _ => false
      end
  | PBool _ | PInt _ | PFloat _ =>
      match as_num a, as_num b with
      | Some x, Some y =>
          match order_num x y with OEq => true | _ => false end
      | _, _ => false
      end
  end.

(** The outcome of an ordering comparison; [None] is [TypeError]. *)
Fixpoint py_order (a b : pyval) : option ordering :=
  match a with
  | PStr s =>
      match b with
      | PStr t => Some (ordering_of (String.compare s t))
      | _ => None
      end
  | PBytes s =>
      match b with
      | PBytes t => Some (ordering_of (String.compare s t))
      | _ => None
      end
  | PList l1 =>
      match b with
      | PList l2 =>
          (fix go (l1 l2 : list pyval) : option ordering :=
             match l1, l2 with
             | [], [] => Some OEq
             | [], _ :: _ => Some OLt
             | _ :: _, [] => Some OGt
             | x :: xs, y :: ys =>
                 if py_eqb x y then go xs ys else py_order x y
             end) l1 l2
      | _ => None
      end
  | PBool _ | PInt _ | PFloat _ =>
      match as_num a, as_num b with
      | Some x, Some y => Some (order_num x y)
      | _, _ => None
      end
  | PNone | PDict _ => None
  end.

Definition py_gt (a b : pyval) : option bool :=
  match py_order a b with
  | Some OGt => Some true | Some _ => Some false | None => None
  end.

Definition py_lt (a b : pyval) : option bool :=
  match py_order a b with
  | Some OLt => Some true | Some _ => Some false | None => None
  end.

Definition py_ge (a b : pyval) : option bool :=
  match py_order a b with
  | Some OGt | Some OEq => Some true | Some _ => Some false | None => None
  end.

Definition py_le (a b : pyval) : option bool :=
  match py_order a b with
  | Some OLt | Some OEq => Some true | Some _ => Some false | None => None
  end.

(** *** Iteration and arithmetic *)

(** The items [for v in value] visits; [None] is [TypeError]. *)
Definition py_iter (v : pyval) : option (list pyval) :=
  match v with
  | PList l => Some l
  | PStr s => Some (map (fun c => PStr (String c EmptyString)) (list_ascii_of_string s))
  | PBytes s => Some (map (fun c => PInt (Z.of_N (N_of_ascii c))) (list_ascii_of_string s))
  | PDict d => Some (map (fun kv => PStr (fst kv)) d)
  | _ => None
  end.

(** [v * f] for a float [f]. *)
Definition py_mul_float (v : pyval) (f : float) : exn + float :=
  match v with
  | PBool b =>
      match float_of_Z (Z_of_bool b) with
      | Some x => inr (x * f)%float
      | None => inl OverflowError
      end
  | PInt z =>
      match float_of_Z z with
      | Some x => inr (x * f)%float
      | None => inl OverflowError
      end
  | PFloat x => inr (x * f)%float
  | _ => inl TypeError
  end.

(** *** The items of a dictionary, for the proofs about [json_dumps] *)

(** The items of a dictionary with their values encoded, as the
    encoder of [json_dumps] collects them before it sorts them. *)
Fixpoint dict_parts (d : pydict) : option (list (string * string)) :=
  match d with
  | [] => Some []
  | (k, x) :: d' =>
      match json_dumps x, dict_parts d' with
      | Some s, Some r => Some ((k, s) :: r)
      | _, _ => None
      end
  end.

(** The keys of [a] and [b] are in order. *)
Definition key_le (a b : string * string) : Prop :=
  String.compare (fst a) (fst b) <> Gt.

End Py.

(** ** [hashlib.sha256(...).hexdigest()] *)

Module Sha256.

Definition w32 (x : Z) : Z := Z.land x 0xffffffff.
Definition add32 (x y : Z) : Z := w32 (x + y).
Definition rotr (n x : Z) : Z := Z.lor (Z.shiftr x n) (w32 (Z.shiftl x (32 - n))).
Definition ch (x y z : Z) : Z :=
  Z.lxor (Z.land x y) (Z.land (Z.lxor x 0xffffffff) z).
Definition maj (x y z : Z) : Z :=
  Z.lxor (Z.lxor (Z.land x y) (Z.land x z)) (Z.land y z).
Definition bsig0 (x : Z) : Z := Z.lxor (Z.lxor (rotr 2 x) (rotr 13 x)) (rotr 22 x).
Definition bsig1 (x : Z) : Z := Z.lxor (Z.lxor (rotr 6 x) (rotr 11 x)) (rotr 25 x).
Definition ssig0 (x : Z) : Z := Z.lxor (Z.lxor (rotr 7 x) (rotr 18 x)) (Z.shiftr x 3).
Definition ssig1 (x : Z) : Z := Z.lxor (Z.lxor (rotr 17 x) (rotr 19 x)) (Z.shiftr x 10).

(** The first [n] primes above 1, by trial division. *)
Definition is_prime (n : Z) : bool :=
  forallb (fun d => negb (n mod Z.of_nat d =? 0)) (seq 2 (Z.to_nat n - 2)).

Definition primes (n : nat) : list Z :=
  firstn n (List.filter is_prime (map Z.of_nat (seq 2 310))).

(** The integer cube root: the bits of the root, from bit [b - 1] down. *)
Fixpoint cube_root_bits (b : nat) (n r : Z) : Z :=
  match b with
  | O => r
  | S b' =>
      let r' := r + 2 ^ Z.of_nat b' in
      cube_root_bits b' n (if r' * r' * r' <=? n then r' else r)
  end.

(** The round constants: the first 32 bits of the fractional parts of
    the cube roots of the first 64 primes. *)
Definition K : list Z :=
  Eval vm_compute in
    map (fun p => w32 (cube_root_bits 36 (p * 2 ^ 96) 0)) (primes 64).

(** The initial hash value: the first 32 bits of the fractional parts
    of the square roots of the first 8 primes. *)
Definition H0 : list Z :=
  Eval vm_compute in map (fun p => w32 (Z.sqrt (p * 2 ^ 64))) (primes 8).

(** The message, one [0x80], zeros up to 56 modulo 64, and the bit
    length on eight bytes. *)
Definition pad (msg : list Z) : list Z :=
  let len := Z.of_nat (length msg) in
  let nz := Z.to_nat ((55 - len) mod 64) in
  let bits := 8 * len in
  msg ++ [0x80] ++ repeat 0 nz
      ++ map (fun i => Z.land (Z.shiftr bits (8 * (7 - Z.of_nat i))) 0xff) (seq 0 8).

Fixpoint words (bytes : list Z) : list Z :=
  match bytes with
  | a :: b :: c :: d :: r =>
      (Z.shiftl a 24 + Z.shiftl b 16 + Z.shiftl c 8 + d) :: words r
  | _ => []
  end.

Definition nth_word (i : nat) (l : list Z) : Z := nth i l 0.

(** The 64-word schedule of a block, latest word first while it grows. *)
Fixpoint extend (n : nat) (rev_w : list Z) : list Z :=
  match n with
  | O => rev_w
  | S n' =>
      let w := add32 (add32 (ssig1 (nth_word 1 rev_w)) (nth_word 6 rev_w))
                     (add32 (ssig0 (nth_word 14 rev_w)) (nth_word 15 rev_w)) in
      extend n' (w :: rev_w)
  end.

Definition schedule (block : list Z) : list Z := rev (extend 48 (rev block)).

Definition round (st : list Z) (kw : Z * Z) : list Z :=
  match st with
  | [a; b; c; d; e; f; g; h] =>
      let t1 := add32 (add32 (add32 h (bsig1 e)) (add32 (ch e f g) (fst kw))) (snd kw) in
      let t2 := add32 (bsig0 a) (maj a b c) in
      [add32 t1 t2; a; b; c; add32 d t1; e; f; g]
  | _ => st
  end.

Definition compress (h : list Z) (block : list Z) : list Z :=
  let st := fold_left round (combine K (schedule block)) h in
  map (fun p => add32 (fst p) (snd p)) (combine h st).

Fixpoint blocks (fuel : nat) (ws : list Z) : list (list Z) :=
  match fuel, ws with
  | S fuel', _ :: _ => firstn 16 ws :: blocks fuel' (skipn 16 ws)
  | _, _ => []
  end.

Definition digest (msg : list Z) : list Z :=
  let ws := words (pad msg) in
  fold_left compress (blocks (length ws) ws) H0.

Definition hex_word (w : Z) : string :=
  string_of_list_ascii
    (map (fun i => Py.hex_digit (Z.to_N (Z.land (Z.shiftr w (4 * (7 - Z.of_nat i))) 0xf)))
         (seq 0 8)).

Definition sha256_hex (s : string) : string :=
  String.concat EmptyString
    (map hex_word
         (digest (map (fun c => Z.of_N (N_of_ascii c)) (list_ascii_of_string s)))).

End Sha256.

(** ** [Store40D]: the 40-dimensional store *)

Module Store40D.
Import Py.

Definition DIMENSION_NAMES : list string :=
  [ "sector"; "brand"; "product_type"; "market"; "region";
    "customer_segment"; "revenue_tier"; "growth_stage"; "partnership"; "compliance_zone";
    "tech_stack"; "version"; "deployment_env"; "latency_tier"; "storage_type";
    "api_protocol"; "security_level"; "integration_type"; "compute_tier"; "network_zone";
    "year"; "quarter"; "month"; "week"; "day";
    "hour"; "breath_cycle"; "epoch"; "milestone"; "phase";
    "quality_score"; "completeness"; "verified"; "confidence"; "relevance";
    "freshness"; "authority"; "coverage"; "accessibility"; "consistency" ].

(** A stored data point: the dictionary [store] builds. *)
Record Point : Type := mkPoint {
  genome : string;
  point_data : pydict;
  coordinates : list pyval;
  timestamp : string;
  breath_cycle : Z
}.

Record Stats : Type := mkStats {
  total_stored : nat;
  total_queries : nat;
  care_redistributed : float;
  avg_query_time : float
}.

Record Store40D : Type := mkStore {
  data : list Point;
  index : gmap string (list nat);
  care_mandate : float;
  care_pool : float;
  stats : Stats
}.

(** [Store40D(care_mandate)]. *)
Definition init (mandate : float) : Store40D :=
  {| data := []; index := ∅; care_mandate := mandate; care_pool := 0%float;
     stats := {| total_stored := 0%nat; total_queries := 0%nat;
                 care_redistributed := 0%float; avg_query_time := 0%float |} |}.

(** The default mandate, [0.15] as Python reads it. *)
Definition CARE_15 : float := 0x1.3333333333333p-3%float.

(** [None] when [json.dumps] raises. *)
Definition _compute_genome (d : pydict) : option string :=
  match json_dumps (PDict d) with
  | Some canonical => Some (Sha256.sha256_hex canonical)
  | None => None
  end.

Definition _extract_coordinates (d : pydict) : list pyval :=
  fmap (fun dim_name => match dict_get dim_name d with
                       | Some v => v
                       | None => PNone
                       end) DIMENSION_NAMES.

(** [f"D{i}:{value}"]. *)
Definition index_key (i : nat) (value : pyval) : string :=
  "D" +:+ str_of_Z (Z.of_nat i) +:+ ":" +:+ py_str value.

(** [self.index[key].append(pos)] on a [defaultdict(list)]. *)
Definition index_append (key : string) (pos : nat) (ix : gmap string (list nat))
  : gmap string (list nat) :=
  <[key := default [] (ix !! key) ++ [pos]]> ix.

(** The loop over [enumerate(coords)], from position [i] on. *)
Fixpoint update_indices (i : nat) (coords : list pyval) (pos : nat)
    (ix : gmap string (list nat)) : gmap string (list nat) :=
  match coords with
  | [] => ix
  | value :: coords' =>
      update_indices (S i) coords' pos
        (match value with
         | PNone => ix
         | _ => index_append (index_key i value) pos ix
         end)
  end.

(** [store(data)].  [now] is [datetime.utcnow().isoformat()] and
    [breath] is [int(time.time() % 9)] at the time of the call. *)
Definition store (now : string) (breath : Z) (d : pydict) (s : Store40D)
  : result Store40D string :=
  match _compute_genome d with
  | None => Raise TypeError s
  | Some g =>
      let coords := _extract_coordinates d in
      let point := {| genome := g; point_data := d; coordinates := coords;
                      timestamp := now; breath_cycle := breath |} in
      let data1 := data s ++ [point] in
      let index1 := update_indices 0 coords (length data1 - 1) (index s) in
      let s1 := {| data := data1; index := index1;
                   care_mandate := care_mandate s;
                   care_pool := care_pool s; stats := stats s |} in
      match dict_get "value" d with
      | Some v =>
          match py_mul_float v (care_mandate s) with
          | inl e => Raise e s1
          | inr care_amount =>
              Ok g {| data := data1; index := index1;
                      care_mandate := care_mandate s;
                      care_pool := (care_pool s + care_amount)%float;
                      stats := {| total_stored := S (total_stored (stats s));
                                  total_queries := total_queries (stats s);
                                  care_redistributed :=
                                    (care_redistributed (stats s) + care_amount)%float;
                                  avg_query_time := avg_query_time (stats s) |} |}
          end
      | None =>
          Ok g {| data := data1; index := index1;
                  care_mandate := care_mandate s;
                  care_pool := care_pool s;
                  stats := {| total_stored := S (total_stored (stats s));
                              total_queries := total_queries (stats s);
                              care_redistributed := care_redistributed (stats s);
                              avg_query_time := avg_query_time (stats s) |} |}
      end
  end.

(** [DIMENSION_NAMES.index(dim_name)], [None] when the name is not there. *)
Fixpoint list_index (x : string) (l : list string) : option nat :=
  match l with
  | [] => None
  | y :: l' => if String.eqb x y then Some 0%nat
               else match list_index x l' with
                    | Some i => Some (S i)
                    | None => None
                    end
  end.

(** [set(self.index.get(key, []))]. *)
Definition posting (ix : gmap string (list nat)) (key : string) : gset nat :=
  list_to_set (default [] (ix !! key)).

(** The test a range operator applies to a coordinate; [None] when the
    operator is none of the four, where the scan adds nothing. *)
Definition range_test (operator : string) (coord value : pyval)
  : option (option bool) :=
  if String.eqb operator ">" then Some (py_gt coord value)
  else if String.eqb operator "<" then Some (py_lt coord value)
  else if String.eqb operator ">=" then Some (py_ge coord value)
  else if String.eqb operator "<=" then Some (py_le coord value)
  else None.

(** The scan over [enumerate(self.data)], from position [i] on. *)
Fixpoint range_scan (operator : string) (dim_idx : nat) (value : pyval)
    (i : nat) (pts : list Point) (acc : gset nat) : exn + gset nat :=
  match pts with
  | [] => inr acc
  | point :: pts' =>
      match coordinates point !! dim_idx with
      | None => inl IndexError
      | Some PNone => range_scan operator dim_idx value (S i) pts' acc
      | Some coord_value =>
          match range_test operator coord_value value with
          | None => range_scan operator dim_idx value (S i) pts' acc
          | Some None => inl TypeError
          | Some (Some true) =>
              range_scan operator dim_idx value (S i) pts' ({[ i ]} ∪ acc)
          | Some (Some false) =>
              range_scan operator dim_idx value (S i) pts' acc
          end
      end
  end.

(** [operators.get(dim_name, "==")], with [operators = {}] for [None]. *)
Definition operator_for (operators : option (list (string * string)))
    (dim_name : string) : string :=
  match operators with
  | None => "=="
  | Some ops =>
      match List.find (fun kv => String.eqb dim_name (fst kv)) ops with
      | Some kv => snd kv
      | None => "=="
      end
  end.

(** The index set one filter selects. *)
Definition filter_indices (s : Store40D) (dim_idx : nat) (operator : string)
    (value : pyval) : exn + gset nat :=
  if String.eqb operator "==" then
    inr (posting (index s) (index_key dim_idx value))
  else if String.eqb operator "in" then
    match py_iter value with
    | None => inl TypeError
    | Some vs =>
        inr (fold_left (fun acc v => acc ∪ posting (index s) (index_key dim_idx v))
                       vs ∅)
    end
  else range_scan operator dim_idx value 0 (data s) ∅.

(** The loop over [filters.items()]; [cand] is [candidate_indices]. *)
Fixpoint candidates (s : Store40D) (operators : option (list (string * string)))
    (filters : pydict) (cand : option (gset nat)) : exn + option (gset nat) :=
  match filters with
  | [] => inr cand
  | (dim_name, value) :: filters' =>
      match list_index dim_name DIMENSION_NAMES with
      | None => candidates s operators filters' cand
      | Some dim_idx =>
          match filter_indices s dim_idx (operator_for operators dim_name) value with
          | inl e => inl e
          | inr indices =>
              candidates s operators filters'
                (match cand with
                 | None => Some indices
                 | Some c => Some (c ∩ indices)
                 end)
          end
      end
  end.

(** [results.append(self.data[idx])] for each index of the set. *)
Fixpoint retrieve (pts : list Point) (idxs : list nat) : exn + list Point :=
  match idxs with
  | [] => inr []
  | idx :: idxs' =>
      match pts !! idx, retrieve pts idxs' with
      | Some p, inr r => inr (p :: r)
      | None, _ => inl IndexError
      | _, inl e => inl e
      end
  end.

(** Lines 129 to 177 of [query]: the result list.  The order in which
    Python visits a set is not specified; the model visits it as
    [elements] lists it. *)
Definition query_results (s : Store40D) (filters : pydict)
    (operators : option (list (string * string))) : exn + list Point :=
  match candidates s operators filters None with
  | inl e => inl e
  | inr None => inr []
  | inr (Some c) => retrieve (data s) (elements c)
  end.

(** The running mean of the query time, after the counter was
    incremented to [n]: [(avg * (n - 1) + query_time) / n]. *)
Definition update_avg (avg : float) (n : nat) (query_time : float) : float :=
  ((avg * float_of_count (n - 1) + query_time) / float_of_count n)%float.

Definition with_stats (s : Store40D) (st : Stats) : Store40D :=
  {| data := data s; index := index s; care_mandate := care_mandate s;
     care_pool := care_pool s; stats := st |}.

(** [query(filters, operators)]; [query_time] is the time the clock
    measured for the call. *)
Definition query (filters : pydict) (operators : option (list (string * string)))
    (query_time : float) (s : Store40D) : result Store40D (list Point) :=
  match query_results s filters operators with
  | inl e => Raise e s
  | inr results =>
      let n := S (total_queries (stats s)) in
      Ok results
         (with_stats s {| total_stored := total_stored (stats s);
                          total_queries := n;
                          care_redistributed := care_redistributed (stats s);
                          avg_query_time :=
                            update_avg (avg_query_time (stats s)) n query_time |})
  end.

(** The states the claims are stated over: every posting points into
    [data], and every point carries the coordinates of its record. *)
Record store_wf (s : Store40D) : Prop := {
  wf_index : forall key l i,
    index s !! key = Some l -> i ∈ l -> (i < length (data s))%nat;
  wf_coords : forall p,
    p ∈ data s -> coordinates p = _extract_coordinates (point_data p)
}.

(** The point [store] files for record [d]. *)
Definition point_of (now : string) (breath : Z) (g : string) (d : pydict) : Point :=
  {| genome := g; point_data := d; coordinates := _extract_coordinates d;
     timestamp := now; breath_cycle := breath |}.

(** The record of [p] has, in dimension [k], a value that is not null
    and compares [>= t]. *)
Definition ge_match (k : string) (t : pyval) (p : Point) : bool :=
  match dict_get k (point_data p) with
  | Some PNone | None => false
  | Some c => match py_ge c t with Some true => true | _ => false end
  end.

(** Every value of dimension [k] in the store can be ordered against [t]. *)
Definition comparable_with (k : string) (t : pyval) (s : Store40D) : bool :=
  forallb (fun p => match dict_get k (point_data p) with
                    | Some PNone | None => true
                    | Some c => match py_order c t with Some _ => true | None => false end
                    end) (data s).

(** The positions, from [i] on, of the points that pass [f]. *)
Fixpoint match_positions (f : Point -> bool) (i : nat) (pts : list Point) : list nat :=
  match pts with
  | [] => []
  | p :: pts' => if f p then i :: match_positions f (S i) pts'
                 else match_positions f (S i) pts'
  end.

(** The posting list of a key, empty when the key is not there. *)
Definition posting_list (ix : gmap string (list nat)) (key : string) : list nat :=
  default [] (ix !! key).

(** The state a call leaves, whether it returned or raised. *)
Definition state_of {S A : Type} (r : result S A) : S :=
  match r with Ok _ s => s | Raise _ s => s end.

(** A store of three records with the quality scores 0.4, 0.5 and 0.6. *)
Definition three_scores : Store40D :=
  state_of (store "t3" 2 [("brand", PStr "c"); ("quality_score", PFloat 0x1.3333333333333p-1%float)]
    (state_of (store "t2" 1 [("brand", PStr "b"); ("quality_score", PFloat 0x1p-1%float)]
       (state_of (store "t1" 0 [("brand", PStr "a"); ("quality_score", PFloat 0x1.999999999999ap-2%float)]
          (init CARE_15)))))).

(** The [value] field is the integer [n], or the float of that value. *)
Definition value_is (d : pydict) (n : Z) (f : float) : Prop :=
  dict_get "value" d = Some (PInt n) \/ dict_get "value" d = Some (PFloat f).

(** *** The states and runs the further properties are stated over *)

(** The calls a client can make on a store. *)
Inductive store_op : Type :=
| Store (now : string) (breath : Z) (d : pydict)
| Query (filters : pydict) (operators : option (list (string * string)))
        (query_time : float).

(** The state a call leaves, whether it returned or raised. *)
Definition store_step (o : store_op) (s : Store40D) : Store40D :=
  match o with
  | Store now breath d => state_of (store now breath d s)
  | Query filters operators qt => state_of (query filters operators qt s)
  end.

Definition store_run (ops : list store_op) (s : Store40D) : Store40D :=
  fold_left (fun s o => store_step o s) ops s.

(** The states a fresh [Store40D] reaches. *)
Definition store_reachable (s : Store40D) : Prop :=
  exists mandate ops, s = store_run ops (init mandate).

(** The posting lists are exact: position [n] is under a key when, and
    only when, the key is the one of a coordinate of point [n] that is
    not null. *)
Definition index_exact (s : Store40D) : Prop :=
  forall key n,
    n ∈ posting_list (index s) key <->
    exists p i c, data s !! n = Some p /\ coordinates p !! i = Some c
                  /\ c <> PNone /\ index_key i c = key.

(** The part of a key before its first colon, and the part after it. *)
Fixpoint key_dim (key : string) : string :=
  match key with
  | EmptyString => EmptyString
  | String c key' => if Ascii.eqb c ":" then EmptyString else String c (key_dim key')
  end.

Fixpoint key_value (key : string) : string :=
  match key with
  | EmptyString => EmptyString
  | String c key' => if Ascii.eqb c ":" then key' else key_value key'
  end.

(** The record of [p] has, in dimension [k], a value that is not null
    and that an f-string prints as it prints [v]. *)
Definition eq_match (k : string) (v : pyval) (p : Point) : bool :=
  match dict_get k (point_data p) with
  | Some PNone | None => false
  | Some c => String.eqb (py_str c) (py_str v)
  end.

(** The filter names a dimension of the schema. *)
Definition on_schema (kv : string * pyval) : bool :=
  bool_decide (fst kv ∈ DIMENSION_NAMES).

(** [p] passes every filter that names a dimension of the schema. *)
Definition eq_filters_match (filters : pydict) (p : Point) : bool :=
  forallb (fun kv => eq_match (fst kv) (snd kv) p) (List.filter on_schema filters).

(** Whether an ordering outcome passes a range operator. *)
Definition order_passes (operator : string) (o : ordering) : bool :=
  match o with
  | OLt => String.eqb operator "<" || String.eqb operator "<="
  | OEq => String.eqb operator "<=" || String.eqb operator ">="
  | OGt => String.eqb operator ">" || String.eqb operator ">="
  | OUnordered => false
  end.

(** The record of [p] has, in dimension [k], a value that is not null
    and stands to [t] as the operator asks. *)
Definition range_match (operator k : string) (t : pyval) (p : Point) : bool :=
  match dict_get k (point_data p) with
  | Some PNone | None => false
  | Some c => match py_order c t with
              | Some o => order_passes operator o
              | None => false
              end
  end.

(** The four range operators, and the six operators [query] knows. *)
Definition range_operators : list string := [">"; "<"; ">="; "<="].
Definition known_operators : list string := "==" :: "in" :: range_operators.

(** The value of dimension [k] in the record of [p] can be ordered
    against [t], or is null or missing. *)
Definition comparable_point (k : string) (t : pyval) (p : Point) : bool :=
  match dict_get k (point_data p) with
  | Some PNone | None => true
  | Some c => match py_order c t with Some _ => true | None => false end
  end.

(** Every point carries the hash of its record. *)
Definition points_sound (s : Store40D) : Prop :=
  forall p, p ∈ data s -> _compute_genome (point_data p) = Some (genome p).

(** The two totals of the redistribution agree, and no more records are
    counted than are held. *)
Definition counters_ok (s : Store40D) : Prop :=
  care_pool s = care_redistributed (stats s)
  /\ (total_stored (stats s) <= length (data s))%nat.

(** *** [import_json] *)

(** What [import_json] can raise: [AttributeError] and [KeyError] of
    its own, and what [store] raises. *)
Inductive import_exn : Type :=
| AttributeError
| KeyError
| Raised (e : exn).

(** The outcome of [import_json], with the state the call leaves. *)
Inductive import_result : Type :=
| Imported (s : Store40D)
| ImportRaise (e : import_exn) (s : Store40D).

(** The loop over the points of the document.  [clock i] is what the
    clock reads when the point at position [i] is stored.  A point must be
    a dictionary with the keys [genome] and [data]; the genome read from
    the document is not used. *)
Fixpoint import_points (clock : nat -> string * Z) (i : nat) (points : list pyval)
    (s : Store40D) : import_result :=
  match points with
  | [] => Imported s
  | point :: points' =>
      match point with
      | PDict pd =>
          match dict_get "genome" pd with
          | None => ImportRaise KeyError s
          | Some _ =>
              match dict_get "data" pd with
              | None => ImportRaise KeyError s
              | Some (PDict d) =>
                  match store (fst (clock i)) (snd (clock i)) d s with
                  | Ok _ s1 => import_points clock (S i) points' s1
                  | Raise e s1 => ImportRaise (Raised e) s1
                  end
              | Some v =>
                  match json_dumps v with
                  | None => ImportRaise (Raised TypeError) s
                  | Some _ => ImportRaise AttributeError s
                  end
              end
          end
      | _ => ImportRaise (Raised TypeError) s
      end
  end.

(** [import_json(filepath)], from the document [json.load] has read
    from the file: the records and the index are cleared, the pool and
    the counters are not, and every point is stored again. *)
Definition import_json (import_data : pyval) (clock : nat -> string * Z)
    (s : Store40D) : import_result :=
  let s0 := {| data := []; index := ∅; care_mandate := care_mandate s;
               care_pool := care_pool s; stats := stats s |} in
  match import_data with
  | PDict doc =>
      match py_iter (match dict_get "data" doc with
                     | Some v => v
                     | None => PList []
                     end) with
      | None => ImportRaise (Raised TypeError) s0
      | Some points => import_points clock 0 points s0
      end
  | _ => ImportRaise AttributeError s0
  end.

(** The record a point of the document carries, when it is a
    dictionary with a dictionary under [data]. *)
Definition point_record (point : pyval) : option pydict :=
  match point with
  | PDict pd => match dict_get "data" pd with
                | Some (PDict d) => Some d
                | _ => None
                end
  | _ => None
  end.

(** A document of two points; the genome of the first is not the hash
    of its record. *)
Definition two_points : pyval :=
  PDict [("metadata", PDict [("version", PStr "1.0.0")]);
         ("data",
          PList [PDict [("genome", PStr "stale");
                        ("data", PDict [("sector", PStr "ai"); ("value", PInt 100)])];
                 PDict [("genome", PStr "25c6");
                        ("data", PDict [("sector", PStr "bio")])]])].

(** *** Stores the properties are shown on *)

(** A store of two records: the year 2025 as a number and as a text. *)
Definition mixed_years : Store40D :=
  store_run [Store "t1" 0 [("brand", PStr "a"); ("year", PInt 2025)];
             Store "t2" 1 [("brand", PStr "b"); ("year", PStr "2025")]]
            (init CARE_15).

(** The three stores of [three_scores], as a run. *)
Definition three_scores_ops : list store_op :=
  [Store "t1" 0 [("brand", PStr "a"); ("quality_score", PFloat 0x1.999999999999ap-2%float)];
   Store "t2" 1 [("brand", PStr "b"); ("quality_score", PFloat 0x1p-1%float)];
   Store "t3" 2 [("brand", PStr "c"); ("quality_score", PFloat 0x1.3333333333333p-1%float)]].

End Store40D.

(** ** [ElephantMemory]: the 46-page echo loop *)

Module ElephantMemory.
Import Py.

Definition TOTAL_PAGES : nat := 46.

Definition PHASES : list (string * list nat) :=
  [ ("INTAKE", seq 1 8);
    ("TRUNK_SORT", seq 9 8);
    ("HERD_CONSENSUS", seq 17 8);
    ("MEMORY_ENCODE", seq 25 8);
    ("GENERATIONAL_PASS", seq 33 8);
    ("ECHO_AMPLIFY", seq 41 6) ].

(** [self.PHASES[name]] for one of the six names. *)
Definition phase_pages (name : string) : list nat :=
  match List.find (fun kv => String.eqb name (fst kv)) PHASES with
  | Some kv => snd kv
  | None => []
  end.

(** The [Memory] dataclass. *)
Record Memory : Type := mkMemory {
  content : pydict;
  timestamp : string;
  genome : string;
  strength : float;
  phase : string;
  page : nat;
  generation : nat;
  herd_validations : nat;
  echo_count : nat;
  tags : list string;
  associations : list string
}.

(** The [__eq__] the dataclass generates: the fields compared in order. *)
Definition Memory_eqb (a b : Memory) : bool :=
  py_eqb (PDict (content a)) (PDict (content b))
  && String.eqb (timestamp a) (timestamp b)
  && String.eqb (genome a) (genome b)
  && PrimFloat.eqb (strength a) (strength b)
  && String.eqb (phase a) (phase b)
  && Nat.eqb (page a) (page b)
  && Nat.eqb (generation a) (generation b)
  && Nat.eqb (herd_validations a) (herd_validations b)
  && Nat.eqb (echo_count a) (echo_count b)
  && bool_decide (tags a = tags b)
  && bool_decide (associations a = associations b).

(** A generation snapshot: the dictionary
    [_create_generation_snapshot] appends to [self.generations]. *)
Record Snapshot : Type := mkSnapshot {
  snap_generation : nat;
  snap_timestamp : string;
  snap_total_memories : nat;
  snap_avg_strength : float;
  snap_top_tags : list (string * nat);
  snap_memory_count_by_phase : list (string * nat)
}.

(** [self.stats]; [stat_herd_validations] is its key [herd_validations]
    and [stat_avg_strength] its key [avg_strength]. *)
Record Stats : Type := mkStats {
  total_memories : nat;
  total_echoes : nat;
  total_generations : nat;
  stat_herd_validations : nat;
  phase_transitions : nat;
  stat_avg_strength : float
}.

(** A reference to a [Memory] object: its position in [heap]. *)
Abbreviation loc := nat (only parsing).

(** The state of an [ElephantMemory].  The [Memory] objects live in
    [heap]; the page lists and [genome_index] hold references to them, so
    an update through one is seen through the other.  The keys 1 to 46 of
    [pages] are created by [__init__] and never removed; [tag_index]
    keeps the order in which the tags were first seen. *)
Record ElephantMemory : Type := mkElephant {
  store40d : option Store40D.Store40D;
  decay_rate : float;
  heap : list Memory;
  pages : gmap nat (list loc);
  genome_index : gmap string loc;
  tag_index : list (string * list string);
  generations : list Snapshot;
  current_generation : nat;
  stats : Stats;
  loop_active : bool;
  loop_count : nat;
  last_breath : float
}.

Definition with_heap (s : ElephantMemory) (h : list Memory) : ElephantMemory :=
  {| store40d := store40d s; decay_rate := decay_rate s; heap := h;
     pages := pages s; genome_index := genome_index s; tag_index := tag_index s;
     generations := generations s; current_generation := current_generation s;
     stats := stats s; loop_active := loop_active s; loop_count := loop_count s;
     last_breath := last_breath s |}.

Definition with_pages (s : ElephantMemory) (pg : gmap nat (list loc)) : ElephantMemory :=
  {| store40d := store40d s; decay_rate := decay_rate s; heap := heap s;
     pages := pg; genome_index := genome_index s; tag_index := tag_index s;
     generations := generations s; current_generation := current_generation s;
     stats := stats s; loop_active := loop_active s; loop_count := loop_count s;
     last_breath := last_breath s |}.

Definition with_stats (s : ElephantMemory) (st : Stats) : ElephantMemory :=
  {| store40d := store40d s; decay_rate := decay_rate s; heap := heap s;
     pages := pages s; genome_index := genome_index s; tag_index := tag_index s;
     generations := generations s; current_generation := current_generation s;
     stats := st; loop_active := loop_active s; loop_count := loop_count s;
     last_breath := last_breath s |}.

Definition with_store40d (s : ElephantMemory) (c : option Store40D.Store40D)
  : ElephantMemory :=
  {| store40d := c; decay_rate := decay_rate s; heap := heap s;
     pages := pages s; genome_index := genome_index s; tag_index := tag_index s;
     generations := generations s; current_generation := current_generation s;
     stats := stats s; loop_active := loop_active s; loop_count := loop_count s;
     last_breath := last_breath s |}.

(** [ElephantMemory(store40d, decay_rate)]; [now] is [time.time()]. *)
Definition init (cube : option Store40D.Store40D) (rate : float) (now : float)
  : ElephantMemory :=
  {| store40d := cube; decay_rate := rate; heap := [];
     pages := list_to_map (map (fun i => (i, [])) (seq 1 TOTAL_PAGES));
     genome_index := ∅; tag_index := [];
     generations := []; current_generation := 0;
     stats := {| total_memories := 0; total_echoes := 0; total_generations := 0;
                 stat_herd_validations := 0; phase_transitions := 0;
                 stat_avg_strength := 1%float |};
     loop_active := false; loop_count := 0; last_breath := now |}.

Definition _compute_genome (c : pydict) : option string :=
  match json_dumps (PDict c) with
  | Some canonical => Some (Sha256.sha256_hex canonical)
  | None => None
  end.

(** [self.tag_index[tag].append(genome)] on a [defaultdict(list)]. *)
Fixpoint tag_index_append (tag g : string) (ti : list (string * list string))
  : list (string * list string) :=
  match ti with
  | [] => [(tag, [g])]
  | (t, gs) :: ti' =>
      if String.eqb tag t then (t, gs ++ [g]) :: ti'
      else (t, gs) :: tag_index_append tag g ti'
  end.

(** [self.tag_index.get(tag, [])]. *)
Fixpoint tag_index_get (tag : string) (ti : list (string * list string))
  : list string :=
  match ti with
  | [] => []
  | (t, gs) :: ti' => if String.eqb tag t then gs else tag_index_get tag ti'
  end.

(** The dictionary [_store_in_40d] builds from a memory. *)
Definition data_40d (m : Memory) : pydict :=
  dict_set "timestamp" (PStr (timestamp m))
    (dict_set "elephant_strength" (PFloat (strength m))
       (dict_set "elephant_generation" (PInt (Z.of_nat (generation m)))
          (dict_set "elephant_page" (PInt (Z.of_nat (page m)))
             (dict_set "elephant_phase" (PStr (phase m))
                (dict_set "genome" (PStr (genome m)) (content m)))))).

(** [self.genome_index[genome].echo_count += 1]. *)
Definition echo_bump (m : Memory) : Memory :=
  {| content := content m; timestamp := timestamp m; genome := genome m;
     strength := strength m; phase := phase m; page := page m;
     generation := generation m; herd_validations := herd_validations m;
     echo_count := S (echo_count m); tags := tags m;
     associations := associations m |}.

(** The [Memory] that [ingest] creates for new content. *)
Definition new_memory (now : string) (c : pydict) (g : string)
    (tgs : option (list string)) (s : ElephantMemory) : Memory :=
  {| content := c; timestamp := now; genome := g;
     strength := 1%float; phase := "INTAKE"; page := 1;
     generation := current_generation s;
     herd_validations := 0; echo_count := 0;
     tags := match tgs with Some t => t | None => [] end;
     associations := [] |}.

(** [ingest(content, tags)].  [now] is the time stamp of the memory;
    [now40] and [breath] are the clock readings of the store, when one is
    attached. *)
Definition ingest (now now40 : string) (breath : Z) (c : pydict)
    (tgs : option (list string)) (s : ElephantMemory)
  : result ElephantMemory string :=
  match _compute_genome c with
  | None => Raise TypeError s
  | Some g =>
      match genome_index s !! g with
      | Some l =>
          Ok g (with_stats
                  (with_heap s (alter echo_bump l (heap s)))
                  {| total_memories := total_memories (stats s);
                     total_echoes := S (total_echoes (stats s));
                     total_generations := total_generations (stats s);
                     stat_herd_validations := stat_herd_validations (stats s);
                     phase_transitions := phase_transitions (stats s);
                     stat_avg_strength := stat_avg_strength (stats s) |})
      | None =>
          let memory := new_memory now c g tgs s in
          let l := length (heap s) in
          let s1 :=
            {| store40d := store40d s; decay_rate := decay_rate s;
               heap := heap s ++ [memory];
               pages := <[1%nat := pages s !!! 1%nat ++ [l]]> (pages s);
               genome_index := <[g := l]> (genome_index s);
               tag_index := fold_left (fun ti tag => tag_index_append tag g ti)
                                      (tags memory) (tag_index s);
               generations := generations s;
               current_generation := current_generation s;
               stats := {| total_memories := S (total_memories (stats s));
                           total_echoes := total_echoes (stats s);
                           total_generations := total_generations (stats s);
                           stat_herd_validations := stat_herd_validations (stats s);
                           phase_transitions := phase_transitions (stats s);
                           stat_avg_strength := stat_avg_strength (stats s) |};
               loop_active := loop_active s; loop_count := loop_count s;
               last_breath := last_breath s |} in
          match store40d s with
          | None => Ok g s1
          | Some cube =>
              match Store40D.store now40 breath (data_40d memory) cube with
              | Ok _ cube' => Ok g (with_store40d s1 (Some cube'))
              | Raise e cube' => Raise e (with_store40d s1 (Some cube'))
              end
          end
      end
  end.

(** *** The five phase methods *)

(** [x is memory or x == memory], the test of [list.remove]. *)
Definition same_memory (h : list Memory) (target x : loc) : bool :=
  Nat.eqb x target
  || match h !! x, h !! target with
     | Some a, Some b => Memory_eqb a b
     | _, _ => false
     end.

(** [l.remove(memory)]: drops the first match; [None] is [ValueError]. *)
Fixpoint list_remove (test : loc -> bool) (l : list loc) : option (list loc) :=
  match l with
  | [] => None
  | x :: l' =>
      if test x then Some l'
      else match list_remove test l' with
           | Some r => Some (x :: r)
           | None => None
           end
  end.

(** The loop [for memory in self.pages[p]] of a phase method.  [body]
    is what the loop does to one memory: the memory it leaves and whether
    it was put on the list of memories to move; [on_promote] is the
    update of [self.stats] that goes with a promotion.  Returns the
    memories to move, in order. *)
Fixpoint scan_page (body : Memory -> Memory * bool) (on_promote : Stats -> Stats)
    (refs : list loc) (s : ElephantMemory) : ElephantMemory * list loc :=
  match refs with
  | [] => (s, [])
  | r :: refs' =>
      match heap s !! r with
      | None => scan_page body on_promote refs' s
      | Some m =>
          let '(m', promoted) := body m in
          let s1 := with_heap s (<[r := m']> (heap s)) in
          let s2 := if promoted then with_stats s1 (on_promote (stats s1)) else s1 in
          let '(s3, moved) := scan_page body on_promote refs' s2 in
          (s3, if promoted then r :: moved else moved)
      end
  end.

(** The loop that moves the promoted memories from page [src] to page
    [dst]: [self.pages[src].remove(memory); self.pages[dst].append(memory)]. *)
Fixpoint move_memories (src dst : nat) (moved : list loc) (s : ElephantMemory)
  : result ElephantMemory unit :=
  match moved with
  | [] => Ok tt s
  | r :: moved' =>
      match list_remove (same_memory (heap s) r) (pages s !!! src) with
      | None => Raise ValueError s
      | Some rest =>
          let pg := <[src := rest]> (pages s) in
          move_memories src dst moved'
            (with_pages s (<[dst := pg !!! dst ++ [r]]> pg))
      end
  end.

(** The loop over the pages of the source phase; [count] is the number
    of memories promoted so far. *)
Fixpoint advance_pages (body : Memory -> Memory * bool)
    (on_promote : Stats -> Stats) (dst : nat) (srcs : list nat) (count : nat)
    (s : ElephantMemory) : result ElephantMemory nat :=
  match srcs with
  | [] => Ok count s
  | src :: srcs' =>
      let '(s1, moved) := scan_page body on_promote (pages s !!! src) s in
      match move_memories src dst moved s1 with
      | Raise e s2 => Raise e s2
      | Ok _ s2 =>
          advance_pages body on_promote dst srcs' (count + length moved) s2
      end
  end.

Definition set_phase (m : Memory) (ph : string) (pg : nat) : Memory :=
  {| content := content m; timestamp := timestamp m; genome := genome m;
     strength := strength m; phase := ph; page := pg;
     generation := generation m; herd_validations := herd_validations m;
     echo_count := echo_count m; tags := tags m;
     associations := associations m |}.

Definition set_strength (m : Memory) (x : float) : Memory :=
  {| content := content m; timestamp := timestamp m; genome := genome m;
     strength := x; phase := phase m; page := page m;
     generation := generation m; herd_validations := herd_validations m;
     echo_count := echo_count m; tags := tags m;
     associations := associations m |}.

(** [0.5] and [0.1] as Python reads them. *)
Definition HALF : float := 0x1p-1%float.
Definition TENTH : float := 0x1.999999999999ap-4%float.

(** [min(1.0, x)]: the first argument, unless the second is less. *)
Definition min_one (x : float) : float :=
  if PrimFloat.ltb x 1%float then x else 1%float.

(** The body of the loop of [trunk_sort]. *)
Definition trunk_sort_body (m : Memory) : Memory * bool :=
  if String.eqb (phase m) "INTAKE" then
    if PrimFloat.leb HALF (strength m) || Nat.ltb 0 (echo_count m)
    then (set_phase m "TRUNK_SORT" 9, true)
    else (m, false)
  else (m, false).

Definition trunk_sort (s : ElephantMemory) : result ElephantMemory nat :=
  match advance_pages trunk_sort_body (fun st => st) 9 (phase_pages "INTAKE") 0 s with
  | Raise e s' => Raise e s'
  | Ok moved_count s' =>
      if Nat.ltb 0 moved_count
      then Ok moved_count
             (with_stats s'
                {| total_memories := total_memories (stats s');
                   total_echoes := total_echoes (stats s');
                   total_generations := total_generations (stats s');
                   stat_herd_validations := stat_herd_validations (stats s');
                   phase_transitions := phase_transitions (stats s') + moved_count;
                   stat_avg_strength := stat_avg_strength (stats s') |})
      else Ok moved_count s'
  end.

(** The body of the loop of [herd_consensus]. *)
Definition herd_consensus_body (m : Memory) : Memory * bool :=
  if String.eqb (phase m) "TRUNK_SORT" then
    let m1 :=
      {| content := content m; timestamp := timestamp m; genome := genome m;
         strength := strength m; phase := phase m; page := page m;
         generation := generation m;
         herd_validations := S (herd_validations m);
         echo_count := echo_count m; tags := tags m;
         associations := associations m |} in
    if Nat.leb 2 (herd_validations m1)
    then (set_strength (set_phase m1 "HERD_CONSENSUS" 17)
                       (min_one (strength m1 + TENTH)%float), true)
    else (m1, false)
  else (m, false).

Definition herd_consensus (s : ElephantMemory) : result ElephantMemory nat :=
  advance_pages herd_consensus_body
    (fun st => {| total_memories := total_memories st;
                  total_echoes := total_echoes st;
                  total_generations := total_generations st;
                  stat_herd_validations := S (stat_herd_validations st);
                  phase_transitions := phase_transitions st;
                  stat_avg_strength := stat_avg_strength st |})
    17 (phase_pages "TRUNK_SORT") 0 s.

(** The loop over [related_genomes] in [_find_associations], with
    [max_associations = 5]. *)
Fixpoint assoc_related (self_genome : string) (related acc : list string)
  : list string :=
  match related with
  | [] => acc
  | g :: related' =>
      if negb (String.eqb g self_genome) && negb (bool_decide (g ∈ acc))
      then let acc' := acc ++ [g] in
           if Nat.leb 5 (length acc') then acc'
           else assoc_related self_genome related' acc'
      else assoc_related self_genome related' acc
  end.

(** The loop over [memory.tags]. *)
Fixpoint assoc_tags (ti : list (string * list string)) (self_genome : string)
    (tgs : list string) (acc : list string) : list string :=
  match tgs with
  | [] => acc
  | tag :: tgs' =>
      let acc' := assoc_related self_genome (tag_index_get tag ti) acc in
      if Nat.leb 5 (length acc') then acc'
      else assoc_tags ti self_genome tgs' acc'
  end.

Definition _find_associations (ti : list (string * list string)) (m : Memory)
  : list string :=
  assoc_tags ti (genome m) (tags m) [].

(** The body of the loop of [memory_encode]; the phase methods do not
    write [self.tag_index], so the body reads the one of the call. *)
Definition memory_encode_body (ti : list (string * list string)) (m : Memory)
  : Memory * bool :=
  if String.eqb (phase m) "HERD_CONSENSUS" then
    ({| content := content m; timestamp := timestamp m; genome := genome m;
        strength := 1%float; phase := "MEMORY_ENCODE"; page := 25;
        generation := generation m; herd_validations := herd_validations m;
        echo_count := echo_count m; tags := tags m;
        associations := _find_associations ti m |}, true)
  else (m, false).

Definition memory_encode (s : ElephantMemory) : result ElephantMemory nat :=
  advance_pages (memory_encode_body (tag_index s)) (fun st => st)
    25 (phase_pages "HERD_CONSENSUS") 0 s.

(** Every memory reference of the pages, as [self.pages.values()] and
    the inner loops visit them. *)
Definition all_refs (s : ElephantMemory) : list loc :=
  concat (map (fun p => pages s !!! p) (seq 1 TOTAL_PAGES)).

Definition all_memories (s : ElephantMemory) : list Memory :=
  omap (fun r => heap s !! r) (all_refs s).

Definition _calculate_avg_strength (s : ElephantMemory) : float :=
  if Nat.eqb (total_memories (stats s)) 0 then 0%float
  else
    let ms := all_memories s in
    let total_strength := fold_left (fun acc m => (acc + strength m)%float) ms 0%float in
    let count := length ms in
    if Nat.ltb 0 count then (total_strength / float_of_count count)%float else 0%float.

(** Stable insertion by decreasing count: [sort(key=..., reverse=True)]. *)
Fixpoint insert_tag_count (x : string * nat) (l : list (string * nat))
  : list (string * nat) :=
  match l with
  | [] => [x]
  | y :: l' => if Nat.ltb (snd y) (snd x) then x :: l
               else y :: insert_tag_count x l'
  end.

Definition _get_top_tags (limit : nat) (s : ElephantMemory) : list (string * nat) :=
  firstn limit
    (fold_left (fun acc x => insert_tag_count x acc)
       (map (fun tg => (fst tg, length (snd tg))) (tag_index s)) []).

(** [counts[phase] += 1] on a [defaultdict(int)]. *)
Fixpoint count_incr (ph : string) (counts : list (string * nat)) : list (string * nat) :=
  match counts with
  | [] => [(ph, 1%nat)]
  | (k, n) :: counts' =>
      if String.eqb ph k then (k, S n) :: counts'
      else (k, n) :: count_incr ph counts'
  end.

Definition _count_by_phase (s : ElephantMemory) : list (string * nat) :=
  fold_left (fun counts m => count_incr (phase m) counts) (all_memories s) [].

(** [_create_generation_snapshot()]; [now] is its time stamp. *)
Definition _create_generation_snapshot (now : string) (s : ElephantMemory)
  : ElephantMemory :=
  let generation_wisdom :=
    {| snap_generation := current_generation s;
       snap_timestamp := now;
       snap_total_memories := total_memories (stats s);
       snap_avg_strength := _calculate_avg_strength s;
       snap_top_tags := _get_top_tags 10 s;
       snap_memory_count_by_phase := _count_by_phase s |} in
  {| store40d := store40d s; decay_rate := decay_rate s; heap := heap s;
     pages := pages s; genome_index := genome_index s; tag_index := tag_index s;
     generations := generations s ++ [generation_wisdom];
     current_generation := S (current_generation s);
     stats := {| total_memories := total_memories (stats s);
                 total_echoes := total_echoes (stats s);
                 total_generations := S (total_generations (stats s));
                 stat_herd_validations := stat_herd_validations (stats s);
                 phase_transitions := phase_transitions (stats s);
                 stat_avg_strength := stat_avg_strength (stats s) |};
     loop_active := loop_active s; loop_count := loop_count s;
     last_breath := last_breath s |}.

(** The body of the loop of [generational_pass]. *)
Definition generational_pass_body (m : Memory) : Memory * bool :=
  if String.eqb (phase m) "MEMORY_ENCODE"
  then (set_phase m "GENERATIONAL_PASS" 33, true)
  else (m, false).

Definition generational_pass (now : string) (s : ElephantMemory)
  : result ElephantMemory nat :=
  match advance_pages generational_pass_body (fun st => st)
          33 (phase_pages "MEMORY_ENCODE") 0 s with
  | Raise e s' => Raise e s'
  | Ok passed_count s' =>
      if Nat.ltb 10 passed_count
      then Ok passed_count (_create_generation_snapshot now s')
      else Ok passed_count s'
  end.

(** The body of the loop of [echo_amplify]. *)
Definition echo_amplify_body (m : Memory) : Memory * bool :=
  if String.eqb (phase m) "GENERATIONAL_PASS" then
    ({| content := content m; timestamp := timestamp m; genome := genome m;
        strength := strength m; phase := "ECHO_AMPLIFY"; page := 41;
        generation := generation m; herd_validations := herd_validations m;
        echo_count := S (echo_count m); tags := tags m;
        associations := associations m |}, true)
  else (m, false).

Definition echo_amplify (s : ElephantMemory) : result ElephantMemory nat :=
  advance_pages echo_amplify_body
    (fun st => {| total_memories := total_memories st;
                  total_echoes := S (total_echoes st);
                  total_generations := total_generations st;
                  stat_herd_validations := stat_herd_validations st;
                  phase_transitions := phase_transitions st;
                  stat_avg_strength := stat_avg_strength st |})
    41 (phase_pages "GENERATIONAL_PASS") 0 s.

(** The dictionary [breath_cycle] returns. *)
Record CycleStats : Type := mkCycleStats {
  trunk_sorted : nat;
  herd_validated : nat;
  encoded : nat;
  generational_passed : nat;
  echo_amplified : nat
}.

(** [breath_cycle()]; [now] is the time stamp a snapshot would get and
    [t] is [time.time()] at the end of the cycle. *)
Definition breath_cycle (now : string) (t : float) (s : ElephantMemory)
  : result ElephantMemory CycleStats :=
  match trunk_sort s with
  | Raise e s1 => Raise e s1
  | Ok n1 s1 =>
  match herd_consensus s1 with
  | Raise e s2 => Raise e s2
  | Ok n2 s2 =>
  match memory_encode s2 with
  | Raise e s3 => Raise e s3
  | Ok n3 s3 =>
  match generational_pass now s3 with
  | Raise e s4 => Raise e s4
  | Ok n4 s4 =>
  match echo_amplify s4 with
  | Raise e s5 => Raise e s5
  | Ok n5 s5 =>
      Ok {| trunk_sorted := n1; herd_validated := n2; encoded := n3;
            generational_passed := n4; echo_amplified := n5 |}
         {| store40d := store40d s5; decay_rate := decay_rate s5; heap := heap s5;
            pages := pages s5; genome_index := genome_index s5;
            tag_index := tag_index s5; generations := generations s5;
            current_generation := current_generation s5; stats := stats s5;
            loop_active := loop_active s5; loop_count := S (loop_count s5);
            last_breath := t |}
  end end end end end.

(** *** [recall] *)

(** The two filters of the scan: [tags] and [phase], each skipped when
    it is [None] or empty. *)
Definition recall_match (tgs : option (list string)) (ph : option string)
    (m : Memory) : bool :=
  match tgs with
  | None | Some [] => true
  | Some ts => existsb (fun tag => bool_decide (tag ∈ tags m)) ts
  end
  && match ph with
     | None => true
     | Some p => if String.eqb p EmptyString then true else String.eqb (phase m) p
     end.

(** The inner loop over the memories of one page. *)
Fixpoint recall_page (tgs : option (list string)) (ph : option string) (limit : Z)
    (ms : list Memory) (results : list Memory) : list Memory :=
  match ms with
  | [] => results
  | m :: ms' =>
      if recall_match tgs ph m then
        let results' := results ++ [m] in
        if limit <=? Z.of_nat (length results') then results'
        else recall_page tgs ph limit ms' results'
      else recall_page tgs ph limit ms' results
  end.

(** The outer loop over [self.pages.values()]. *)
Fixpoint recall_pages (tgs : option (list string)) (ph : option string) (limit : Z)
    (pgs : list (list Memory)) (results : list Memory) : list Memory :=
  match pgs with
  | [] => results
  | ms :: pgs' =>
      let results' := recall_page tgs ph limit ms results in
      if limit <=? Z.of_nat (length results') then results'
      else recall_pages tgs ph limit pgs' results'
  end.

(** [(a.strength, a.echo_count) < (b.strength, b.echo_count)]. *)
Definition rank_lt (a b : Memory) : bool :=
  if PrimFloat.eqb (strength a) (strength b)
  then Nat.ltb (echo_count a) (echo_count b)
  else PrimFloat.ltb (strength a) (strength b).

(** Stable insertion by decreasing rank. *)
Fixpoint insert_ranked (x : Memory) (l : list Memory) : list Memory :=
  match l with
  | [] => [x]
  | y :: l' => if rank_lt y x then x :: l else y :: insert_ranked x l'
  end.

(** [results.sort(key=lambda m: (m.strength, m.echo_count), reverse=True)]. *)
Definition sort_ranked (l : list Memory) : list Memory :=
  fold_left (fun acc x => insert_ranked x acc) l [].

(** [l[:limit]]. *)
Definition slice_to (limit : Z) (l : list Memory) : list Memory :=
  if 0 <=? limit then firstn (Z.to_nat limit) l
  else firstn (length l - Z.to_nat (- limit)) l.

(** The memories of page [p], as the scan meets them. *)
Definition page_memories (s : ElephantMemory) (p : nat) : list Memory :=
  omap (fun r => heap s !! r) (pages s !!! p).

Definition recall (g : option string) (tgs : option (list string))
    (ph : option string) (limit : Z) (s : ElephantMemory) : list Memory :=
  match g with
  | Some (String c g') =>
      match genome_index s !! String c g' with
      | Some l => match heap s !! l with Some m => [m] | None => [] end
      | None => []
      end
  | _ =>
      let results :=
        recall_pages tgs ph limit
          (map (page_memories s) (seq 1 TOTAL_PAGES)) [] in
      slice_to limit (sort_ranked results)
  end.

(** *** The states and runs the properties are stated over *)

(** The first page of a phase, where the phase methods file a memory. *)
Definition home_page (ph : string) : option nat :=
  match phase_pages ph with
  | p :: _ => Some p
  | [] => None
  end.

(** The position of a phase in the order of [PHASES]. *)
Definition phase_rank (ph : string) : option nat :=
  Store40D.list_index ph (map fst PHASES).

(** [b] is the phase [a], or the one that follows it. *)
Definition forward_step (a b : string) : Prop :=
  a = b \/ exists r, phase_rank a = Some r /\ phase_rank b = Some (S r).

(** The pure part of [scan_page]: the heap after the loop and the
    memories to move. *)
Fixpoint scan_heap (body : Memory -> Memory * bool) (refs : list loc)
    (h : list Memory) : list Memory * list loc :=
  match refs with
  | [] => (h, [])
  | r :: refs' =>
      match h !! r with
      | None => scan_heap body refs' h
      | Some m =>
          let '(h', moved) := scan_heap body refs' (<[r := fst (body m)]> h) in
          (h', if snd (body m) then r :: moved else moved)
      end
  end.

(** Whether the loop body promotes the memory a reference points to. *)
Definition promoted (body : Memory -> Memory * bool) (h : list Memory) (r : loc) : bool :=
  match h !! r with
  | Some m => snd (body m)
  | None => false
  end.

(** Well-formed states: every page list is without repetition and
    holds the memories whose [page] field names it; every memory sits in
    the home page of its phase; [genome_index] maps each genome to the one
    memory that has it; every strength is 1.0; a memory still in INTAKE
    was never validated. *)
Record elephant_wf (s : ElephantMemory) : Prop := {
  wf_nodup : forall p, NoDup (pages s !!! p);
  wf_in_page : forall l p,
    l ∈ pages s !!! p -> exists m, heap s !! l = Some m /\ page m = p;
  wf_home : forall l m,
    heap s !! l = Some m ->
    l ∈ pages s !!! page m /\ home_page (phase m) = Some (page m);
  wf_genome_index : forall g l,
    genome_index s !! g = Some l <->
    exists m, heap s !! l = Some m /\ genome m = g;
  wf_strength : forall l m, heap s !! l = Some m -> strength m = 1%float;
  wf_fresh : forall l m,
    heap s !! l = Some m -> phase m = "INTAKE" -> herd_validations m = 0%nat
}.

(** The calls a client can make. *)
Inductive op : Type :=
| Ingest (now now40 : string) (breath : Z) (c : pydict) (tgs : option (list string))
| TrunkSort
| HerdConsensus
| MemoryEncode
| GenerationalPass (now : string)
| EchoAmplify
| BreathCycle (now : string) (t : float).

(** The state a call leaves, whether it returned or raised. *)
Definition run_op (o : op) (s : ElephantMemory) : ElephantMemory :=
  match o with
  | Ingest now now40 breath c tgs => Store40D.state_of (ingest now now40 breath c tgs s)
  | TrunkSort => Store40D.state_of (trunk_sort s)
  | HerdConsensus => Store40D.state_of (herd_consensus s)
  | MemoryEncode => Store40D.state_of (memory_encode s)
  | GenerationalPass now => Store40D.state_of (generational_pass now s)
  | EchoAmplify => Store40D.state_of (echo_amplify s)
  | BreathCycle now t => Store40D.state_of (breath_cycle now t s)
  end.

Definition run (ops : list op) (s : ElephantMemory) : ElephantMemory :=
  fold_left (fun s o => run_op o s) ops s.

(** The states a fresh [ElephantMemory] reaches. *)
Definition reachable (s : ElephantMemory) : Prop :=
  exists cube rate t0 ops, s = run ops (init cube rate t0).

(** The five steps of a cycle, in the order [breath_cycle] calls them. *)
Definition cycle_steps (now : string) : list op :=
  [TrunkSort; HerdConsensus; MemoryEncode; GenerationalPass now; EchoAmplify].

(** The end of [breath_cycle]: the loop counter and the time stamp. *)
Definition finish_cycle (t : float) (s : ElephantMemory) : ElephantMemory :=
  {| store40d := store40d s; decay_rate := decay_rate s; heap := heap s;
     pages := pages s; genome_index := genome_index s;
     tag_index := tag_index s; generations := generations s;
     current_generation := current_generation s; stats := stats s;
     loop_active := loop_active s; loop_count := S (loop_count s);
     last_breath := t |}.

(** The phase of the memory at [l], when there is one. *)
Definition phase_at (s : ElephantMemory) (l : loc) : option string :=
  phase <$> heap s !! l.

(** How many memories are in phase [ph]. *)
Definition count_in_phase (ph : string) (s : ElephantMemory) : nat :=
  length (List.filter (fun m => String.eqb (phase m) ph) (heap s)).

(** Between [s] and [s'] every memory stays, keeps its phase or moves
    to the next one, and does not lose strength. *)
Definition transition_ok (s s' : ElephantMemory) : Prop :=
  forall l m, heap s !! l = Some m ->
    exists m', heap s' !! l = Some m'
               /\ forward_step (phase m) (phase m')
               /\ PrimFloat.leb (strength m) (strength m') = true.

(** The memory at [l] is in one of the six phases, on a page of that
    phase, once in the list of that page and in no other; its strength is
    within [0, 1]. *)
Definition one_bucket (s : ElephantMemory) : Prop :=
  forall l m, heap s !! l = Some m ->
    (exists r, phase_rank (phase m) = Some r)
    /\ page m ∈ phase_pages (phase m)
    /\ (forall p, count_occ Nat.eq_dec (pages s !!! p) l
                  = if decide (p = page m) then 1%nat else 0%nat)
    /\ PrimFloat.leb 0 (strength m) = true
    /\ PrimFloat.leb (strength m) 1 = true.

(** What one whole cycle does to a memory: the five loop bodies, in the
    order of the cycle. *)
Definition cycle_body (ti : list (string * list string)) (m : Memory) : Memory :=
  fst (echo_amplify_body
         (fst (generational_pass_body
                 (fst (memory_encode_body ti
                         (fst (herd_consensus_body
                                 (fst (trunk_sort_body m))))))))).

(** What the proofs need of the body of a phase method that promotes
    from phase [src] to phase [dst_ph], filed in page [dst]. *)
Record body_ok (src dst_ph : string) (dst : nat)
    (body : Memory -> Memory * bool) : Prop := {
  b_skip : forall m, phase m <> src -> body m = (m, false);
  b_genome : forall m, genome (fst (body m)) = genome m;
  b_promoted : forall m, snd (body m) = true ->
    phase (fst (body m)) = dst_ph /\ page (fst (body m)) = dst;
  b_stay : forall m, snd (body m) = false ->
    phase (fst (body m)) = phase m /\ page (fst (body m)) = page m;
  b_strength : forall m, strength m = 1%float -> strength (fst (body m)) = 1%float;
  b_fresh : forall m, phase (fst (body m)) = "INTAKE" ->
    herd_validations (fst (body m)) = herd_validations m
}.

(** What a phase method with loop body [body] makes of [s]: it returns
    [n], the number of memories the body promotes, and leaves [s']. *)
Record advanced (body : Memory -> Memory * bool) (s : ElephantMemory) (n : nat)
    (s' : ElephantMemory) : Prop := {
  adv_wf : elephant_wf s';
  adv_heap : heap s' = (fun m => fst (body m)) <$> heap s;
  adv_count : n = length (List.filter (fun m => snd (body m)) (heap s));
  adv_genome_index : genome_index s' = genome_index s;
  adv_tag_index : tag_index s' = tag_index s;
  adv_store40d : store40d s' = store40d s;
  adv_loop_count : loop_count s' = loop_count s
}.

(** No memory of the list is outranked by a later one. *)
Definition ranked (l : list Memory) : Prop :=
  StronglySorted (fun a b => (echo_count b <= echo_count a)%nat) l.

(** One memory, just ingested. *)
Definition first_ingest : ElephantMemory :=
  run [Ingest "t0" "t1" 0 [("event", PStr "x")] None] (init None 0%float 0%float).

(** One memory, ingested and taken through one cycle, which leaves it
    in TRUNK_SORT. *)
Definition after_first_cycle : ElephantMemory :=
  run [Ingest "t0" "t1" 0 [("event", PStr "x")] None; BreathCycle "t2" 0%float]
      (init None 0%float 0%float).

(** Twelve memories, ingested and taken through one cycle. *)
Definition twelve_after_first_cycle : ElephantMemory :=
  run (map (fun i => Ingest "t0" "t1" 0
                       [("event", PInt (Z.of_nat i))] (Some ["test"]))
           (seq 0 12)
       ++ [BreathCycle "t2" 0%float])
      (init None 0%float 0%float).

(** Two memories in INTAKE, the second one ingested twice. *)
Definition second_echoed : ElephantMemory :=
  run [Ingest "t0" "t1" 0 [("event", PStr "a")] None;
       Ingest "t0" "t1" 0 [("event", PStr "b")] None;
       Ingest "t0" "t1" 0 [("event", PStr "b")] None]
      (init None 0%float 0%float).

Section further.
#[local] Open Scope nat_scope.

(** *** [get_stats] *)

(** The dictionary [get_stats] returns: the counters of [self.stats],
    with [avg_strength] computed afresh, and the figures added to them. *)
Record StatsReport : Type := mkStatsReport {
  rep_total_memories : nat;
  rep_total_echoes : nat;
  rep_total_generations : nat;
  rep_herd_validations : nat;
  rep_phase_transitions : nat;
  rep_avg_strength : float;
  rep_pages : nat;
  rep_current_generation : nat;
  rep_loop_count : nat;
  rep_memories_by_phase : list (string * nat);
  rep_top_tags : list (string * nat);
  rep_decay_rate : float
}.

(** [get_stats()]. *)
Definition get_stats (s : ElephantMemory) : StatsReport :=
  {| rep_total_memories := total_memories (stats s);
     rep_total_echoes := total_echoes (stats s);
     rep_total_generations := total_generations (stats s);
     rep_herd_validations := stat_herd_validations (stats s);
     rep_phase_transitions := phase_transitions (stats s);
     rep_avg_strength := _calculate_avg_strength s;
     rep_pages := TOTAL_PAGES;
     rep_current_generation := current_generation s;
     rep_loop_count := loop_count s;
     rep_memories_by_phase := _count_by_phase s;
     rep_top_tags := _get_top_tags 10 s;
     rep_decay_rate := decay_rate s |}.

(** [counts.get(ph, 0)]. *)
Definition count_of (ph : string) (counts : list (string * nat)) : nat :=
  match List.find (fun kv => String.eqb ph (fst kv)) counts with
  | Some kv => snd kv
  | None => 0
  end.

(** The sum of the counts of a histogram. *)
Definition sum_counts (counts : list (string * nat)) : nat :=
  foldr (fun kv n => snd kv + n) 0 counts.

(** The tags of the tag index with the number of genomes filed under
    each. *)
Definition tag_counts (s : ElephantMemory) : list (string * nat) :=
  map (fun tg => (fst tg, length (snd tg))) (tag_index s).

(** No pair of the list has a smaller count than a later one. *)
Definition by_count (l : list (string * nat)) : Prop :=
  StronglySorted (fun a b => snd b <= snd a) l.

(** *** [get_generational_wisdom] *)

(** What [get_generational_wisdom] returns: the snapshot of the
    generation asked for, the empty dictionary when there is none, or the
    summary of the whole archive. *)
Inductive Wisdom : Type :=
| WisdomOf (snap : Snapshot)
| WisdomNone
| WisdomAll (n_generations current : nat) (archive : list Snapshot).

(** [get_generational_wisdom(generation)]. *)
Definition get_generational_wisdom (generation : option Z) (s : ElephantMemory)
  : Wisdom :=
  match generation with
  | Some g =>
      match List.find (fun gen_data => Z.eqb (Z.of_nat (snap_generation gen_data)) g)
                      (generations s) with
      | Some gen_data => WisdomOf gen_data
      | None => WisdomNone
      end
  | None => WisdomAll (length (generations s)) (current_generation s) (generations s)
  end.

(** Twelve memories with a common tag, taken through two cycles: the
    second one encodes them and archives a snapshot. *)
Definition twelve_after_second_cycle : ElephantMemory :=
  run [BreathCycle "t3" 0%float] twelve_after_first_cycle.

(** *** What the counters count *)

(** The counters of [st'] are those of [st], raised by the given
    amounts. *)
Definition stats_delta (st st' : Stats) (memories echoes gens validations transitions : nat)
  : Prop :=
  total_memories st' = total_memories st + memories
  /\ total_echoes st' = total_echoes st + echoes
  /\ total_generations st' = total_generations st + gens
  /\ stat_herd_validations st' = stat_herd_validations st + validations
  /\ phase_transitions st' = phase_transitions st + transitions.

(** The sum of the echo counts of the memories. *)
Definition sum_echoes (h : list Memory) : nat :=
  foldr (fun m n => echo_count m + n) 0 h.

(** The memory has left INTAKE. *)
Definition past_intake (m : Memory) : bool :=
  negb (String.eqb (phase m) "INTAKE").

(** The memory has passed the herd validation: it is in HERD_CONSENSUS
    or in a later phase. *)
Definition validated (m : Memory) : bool :=
  match phase_rank (phase m) with
  | Some r => Nat.leb 2 r
  | None => false
  end.

(** The counters of [self.stats] agree with the memories, and the
    archive of snapshots with the generation counter. *)
Record stats_ok (s : ElephantMemory) : Prop := {
  so_memories : total_memories (stats s) = length (heap s);
  so_echoes : total_echoes (stats s) = sum_echoes (heap s);
  so_transitions :
    phase_transitions (stats s) = length (List.filter past_intake (heap s));
  so_validations :
    stat_herd_validations (stats s) = length (List.filter validated (heap s));
  so_generations : total_generations (stats s) = current_generation s;
  so_archive : length (generations s) = current_generation s;
  so_numbered : forall i snap,
    generations s !! i = Some snap -> snap_generation snap = i
}.

(** *** Associations *)

(** What an association list is: at most five genomes, none twice,
    none the memory's own, each filed in the tag index [ti] under a tag of
    the memory. *)
Definition assoc_sound (ti : list (string * list string)) (m : Memory) : Prop :=
  length (associations m) <= 5
  /\ NoDup (associations m)
  /\ (genome m ∉ associations m)
  /\ forall a, a ∈ associations m ->
       exists t, t ∈ tags m /\ a ∈ tag_index_get t ti.

(** The tag index files genomes of memories that exist, under their
    tags, and every association list is sound. *)
Record assoc_ok (s : ElephantMemory) : Prop := {
  ao_tags : forall t g, g ∈ tag_index_get t (tag_index s) ->
    exists m, m ∈ heap s /\ genome m = g /\ t ∈ tags m;
  ao_assoc : forall m, m ∈ heap s -> assoc_sound (tag_index s) m
}.

(** The association list of [m] names other memories of [h] that
    share a tag with [m]. *)
Definition associates_in (h : list Memory) (m : Memory) : Prop :=
  length (associations m) <= 5
  /\ NoDup (associations m)
  /\ (genome m ∉ associations m)
  /\ Forall (fun a => exists m', m' ∈ h /\ genome m' = a
                                 /\ exists t, t ∈ tags m /\ t ∈ tags m')
            (associations m).

(** *** Memories over time *)

(** [m'] is the memory [m] at a later time: what [ingest] recorded is
    unchanged, and the two counters have not gone down. *)
Definition same_identity (m m' : Memory) : Prop :=
  content m' = content m
  /\ timestamp m' = timestamp m
  /\ genome m' = genome m
  /\ tags m' = tags m
  /\ generation m' = generation m
  /\ echo_count m <= echo_count m'
  /\ herd_validations m <= herd_validations m'.

(** The memory is in TRUNK_SORT and was validated once already. *)
Definition due_for_consensus (m : Memory) : bool :=
  String.eqb (phase m) "TRUNK_SORT" && Nat.leb 1 (herd_validations m).

(** Every memory of [h] is still in [h'], at the same place, as the
    same memory. *)
Definition persist (h h' : list Memory) : Prop :=
  forall l m, h !! l = Some m -> exists m', h' !! l = Some m' /\ same_identity m m'.

(** The memory [m], the object at [l], is filed in [s]: the pages hold
    it, in the list of its own page once and in no other list, and the
    genome index leads from its genome to it. *)
Definition filed (s : ElephantMemory) (l : loc) (m : Memory) : Prop :=
  heap s !! l = Some m
  /\ m ∈ all_memories s
  /\ (forall p, count_occ Nat.eq_dec (pages s !!! p) l
                = if decide (p = page m) then 1 else 0)
  /\ genome_index s !! genome m = Some l.

(** The memory [m] of an earlier state is still filed in [s']. *)
Definition kept_in (s' : ElephantMemory) (m : Memory) : Prop :=
  exists l m', filed s' l m' /\ same_identity m m'.

(** The memory [m] of an earlier state is filed in [s'], in
    ECHO_AMPLIFY and on page 41. *)
Definition settled_in (s' : ElephantMemory) (m : Memory) : Prop :=
  exists l m',
    filed s' l m' /\ same_identity m m'
    /\ phase m' = "ECHO_AMPLIFY" /\ page m' = 41.

(** One memory, ingested and taken through two cycles. *)
Definition settled : ElephantMemory :=
  run [BreathCycle "t3" 0%float] after_first_cycle.

(** The counts of a cycle that promotes nothing. *)
Definition no_promotion : CycleStats :=
  {| trunk_sorted := 0; herd_validated := 0; encoded := 0;
     generational_passed := 0; echo_amplified := 0 |}.

(** *** The store attached *)

(** The keys [_store_in_40d] adds to the content of a memory. *)
Definition enrichment_keys : list string :=
  ["genome"; "elephant_phase"; "elephant_page"; "elephant_generation";
   "elephant_strength"; "timestamp"].

(** A fresh system with a store attached. *)
Definition with_cube : ElephantMemory :=
  init (Some (Store40D.init Store40D.CARE_15)) 0%float 0%float.

(** The attached store takes the [value] field of the content: no
    store is attached, or the content has no such field, or the product
    [data["value"] * self.care_mandate] that [store] computes has a
    value. *)
Definition forwardable (c : pydict) (s : ElephantMemory) : bool :=
  match store40d s, dict_get "value" c with
  | Some cube, Some v =>
      match py_mul_float v (Store40D.care_mandate cube) with
      | inr _ => true
      | inl _ => false
      end
  | _, _ => true
  end.

End further.

End ElephantMemory.

(** ** Properties of the runtime model *)

Module PyFacts.
Import Py.

Lemma json_dumps_dict (d : pydict) :
  json_dumps (PDict d)
  = match dict_parts d with
    | Some parts =>
        Some ("{" +:+ String.concat ", "
                        (map (fun ks => json_str (fst ks) +:+ ": " +:+ snd ks)
                             (sort_items parts))
                  +:+ "}")
    | None => None
    end.
Proof.
  cbn [json_dumps].
  match goal with |- match ?f d with _ => _ end = _ =>
    assert (f d = dict_parts d) as ->; [|done] end.
  induction d as [|[k x] d IH]; [done|]. cbn [dict_parts]. by rewrite <- IH.
Qed.

Lemma dict_parts_keys (d : pydict) (parts : list (string * string)) :
  dict_parts d = Some parts -> map fst parts = map fst d.
Proof.
  revert parts. induction d as [|[k x] d IH]; intros parts; simpl.
  - by intros [= <-].
  - destruct (json_dumps x); [|done]. destruct (dict_parts d); [|done].
    intros [= <-]. simpl. f_equal. by apply IH.
Qed.

Lemma dict_parts_perm (d d' : pydict) (parts : list (string * string)) :
  d ≡ₚ d' -> dict_parts d = Some parts ->
  exists parts', dict_parts d' = Some parts' /\ parts ≡ₚ parts'.
Proof.
  intros Hp. revert parts.
  induction Hp as [|[k x] d d' Hp IH|[k x] [k' x'] d|d d' d'' Hp1 IH1 Hp2 IH2];
    intros parts; simpl.
  - intros [= <-]. by exists [].
  - destruct (json_dumps x); [|done].
    destruct (dict_parts d) as [r|]; [|done]. intros [= <-].
    destruct (IH r eq_refl) as (r' & -> & Hr). eexists. split; [done|].
    by constructor.
  - destruct (json_dumps x'); [|done]. destruct (json_dumps x); [|by destruct (dict_parts d)].
    destruct (dict_parts d) as [r|]; [|done]. intros [= <-].
    eexists. split; [done|]. apply perm_swap.
  - intros H. destruct (IH1 _ H) as (p1 & H1 & Hq1).
    destruct (IH2 _ H1) as (p2 & H2 & Hq2). exists p2. split; [done|].
    by etrans.
Qed.

Lemma key_le_trans (a b c : string * string) :
  key_le a b -> key_le b c -> key_le a c.
Proof.
  unfold key_le. intros Hab Hbc.
  destruct (String.compare (fst a) (fst b)) eqn:E1; [| |done].
  - apply String_as_OT.cmp_eq in E1. by rewrite E1.
  - destruct (String.compare (fst b) (fst c)) eqn:E2; [| |done].
    + apply String_as_OT.cmp_eq in E2. rewrite <- E2, E1. done.
    + apply String_as_OT.cmp_lt in E1, E2.
      pose proof (String_as_OT.lt_trans _ _ _ E1 E2) as H.
      apply String_as_OT.cmp_lt in H. unfold String_as_OT.cmp in H. by rewrite H.
Qed.

Lemma key_le_flip (a b : string * string) :
  String.compare (fst a) (fst b) <> Lt -> key_le b a.
Proof.
  unfold key_le. rewrite (String.compare_antisym (fst a) (fst b)).
  by destruct (String.compare (fst b) (fst a)).
Qed.

Lemma insert_item_perm (kv : string * string) (l : list (string * string)) :
  insert_item kv l ≡ₚ kv :: l.
Proof.
  induction l as [|kv' l IH]; [reflexivity|]. simpl.
  destruct (String.compare (fst kv) (fst kv')); try reflexivity;
    rewrite IH; apply perm_swap.
Qed.

Lemma sort_items_perm (l : list (string * string)) : sort_items l ≡ₚ l.
Proof.
  unfold sort_items.
  assert (forall acc, fold_left (fun acc kv => insert_item kv acc) l acc ≡ₚ acc ++ l) as H.
  { induction l as [|kv l IH]; intros acc; simpl; [by rewrite app_nil_r|].
    rewrite IH, insert_item_perm. by rewrite <- Permutation_middle. }
  apply H.
Qed.

Lemma insert_item_sorted (kv : string * string) (l : list (string * string)) :
  StronglySorted key_le l -> StronglySorted key_le (insert_item kv l).
Proof.
  induction 1 as [|kv' l Hs IH Hall]; simpl.
  - repeat constructor.
  - destruct (String.compare (fst kv) (fst kv')) eqn:E.
    + constructor; [by apply IH|]. rewrite insert_item_perm.
      constructor; [|done]. apply key_le_flip. by rewrite E.
    + constructor; [by constructor|].
      assert (key_le kv kv') as Hle by (unfold key_le; by rewrite E).
      constructor; [done|]. eapply Forall_impl; [exact Hall|].
      intros x. by apply key_le_trans.
    + constructor; [by apply IH|]. rewrite insert_item_perm.
      constructor; [|done]. apply key_le_flip. by rewrite E.
Qed.

Lemma sort_items_sorted (l : list (string * string)) :
  StronglySorted key_le (sort_items l).
Proof.
  unfold sort_items.
  assert (forall acc, StronglySorted key_le acc ->
            StronglySorted key_le (fold_left (fun acc kv => insert_item kv acc) l acc)) as H.
  { induction l as [|kv l IH]; intros acc Hacc; simpl; [done|].
    by apply IH, insert_item_sorted. }
  apply H. constructor.
Qed.

(** With no key twice, the sorted items do not depend on the order of
    insertion. *)
Lemma sort_items_unique (l l' : list (string * string)) :
  NoDup (map fst l) -> l ≡ₚ l' -> sort_items l = sort_items l'.
Proof.
  intros Hnd Hp.
  apply (StronglySorted_unique_strong key_le);
    [|apply sort_items_sorted..|by rewrite !sort_items_perm].
  intros x1 x2 H1 H2 Hle Hge.
  rewrite sort_items_perm in H1. rewrite sort_items_perm, <- Hp in H2.
  assert (fst x1 = fst x2) as Hk.
  { unfold key_le in Hle, Hge. rewrite String.compare_antisym in Hge.
    apply String.compare_eq_iff.
    by destruct (String.compare (fst x1) (fst x2)). }
  apply list_elem_of_lookup in H1 as [i Hi], H2 as [j Hj].
  assert (i = j) as ->.
  { eapply NoDup_lookup; [exact Hnd|..]; rewrite list_lookup_fmap.
    - by rewrite Hi.
    - rewrite Hj. simpl. by rewrite Hk. }
  congruence.
Qed.

End PyFacts.

Module ShaFacts.
Import Sha256.

Lemma round_length (st : list Z) (kw : Z * Z) : length (round st kw) = length st.
Proof.
  unfold round. do 9 (destruct st as [|? st]; [reflexivity|]). reflexivity.
Qed.

Lemma rounds_length (l : list (Z * Z)) (st : list Z) :
  length (fold_left round l st) = length st.
Proof.
  revert st. induction l as [|kw l IH]; intros st; simpl; [done|].
  by rewrite IH, round_length.
Qed.

Lemma compress_length (h block : list Z) : length (compress h block) = length h.
Proof.
  unfold compress. rewrite length_map, length_combine, rounds_length. lia.
Qed.

Lemma digest_length (msg : list Z) : length (digest msg) = 8%nat.
Proof.
  unfold digest.
  assert (forall bs h, length (fold_left compress bs h) = length h) as H.
  { induction bs as [|b bs IH]; intros h; simpl; [done|].
    by rewrite IH, compress_length. }
  by rewrite H.
Qed.

(** A digest is never the empty text. *)
Lemma sha256_hex_nonempty (s : string) :
  exists c r, sha256_hex s = String c r.
Proof.
  unfold sha256_hex.
  pose proof (digest_length
                (map (fun c => Z.of_N (N_of_ascii c)) (list_ascii_of_string s))) as H.
  destruct (digest _) as [|w ws]; [discriminate H|].
  cbn [map String.concat]. destruct (map hex_word ws); unfold hex_word;
    cbn [seq map string_of_list_ascii String.append]; eauto.
Qed.

End ShaFacts.

(** ** Properties of [Store40D] *)

Module StoreFacts.
Import Py Store40D.

Lemma list_index_lookup (x : string) (l : list string) (i : nat) :
  list_index x l = Some i -> l !! i = Some x.
Proof.
  revert i. induction l as [|y l IH]; intros i; simpl; [done|].
  destruct (String.eqb_spec x y) as [->|Hne].
  - intros [= <-]. done.
  - destruct (list_index x l) as [j|]; [|done].
    intros [= <-]. simpl. by apply IH.
Qed.

Lemma list_index_elem_of (x : string) (l : list string) :
  x ∈ l -> exists i, list_index x l = Some i.
Proof.
  induction 1 as [x l|x y l _ [i IH]]; simpl.
  - rewrite String.eqb_refl. eauto.
  - destruct (String.eqb x y); [eauto|]. rewrite IH. eauto.
Qed.

Lemma extract_lookup (d : pydict) (i : nat) (k : string) :
  DIMENSION_NAMES !! i = Some k ->
  _extract_coordinates d !! i
  = Some (match dict_get k d with Some v => v | None => PNone end).
Proof.
  intros H. unfold _extract_coordinates. rewrite list_lookup_fmap, H. done.
Qed.

Lemma posting_list_append (ix : gmap string (list nat)) (key key' : string) (pos : nat) :
  posting_list (index_append key pos ix) key'
  = if decide (key = key') then posting_list ix key ++ [pos] else posting_list ix key'.
Proof.
  unfold posting_list, index_append. rewrite lookup_insert.
  destruct (decide (key = key')); [by subst|done].
Qed.

Lemma update_indices_mono (coords : list pyval) (i pos : nat)
    (ix : gmap string (list nat)) (key : string) (n : nat) :
  n ∈ posting_list ix key ->
  n ∈ posting_list (update_indices i coords pos ix) key.
Proof.
  revert i ix. induction coords as [|v coords IH]; intros i ix Hn; simpl; [done|].
  apply IH. destruct v; try done;
    rewrite posting_list_append; case_decide; subst; try done;
    apply elem_of_app; by left.
Qed.

Lemma update_indices_adds (coords : list pyval) (i j pos : nat)
    (ix : gmap string (list nat)) (v : pyval) :
  coords !! j = Some v -> v <> PNone ->
  pos ∈ posting_list (update_indices i coords pos ix) (index_key (i + j) v).
Proof.
  revert i j ix. induction coords as [|c coords IH]; intros i j ix Hj Hv; [done|].
  destruct j as [|j]; simpl in *.
  - injection Hj as ->. apply update_indices_mono.
    rewrite Nat.add_0_r.
    destruct v; try done; rewrite posting_list_append; case_decide; try done;
      apply elem_of_app; right; apply list_elem_of_singleton; done.
  - replace (i + S j)%nat with (S i + j)%nat by lia. by apply IH.
Qed.

Lemma update_indices_only (coords : list pyval) (i pos : nat)
    (ix : gmap string (list nat)) (key : string) (n : nat) :
  n ∈ posting_list (update_indices i coords pos ix) key ->
  n = pos \/ n ∈ posting_list ix key.
Proof.
  revert i ix. induction coords as [|v coords IH]; intros i ix Hn; simpl in *; [by right|].
  apply IH in Hn as [->|Hn]; [by left|].
  destruct v; try (by right);
    rewrite posting_list_append in Hn; case_decide; subst; try (by right);
    apply elem_of_app in Hn as [Hn|Hn]; try (by right);
    apply list_elem_of_singleton in Hn; by left.
Qed.

Lemma posting_list_Some (ix : gmap string (list nat)) (key : string) (l : list nat) :
  ix !! key = Some l -> posting_list ix key = l.
Proof. unfold posting_list. by intros ->. Qed.

Lemma elem_of_posting (ix : gmap string (list nat)) (key : string) (n : nat) :
  n ∈ posting ix key <-> n ∈ posting_list ix key.
Proof. unfold posting, posting_list. by rewrite elem_of_list_to_set. Qed.

Lemma wf_posting_lt (s : Store40D) (key : string) (n : nat) :
  store_wf s -> n ∈ posting_list (index s) key -> (n < length (data s))%nat.
Proof.
  intros Hwf. unfold posting_list.
  destruct (index s !! key) as [l|] eqn:E; simpl; [|by intros ?%elem_of_nil].
  by apply (wf_index s Hwf key l n).
Qed.

Lemma store_init_wf (mandate : float) : store_wf (init mandate).
Proof.
  split; simpl.
  - intros key l i H. by rewrite lookup_empty in H.
  - by intros p ?%elem_of_nil.
Qed.


(** What [store] leaves behind, whether it returns or raises after the
    record was filed. *)
Lemma store_outcome (now : string) (breath : Z) (d : pydict) (s : Store40D) (g : string) :
  _compute_genome d = Some g ->
  exists s1,
    (store now breath d s = Ok g s1 \/ exists e, store now breath d s = Raise e s1)
    /\ data s1 = data s ++ [point_of now breath g d]
    /\ index s1 = update_indices 0 (_extract_coordinates d) (length (data s)) (index s)
    /\ care_mandate s1 = care_mandate s.
Proof.
  intros Hg. unfold store. rewrite Hg.
  replace (length (data s ++ [_]) - 1)%nat with (length (data s))
    by (rewrite length_app; simpl; lia).
  destruct (dict_get "value" d) as [v|].
  - destruct (py_mul_float v (care_mandate s)) as [e|c]; eexists; (split; [eauto|done]).
  - eexists; (split; [eauto|done]).
Qed.

Lemma store_Ok_inv (now : string) (breath : Z) (d : pydict) (s s1 : Store40D) (g : string) :
  store now breath d s = Ok g s1 ->
  _compute_genome d = Some g
  /\ data s1 = data s ++ [point_of now breath g d]
  /\ index s1 = update_indices 0 (_extract_coordinates d) (length (data s)) (index s)
  /\ care_mandate s1 = care_mandate s.
Proof.
  intros H. destruct (_compute_genome d) as [g'|] eqn:Hg.
  - destruct (store_outcome now breath d s g' Hg) as (s1' & [E|[e E]] & ?);
      rewrite E in H; [|done]. injection H as -> ->. done.
  - unfold store in H. by rewrite Hg in H.
Qed.

(** A serialization failure leaves the store as it was. *)
Lemma store_not_serializable (now : string) (breath : Z) (d : pydict) (s : Store40D) :
  json_dumps (PDict d) = None -> store now breath d s = Raise TypeError s.
Proof. intros H. unfold store, _compute_genome. by rewrite H. Qed.

(** [store] returns exactly when the content serializes and the
    [value] field, if any, can be multiplied by the mandate. *)
Lemma store_returns (now : string) (breath : Z) (d : pydict) (s : Store40D) (g : string) :
  _compute_genome d = Some g ->
  (forall v, dict_get "value" d = Some v ->
             exists c, py_mul_float v (care_mandate s) = inr c) ->
  exists s1, store now breath d s = Ok g s1.
Proof.
  intros Hg Hv. unfold store. rewrite Hg.
  destruct (dict_get "value" d) as [v|]; [|eauto].
  destruct (Hv v eq_refl) as [c ->]. eauto.
Qed.

Lemma store_wf_step (now : string) (breath : Z) (d : pydict) (s s1 : Store40D) (g : string) :
  store_wf s ->
  data s1 = data s ++ [point_of now breath g d] ->
  index s1 = update_indices 0 (_extract_coordinates d) (length (data s)) (index s) ->
  store_wf s1.
Proof.
  intros Hwf Hd Hi. split.
  - intros key l i Hl Hin. rewrite Hd, length_app. simpl.
    assert (i ∈ posting_list (index s1) key) as Hp
      by (by rewrite (posting_list_Some _ _ _ Hl)).
    rewrite Hi in Hp. apply update_indices_only in Hp as [->|Hp]; [lia|].
    apply (wf_posting_lt s key i Hwf) in Hp. lia.
  - intros p. rewrite Hd. intros [Hp| ->%list_elem_of_singleton]%elem_of_app.
    + by apply (wf_coords s Hwf).
    + done.
Qed.

Lemma store_preserves_wf (now : string) (breath : Z) (d : pydict) (s s1 : Store40D) (g : string) :
  store_wf s -> store now breath d s = Ok g s1 -> store_wf s1.
Proof.
  intros Hwf H. apply store_Ok_inv in H as (_ & Hd & Hi & _).
  by apply (store_wf_step now breath d s s1 g).
Qed.

Lemma retrieve_omap (pts : list Point) (idxs : list nat) :
  (forall idx, idx ∈ idxs -> (idx < length pts)%nat) ->
  retrieve pts idxs = inr (omap (fun idx => pts !! idx) idxs).
Proof.
  induction idxs as [|idx idxs IH]; intros H; simpl; [done|].
  destruct (lookup_lt_is_Some_2 pts idx) as [p Hp]; [apply H; by left|].
  rewrite Hp, IH; [done|]. intros i Hi. apply H. by right.
Qed.

Lemma query_unfold (filters : pydict) (operators : option (list (string * string)))
    (qt : float) (s : Store40D) (res : list Point) :
  query_results s filters operators = inr res ->
  exists s', query filters operators qt s = Ok res s' /\ data s' = data s
             /\ index s' = index s.
Proof. intros H. unfold query. rewrite H. eauto. Qed.


(** C2, for values other than [None]: a record that [store] accepts is
    found again by the equality query on any schema dimension in which it
    has a value other than [None]. *)
Theorem C2_store_then_query (now : string) (breath : Z) (r : pydict)
    (s : Store40D) (g k : string) (v : pyval) (qt : float) :
  store_wf s ->
  _compute_genome r = Some g ->
  (forall x, dict_get "value" r = Some x ->
             exists c, py_mul_float x (care_mandate s) = inr c) ->
  k ∈ DIMENSION_NAMES ->
  dict_get k r = Some v ->
  v <> PNone ->
  exists s1 res s2,
    store now breath r s = Ok g s1
    /\ query [(k, v)] None qt s1 = Ok res s2
    /\ point_of now breath g r ∈ res.
Proof.
  intros Hwf Hg Hval Hk Hv Hnn.
  destruct (store_returns now breath r s g Hg Hval) as [s1 Hs1].
  pose proof (store_preserves_wf _ _ _ _ _ _ Hwf Hs1) as Hwf1.
  destruct (store_Ok_inv _ _ _ _ _ _ Hs1) as (_ & Hd & Hi & _).
  destruct (list_index_elem_of k DIMENSION_NAMES Hk) as [i Hidx].
  pose proof (list_index_lookup _ _ _ Hidx) as Hdim.
  assert (length (data s) ∈ posting_list (index s1) (index_key i v)) as Hpost.
  { rewrite Hi. apply (update_indices_adds _ 0 i); [|done].
    rewrite (extract_lookup r i k Hdim), Hv. done. }
  assert (query_results s1 [(k, v)] None
          = inr (omap (fun idx => data s1 !! idx)
                      (elements (posting (index s1) (index_key i v))))) as Hq.
  { unfold query_results. cbn [candidates]. rewrite Hidx.
    cbn [operator_for filter_indices String.eqb Ascii.eqb Bool.eqb candidates].
    apply retrieve_omap. intros idx Hin.
    apply elem_of_elements, elem_of_posting in Hin.
    by apply (wf_posting_lt s1 (index_key i v)). }
  destruct (query_unfold _ _ qt _ _ Hq) as (s2 & Hq2 & _).
  eexists s1, _, s2. split; [done|]. split; [exact Hq2|].
  apply list_elem_of_omap. exists (length (data s)). split.
  - by apply elem_of_elements, elem_of_posting.
  - rewrite Hd. by rewrite list_lookup_middle.
Qed.

(** An instance of C2: a record with a sector, stored in the empty store. *)
Lemma C2_store_then_query_witness :
  exists s1 res s2,
    store "2025" 3 [("sector", PStr "quantum_ai"); ("value", PInt 1000)] (init CARE_15)
    = Ok "25c60b359ba1d6796a41814145aa4ee7b8b1165f2802e722b5380ffbf52ab193" s1
    /\ query [("sector", PStr "quantum_ai")] None 0%float s1 = Ok res s2
    /\ point_of "2025" 3
         "25c60b359ba1d6796a41814145aa4ee7b8b1165f2802e722b5380ffbf52ab193"
         [("sector", PStr "quantum_ai"); ("value", PInt 1000)] ∈ res.
Proof.
  apply (C2_store_then_query "2025" 3
           [("sector", PStr "quantum_ai"); ("value", PInt 1000)]
           (init CARE_15) _ "sector" (PStr "quantum_ai") 0%float).
  - apply store_init_wf.
  - vm_compute. reflexivity.
  - intros x [= <-]. eexists. vm_compute. reflexivity.
  - repeat constructor.
  - reflexivity.
  - discriminate.
Defined.

(** C2 does not hold for a dimension present with the value [None]:
    it is not indexed, and the equality query on it finds nothing. *)
Lemma C2_counterexample :
  exists g s1 s2,
    "sector" ∈ DIMENSION_NAMES
    /\ dict_get "sector" [("sector", PNone)] = Some PNone
    /\ is_Some (json_dumps (PDict [("sector", PNone)]))
    /\ store "2025" 3 [("sector", PNone)] (init CARE_15) = Ok g s1
    /\ length (data s1) = 1%nat
    /\ query [("sector", PNone)] None 0%float s1 = Ok [] s2.
Proof.
  eexists _, _, _. split; [repeat constructor|]. split; [reflexivity|].
  split; [by eexists|]. split; [vm_compute; reflexivity|].
  split; [reflexivity|]. vm_compute. reflexivity.
Qed.

(** C6, on content with a [value] that is a text: the content
    serializes, yet [store] raises, and only after the record was appended
    to [data] and indexed; the counter [total_stored] was not incremented. *)
Theorem C6_store_raises_after_append :
  is_Some (json_dumps (PDict [("sector", PStr "ai"); ("value", PStr "abc")]))
  /\ exists s',
       store "2025" 3 [("sector", PStr "ai"); ("value", PStr "abc")] (init CARE_15)
       = Raise TypeError s'
       /\ length (data s') = 1%nat
       /\ index s' !! "D0:ai" = Some [0%nat]
       /\ total_stored (stats s') = 0%nat.
Proof.
  split; [by eexists|]. eexists. split; [vm_compute; reflexivity|].
  split; [reflexivity|]. split; [|reflexivity]. vm_compute. reflexivity.
Qed.

(** C9: with no filter, [query] returns the empty list, whatever the
    store holds. *)
Theorem C9_empty_filters (s : Store40D) (operators : option (list (string * string)))
    (qt : float) :
  exists s', query [] operators qt s = Ok [] s' /\ data s' = data s.
Proof.
  destruct (query_unfold [] operators qt s []) as (s' & H & Hd & _); [done|].
  eauto.
Qed.

Lemma store_pool (now : string) (breath : Z) (d : pydict) (s : Store40D)
    (v : pyval) (c : float) :
  is_Some (json_dumps (PDict d)) ->
  dict_get "value" d = Some v ->
  py_mul_float v (care_mandate s) = inr c ->
  exists g s1,
    store now breath d s = Ok g s1
    /\ care_pool s1 = (care_pool s + c)%float
    /\ care_mandate s1 = care_mandate s.
Proof.
  intros [j Hj] Hv Hc. unfold store, _compute_genome. rewrite Hj, Hv, Hc.
  eexists _, _. split; [done|]. done.
Qed.

Lemma value_is_mul (d : pydict) (n : Z) (f c : float) :
  value_is d n f ->
  py_mul_float (PInt n) CARE_15 = inr c ->
  py_mul_float (PFloat f) CARE_15 = inr c ->
  exists v, dict_get "value" d = Some v /\ py_mul_float v CARE_15 = inr c.
Proof. intros [H|H] Hn Hf; eauto. Qed.

(** C8: three records with the values 1000, 2000 and 500, stored at the
    mandate 0.15 into an empty pool, leave a pool of exactly 525.0. *)
Theorem C8_pool_525 (s : Store40D) (d1 d2 d3 : pydict)
    (now1 now2 now3 : string) (b1 b2 b3 : Z) :
  care_mandate s = CARE_15 ->
  care_pool s = 0%float ->
  value_is d1 1000 1000%float ->
  value_is d2 2000 2000%float ->
  value_is d3 500 500%float ->
  is_Some (json_dumps (PDict d1)) ->
  is_Some (json_dumps (PDict d2)) ->
  is_Some (json_dumps (PDict d3)) ->
  exists g1 s1 g2 s2 g3 s3,
    store now1 b1 d1 s = Ok g1 s1
    /\ store now2 b2 d2 s1 = Ok g2 s2
    /\ store now3 b3 d3 s2 = Ok g3 s3
    /\ care_pool s3 = 525%float.
Proof.
  intros Hm Hp H1 H2 H3 J1 J2 J3.
  destruct (value_is_mul d1 1000 1000%float 150%float H1) as (v1 & Hv1 & Hc1);
    [vm_compute; reflexivity..|].
  destruct (value_is_mul d2 2000 2000%float 300%float H2) as (v2 & Hv2 & Hc2);
    [vm_compute; reflexivity..|].
  destruct (value_is_mul d3 500 500%float 75%float H3) as (v3 & Hv3 & Hc3);
    [vm_compute; reflexivity..|].
  rewrite <- Hm in Hc1.
  destruct (store_pool now1 b1 d1 s v1 _ J1 Hv1 Hc1) as (g1 & s1 & E1 & P1 & M1).
  rewrite Hm in M1. rewrite <- M1 in Hc2.
  destruct (store_pool now2 b2 d2 s1 v2 _ J2 Hv2 Hc2) as (g2 & s2 & E2 & P2 & M2).
  rewrite M1 in M2. rewrite <- M2 in Hc3.
  destruct (store_pool now3 b3 d3 s2 v3 _ J3 Hv3 Hc3) as (g3 & s3 & E3 & P3 & M3).
  exists g1, s1, g2, s2, g3, s3. repeat (split; [done|]).
  rewrite P3, P2, P1, Hp. vm_compute. reflexivity.
Qed.

(** An instance of C8: the three records of the test suite, one of them
    with an integer value. *)
Lemma C8_pool_525_witness :
  exists g1 s1 g2 s2 g3 s3,
    store "t1" 0 [("brand", PStr "Brand1"); ("value", PFloat 1000)] (init CARE_15)
    = Ok g1 s1
    /\ store "t2" 1 [("brand", PStr "Brand2"); ("value", PFloat 2000)] s1 = Ok g2 s2
    /\ store "t3" 2 [("brand", PStr "Brand3"); ("value", PInt 500)] s2 = Ok g3 s3
    /\ care_pool s3 = 525%float.
Proof.
  apply (C8_pool_525 (init CARE_15)); try reflexivity;
    try (by eexists); try (by right); by left.
Defined.


Lemma store_wf_state_of (now : string) (breath : Z) (d : pydict) (s : Store40D) :
  store_wf s -> store_wf (state_of (store now breath d s)).
Proof.
  intros Hwf. destruct (_compute_genome d) as [g|] eqn:Hg.
  - destruct (store_outcome now breath d s g Hg) as (s1 & [E|[e E]] & Hd & Hi & _);
      rewrite E; by apply (store_wf_step now breath d s s1 g).
  - unfold store. by rewrite Hg.
Qed.

Lemma py_ge_order (c t : pyval) :
  py_order c t <> None -> exists b, py_ge c t = Some b.
Proof. unfold py_ge. destruct (py_order c t) as [[]|]; eauto. done. Qed.

Lemma range_scan_ge_step (k : string) (i : nat) (t : pyval) (p : Point)
    (pts : list Point) (j : nat) (acc : gset nat) :
  DIMENSION_NAMES !! i = Some k ->
  coordinates p = _extract_coordinates (point_data p) ->
  match dict_get k (point_data p) with
  | Some PNone | None => true
  | Some c => match py_order c t with Some _ => true | None => false end
  end = true ->
  range_scan ">=" i t j (p :: pts) acc
  = range_scan ">=" i t (S j) pts (if ge_match k t p then {[ j ]} ∪ acc else acc).
Proof.
  intros Hdim Hc Hcmp. cbn [range_scan]. rewrite Hc, (extract_lookup _ i k Hdim).
  unfold ge_match.
  destruct (dict_get k (point_data p)) as [c|]; [|done].
  assert (range_test ">=" c t = Some (py_ge c t)) as -> by reflexivity.
  destruct c; try done;
    match goal with
    | |- context [py_ge ?c t] =>
        destruct (py_ge_order c t) as [r ->];
        [by destruct (py_order c t)|by destruct r]
    end.
Qed.

Lemma range_scan_ge (k : string) (i : nat) (t : pyval) (pts : list Point)
    (j : nat) (acc : gset nat) :
  DIMENSION_NAMES !! i = Some k ->
  (forall p, p ∈ pts -> coordinates p = _extract_coordinates (point_data p)) ->
  forallb (fun p => match dict_get k (point_data p) with
                    | Some PNone | None => true
                    | Some c => match py_order c t with Some _ => true | None => false end
                    end) pts = true ->
  range_scan ">=" i t j pts acc
  = inr (acc ∪ list_to_set (match_positions (ge_match k t) j pts)).
Proof.
  intros Hdim. revert j acc.
  induction pts as [|p pts IH]; intros j acc Hc Hcmp.
  - simpl. f_equal. set_solver.
  - simpl in Hcmp. apply andb_prop in Hcmp as [Hp Hcmp].
    rewrite (range_scan_ge_step k); [|done|apply Hc; by left|done].
    rewrite IH; [|intros q Hq; apply Hc; by right|done].
    f_equal. cbn [match_positions]. destruct (ge_match k t p); set_solver.
Qed.

Lemma match_positions_bounds (f : Point -> bool) (i : nat) (pts : list Point) (x : nat) :
  x ∈ match_positions f i pts -> (i <= x < i + length pts)%nat.
Proof.
  revert i. induction pts as [|p pts IH]; intros i; simpl; [by intros ?%elem_of_nil|].
  destruct (f p).
  - intros [->|H%IH]%elem_of_cons; lia.
  - intros H%IH. lia.
Qed.

Lemma match_positions_NoDup (f : Point -> bool) (i : nat) (pts : list Point) :
  NoDup (match_positions f i pts).
Proof.
  revert i. induction pts as [|p pts IH]; intros i; simpl; [constructor|].
  destruct (f p); [|done]. constructor; [|done].
  intros H%match_positions_bounds. lia.
Qed.

Lemma match_positions_filter (f : Point -> bool) (pre pts : list Point) :
  omap (fun j => (pre ++ pts) !! j) (match_positions f (length pre) pts)
  = List.filter f pts.
Proof.
  revert pre. induction pts as [|p pts IH]; intros pre; [done|].
  specialize (IH (pre ++ [p])).
  rewrite length_app, Nat.add_1_r, <- app_assoc in IH.
  change ([p] ++ pts) with (p :: pts) in IH.
  cbn [match_positions List.filter]. destruct (f p); [|done].
  rewrite <- IH. cbn [omap list_omap].
  by rewrite list_lookup_middle.
Qed.

(** C7, for thresholds that can be ordered against every value the
    store holds in dimension [k]: the [>=] query returns exactly the stored
    points whose value in [k] is not null and is [>= t], the ones equal to
    [t] included, each once. *)
Theorem C7_ge_query (s : Store40D) (k : string) (t : pyval) (qt : float) :
  store_wf s ->
  k ∈ DIMENSION_NAMES ->
  comparable_with k t s = true ->
  exists res s',
    query [(k, t)] (Some [(k, ">=")]) qt s = Ok res s'
    /\ res ≡ₚ List.filter (ge_match k t) (data s).
Proof.
  intros Hwf Hk Hcmp.
  destruct (list_index_elem_of k DIMENSION_NAMES Hk) as [i Hidx].
  pose proof (list_index_lookup _ _ _ Hidx) as Hdim.
  set (hits := (list_to_set (match_positions (ge_match k t) 0 (data s)) : gset nat)).
  assert (query_results s [(k, t)] (Some [(k, ">=")])
          = inr (omap (fun idx => data s !! idx) (elements hits))) as Hq.
  { unfold query_results. cbn [candidates]. rewrite Hidx.
    assert (operator_for (Some [(k, ">=")]) k = ">=") as ->.
    { unfold operator_for. simpl. by rewrite String.eqb_refl. }
    assert (filter_indices s i ">=" t = inr hits) as ->.
    { unfold filter_indices. cbn [String.eqb Ascii.eqb Bool.eqb].
      rewrite (range_scan_ge k); [|done|apply (wf_coords s Hwf)|done].
      f_equal. unfold hits. set_solver. }
    cbn [candidates]. apply retrieve_omap. intros idx Hin.
    apply elem_of_elements, elem_of_list_to_set, match_positions_bounds in Hin. lia. }
  destruct (query_unfold _ _ qt _ _ Hq) as (s' & Hq' & _).
  eexists _, s'. split; [exact Hq'|].
  rewrite <- (match_positions_filter (ge_match k t) [] (data s)). simpl.
  apply omap_Permutation. unfold hits.
  apply elements_list_to_set, match_positions_NoDup.
Qed.

(** An instance of C7: the threshold 0.5 against the scores 0.4, 0.5, 0.6. *)
Lemma C7_ge_query_witness :
  exists res s',
    query [("quality_score", PFloat 0x1p-1%float)] (Some [("quality_score", ">=")])
          0%float three_scores = Ok res s'
    /\ res ≡ₚ List.filter (ge_match "quality_score" (PFloat 0x1p-1%float)) (data three_scores).
Proof.
  apply (C7_ge_query three_scores "quality_score" (PFloat 0x1p-1%float) 0%float).
  - unfold three_scores. do 3 apply store_wf_state_of. apply store_init_wf.
  - repeat constructor.
  - vm_compute. reflexivity.
Defined.

(** The boundary: the record whose score equals the threshold is among
    the matches, the one below it is not. *)
Example ge_boundary :
  map (fun p => dict_get "brand" (point_data p))
      (List.filter (ge_match "quality_score" (PFloat 0x1p-1%float)) (data three_scores))
  = [Some (PStr "b"); Some (PStr "c")].
Proof. vm_compute. reflexivity. Qed.

(** C7 does not hold for every store and threshold: against a stored
    text value, the comparison with a number raises [TypeError] and [query]
    returns no list. *)
Lemma C7_counterexample :
  exists g s1,
    store "t1" 0 [("year", PStr "abc")] (init CARE_15) = Ok g s1
    /\ query [("year", PInt 5)] (Some [("year", ">=")]) 0%float s1
       = Raise TypeError s1.
Proof.
  eexists _, _. split; [vm_compute; reflexivity|]. vm_compute. reflexivity.
Qed.

(** *** Exact postings *)

Lemma posting_list_step (v : pyval) (i pos : nat) (ix : gmap string (list nat))
    (key : string) (n : nat) :
  n ∈ posting_list (match v with
                    | PNone => ix
                    | _ => index_append (index_key i v) pos ix
                    end) key
  <-> n ∈ posting_list ix key \/ (n = pos /\ v <> PNone /\ index_key i v = key).
Proof.
  assert (v = PNone \/ v <> PNone) as [->|Hv] by (destruct v; (by left) || by right).
  - split; [by left|]. intros [H|(_ & H & _)]; [exact H|by destruct H].
  - assert (match v with
            | PNone => ix
            | _ => index_append (index_key i v) pos ix
            end = index_append (index_key i v) pos ix) as -> by (by destruct v).
    rewrite posting_list_append. case_decide as E.
    + rewrite elem_of_app, list_elem_of_singleton. subst key.
      split; (intros [H|H]; [by left|right]); [by subst|by destruct H].
    + split; [by left|]. intros [H|(_ & _ & H)]; [exact H|by destruct E].
Qed.

Lemma update_indices_spec (coords : list pyval) (i pos : nat)
    (ix : gmap string (list nat)) (key : string) (n : nat) :
  n ∈ posting_list (update_indices i coords pos ix) key <->
  n ∈ posting_list ix key
  \/ (n = pos /\ exists j c, coords !! j = Some c /\ c <> PNone
                             /\ index_key (i + j) c = key).
Proof.
  revert i ix. induction coords as [|v coords IH]; intros i ix.
  - simpl. split; [by left|]. intros [H|(_ & j & c & H & _)]; done.
  - cbn [update_indices]. rewrite IH.
    rewrite posting_list_step.
    split.
    + intros [[H|(-> & Hv & Hk)]|(-> & j & c & Hj & Hc & Hk)]; [by left|right..].
      * split; [done|]. exists 0%nat, v. by rewrite Nat.add_0_r.
      * split; [done|]. exists (S j), c. split; [done|]. split; [done|].
        by replace (i + S j)%nat with (S i + j)%nat by lia.
    + intros [H|(-> & [|j] & c & Hj & Hc & Hk)]; [by left; left|..].
      * injection Hj as ->. rewrite Nat.add_0_r in Hk. left. right. done.
      * right. split; [done|]. exists j, c. split; [done|]. split; [done|].
        by replace (S i + j)%nat with (i + S j)%nat by lia.
Qed.

Lemma key_dim_index_key (i : nat) (v : pyval) :
  (i < 40)%nat ->
  key_dim (index_key i v) = "D" +:+ str_of_Z (Z.of_nat i)
  /\ key_value (index_key i v) = py_str v.
Proof.
  intros Hi. do 40 (destruct i as [|i]; [split; reflexivity|]). lia.
Qed.

Lemma dim_tag_inj (i j : nat) :
  (i < 40)%nat -> (j < 40)%nat ->
  "D" +:+ str_of_Z (Z.of_nat i) = "D" +:+ str_of_Z (Z.of_nat j) -> i = j.
Proof.
  intros Hi Hj H.
  assert (forallb (fun a => forallb (fun b =>
            implb (String.eqb ("D" +:+ str_of_Z (Z.of_nat a))
                              ("D" +:+ str_of_Z (Z.of_nat b)))
                  (Nat.eqb a b)) (seq 0 40)) (seq 0 40) = true) as Hall
    by (vm_compute; reflexivity).
  rewrite forallb_forall in Hall.
  specialize (Hall i). rewrite forallb_forall in Hall.
  assert (In i (seq 0 40)) as Hi' by (apply in_seq; lia).
  assert (In j (seq 0 40)) as Hj' by (apply in_seq; lia).
  specialize (Hall Hi' j Hj'). rewrite H, String.eqb_refl in Hall.
  by apply Nat.eqb_eq.
Qed.

Lemma index_key_inj (i j : nat) (c v : pyval) :
  (i < 40)%nat -> (j < 40)%nat -> index_key i c = index_key j v ->
  i = j /\ py_str c = py_str v.
Proof.
  intros Hi Hj H.
  destruct (key_dim_index_key i c Hi) as [D1 V1].
  destruct (key_dim_index_key j v Hj) as [D2 V2].
  rewrite H in D1, V1. split; [|congruence].
  apply dim_tag_inj; congruence.
Qed.

Lemma extract_length (d : pydict) : length (_extract_coordinates d) = 40%nat.
Proof. unfold _extract_coordinates. by rewrite length_fmap. Qed.

Lemma store_init_exact (mandate : float) : index_exact (init mandate).
Proof.
  intros key n. unfold posting_list. cbn [init index data].
  rewrite lookup_empty. simpl. split; [by intros ?%elem_of_nil|].
  by intros (p & i & c & H & _).
Qed.

Lemma store_exact_step (now : string) (breath : Z) (d : pydict) (s s1 : Store40D)
    (g : string) :
  store_wf s -> index_exact s ->
  data s1 = data s ++ [point_of now breath g d] ->
  index s1 = update_indices 0 (_extract_coordinates d) (length (data s)) (index s) ->
  index_exact s1.
Proof.
  intros Hwf Hex Hd Hi key n. rewrite Hi, Hd, update_indices_spec, (Hex key n).
  split.
  - intros [(p & i & c & Hp & H)|(-> & j & c & Hj & Hc & Hk)].
    + exists p, i, c. split; [by apply lookup_app_l_Some|exact H].
    + exists (point_of now breath g d), j, c.
      split; [by rewrite list_lookup_middle|].
      split; [exact Hj|]. split; [exact Hc|exact Hk].
  - intros (p & i & c & Hp & Hc & Hne & Hk).
    apply lookup_app_Some in Hp as [Hp|[Hge Hp]].
    { left. exists p, i, c. split; [exact Hp|]. split; [exact Hc|].
      split; [exact Hne|exact Hk]. }
    right. destruct (n - length (data s))%nat as [|k] eqn:E; [|by destruct k].
    injection Hp as <-. split; [lia|]. exists i, c.
    split; [exact Hc|]. split; [exact Hne|exact Hk].
Qed.

Lemma store_step_exact (o : store_op) (s : Store40D) :
  store_wf s -> index_exact s ->
  store_wf (store_step o s) /\ index_exact (store_step o s).
Proof.
  intros Hwf Hex. destruct o as [now breath d|filters operators qt]; cbn [store_step].
  - destruct (_compute_genome d) as [g|] eqn:Hg.
    + destruct (store_outcome now breath d s g Hg) as (s1 & [E|[e E]] & Hd & Hi & _);
        rewrite E; cbn [state_of];
        (split; [by eapply store_wf_step|by eapply store_exact_step]).
    + unfold store. by rewrite Hg.
  - unfold query. destruct (query_results s filters operators); cbn [state_of]; [done|].
    split; [by destruct Hwf|done].
Qed.

Lemma store_reachable_wf (s : Store40D) :
  store_reachable s -> store_wf s /\ index_exact s.
Proof.
  intros (mandate & ops & ->). unfold store_run.
  assert (forall s0, store_wf s0 /\ index_exact s0 ->
            store_wf (fold_left (fun s o => store_step o s) ops s0)
            /\ index_exact (fold_left (fun s o => store_step o s) ops s0)) as H.
  { induction ops as [|o ops IH]; intros s0 [H1 H2]; [done|].
    simpl. by apply IH, store_step_exact. }
  apply H. split; [apply store_init_wf|apply store_init_exact].
Qed.

(** *** The equality query *)

Lemma elem_of_match_positions (f : Point -> bool) (pre pts : list Point) (x : nat) :
  x ∈ match_positions f (length pre) pts
  <-> exists p, (pre ++ pts) !! x = Some p /\ (length pre <= x)%nat /\ f p = true.
Proof.
  revert pre. induction pts as [|q pts IH]; intros pre.
  - simpl. split; [by intros ?%elem_of_nil|]. intros (p & Hp & Hx & _).
    rewrite app_nil_r in Hp. apply lookup_lt_Some in Hp. lia.
  - specialize (IH (pre ++ [q])).
    rewrite length_app, Nat.add_1_r, <- app_assoc in IH.
    change ([q] ++ pts) with (q :: pts) in IH.
    cbn [match_positions].
    assert (x ∈ (if f q then length pre :: match_positions f (S (length pre)) pts
                 else match_positions f (S (length pre)) pts)
            <-> (x = length pre /\ f q = true)
                \/ x ∈ match_positions f (S (length pre)) pts) as ->.
    { destruct (f q); [rewrite elem_of_cons|]; naive_solver. }
    rewrite IH. split.
    + intros [[-> Hq]|(p & Hp & Hx & Hf)].
      * exists q. by rewrite list_lookup_middle.
      * exists p. split; [done|]. split; [lia|done].
    + intros (p & Hp & Hx & Hf).
      destruct (decide (x = length pre)) as [->|Hne].
      * left. rewrite list_lookup_middle in Hp by done. by injection Hp as ->.
      * right. exists p. split; [done|]. split; [lia|done].
Qed.

(** The points at the positions of a set that holds exactly the
    positions of the points passing [f]. *)
Lemma retrieve_hits (pts : list Point) (hits : gset nat) (f : Point -> bool) :
  (forall n, n ∈ hits <-> exists p, pts !! n = Some p /\ f p = true) ->
  exists res, retrieve pts (elements hits) = inr res /\ res ≡ₚ List.filter f pts.
Proof.
  intros H.
  assert (hits = list_to_set (match_positions f 0 pts)) as ->.
  { apply set_eq. intros n. rewrite H, elem_of_list_to_set.
    rewrite (elem_of_match_positions f [] pts n). simpl.
    split; intros (p & Hp & Hf); exists p; [split; [done|split; [lia|done]]|].
    by destruct Hf. }
  eexists. split.
  - apply retrieve_omap. intros idx Hin.
    apply elem_of_elements, elem_of_list_to_set, match_positions_bounds in Hin. lia.
  - rewrite <- (match_positions_filter f [] pts). simpl.
    apply omap_Permutation, elements_list_to_set, match_positions_NoDup.
Qed.

Lemma list_index_None (x : string) (l : list string) :
  list_index x l = None <-> x ∉ l.
Proof.
  induction l as [|y l IH]; simpl.
  - split; [intros _ ?%elem_of_nil; done|done].
  - rewrite not_elem_of_cons. destruct (String.eqb_spec x y) as [->|Hne].
    + split; [done|]. by intros [? _].
    + destruct (list_index x l); [split; [done|]|split; [|done]].
      * intros [_ H]. by apply IH in H.
      * intros _. split; [done|]. by apply IH.
Qed.

Lemma list_index_lt (x : string) (l : list string) (i : nat) :
  list_index x l = Some i -> (i < length l)%nat.
Proof. intros H%list_index_lookup. by eapply lookup_lt_Some. Qed.

(** The coordinate of a stored point in a dimension of the schema. *)
Lemma wf_coordinate (s : Store40D) (p : Point) (n i : nat) (k : string) :
  store_wf s -> data s !! n = Some p -> list_index k DIMENSION_NAMES = Some i ->
  coordinates p !! i
  = Some (match dict_get k (point_data p) with Some v => v | None => PNone end).
Proof.
  intros Hwf Hp Hi. rewrite (wf_coords s Hwf p) by (by eapply list_elem_of_lookup_2).
  apply extract_lookup. by apply list_index_lookup.
Qed.

Lemma posting_eq_match (s : Store40D) (k : string) (i : nat) (v : pyval) (n : nat) :
  store_wf s -> index_exact s -> list_index k DIMENSION_NAMES = Some i ->
  n ∈ posting (index s) (index_key i v)
  <-> exists p, data s !! n = Some p /\ eq_match k v p = true.
Proof.
  intros Hwf Hex Hi. rewrite elem_of_posting, (Hex _ n).
  pose proof (list_index_lt _ _ _ Hi) as Hlt. change (length DIMENSION_NAMES) with 40%nat in Hlt.
  split.
  - intros (p & j & c & Hp & Hc & Hne & Hk). exists p. split; [exact Hp|].
    assert (j < 40)%nat as Hj.
    { apply lookup_lt_Some in Hc.
      rewrite (wf_coords s Hwf p), extract_length in Hc; [done|].
      by eapply list_elem_of_lookup_2. }
    destruct (index_key_inj j i c v Hj Hlt Hk) as [-> Hs].
    rewrite (wf_coordinate s p n i k Hwf Hp Hi) in Hc. injection Hc as Hc.
    unfold eq_match. destruct (dict_get k (point_data p)) as [c'|]; [|by subst c].
    subst c'. rewrite Hs, String.eqb_refl. by destruct c.
  - intros (p & Hp & Hm). unfold eq_match in Hm.
    destruct (dict_get k (point_data p)) as [c|] eqn:Hc; [|done].
    assert (c <> PNone /\ py_str c = py_str v) as [Hne Hs].
    { destruct c; try done; split; try done; by apply String.eqb_eq. }
    exists p, i, c. split; [exact Hp|].
    split; [by rewrite (wf_coordinate s p n i k Hwf Hp Hi), Hc|].
    split; [exact Hne|]. unfold index_key. by rewrite Hs.
Qed.

Lemma on_schema_index (k : string) (v : pyval) :
  on_schema (k, v) = match list_index k DIMENSION_NAMES with
                     | Some _ => true | None => false end.
Proof.
  unfold on_schema. cbn [fst].
  destruct (list_index k DIMENSION_NAMES) as [i|] eqn:E.
  - apply bool_decide_eq_true. apply list_index_lookup in E.
    by eapply list_elem_of_lookup_2.
  - apply bool_decide_eq_false. by apply list_index_None.
Qed.

(** The loop over the filters when every operator is the default one. *)
Lemma candidates_eq (s : Store40D) (filters : pydict) (cand : option (gset nat)) :
  store_wf s -> index_exact s ->
  (forall c0 n, cand = Some c0 -> n ∈ c0 -> is_Some (data s !! n)) ->
  exists c',
    candidates s None filters cand = inr c'
    /\ (c' = None <-> cand = None /\ List.filter on_schema filters = [])
    /\ forall c n, c' = Some c ->
         n ∈ c <-> (forall c0, cand = Some c0 -> n ∈ c0)
                   /\ exists p, data s !! n = Some p
                                /\ eq_filters_match filters p = true.
Proof.
  intros Hwf Hex. revert cand.
  induction filters as [|[k v] filters IH]; intros cand Hcand.
  - exists cand. split; [done|]. split; [naive_solver|].
    intros c n ->. split.
    + intros Hn. split; [by intros ? [= <-]|].
      destruct (Hcand c n eq_refl Hn) as [p Hp]. by exists p.
    + intros [H _]. by apply H.
  - cbn [candidates List.filter]. unfold eq_filters_match. cbn [List.filter].
    rewrite on_schema_index.
    destruct (list_index k DIMENSION_NAMES) as [i|] eqn:Hi.
    + cbn [operator_for]. unfold filter_indices. cbn [String.eqb Ascii.eqb Bool.eqb].
      set (cand1 := match cand with
                    | Some c0 => Some (c0 ∩ posting (index s) (index_key i v))
                    | None => Some (posting (index s) (index_key i v))
                    end).
      destruct (IH cand1) as (c' & E & Hnone & Hsome).
      { intros c0 n Hc0 Hn.
        assert (n ∈ posting (index s) (index_key i v)) as Hpost.
        { unfold cand1 in Hc0. destruct cand; injection Hc0 as <-; set_solver. }
        apply (posting_eq_match s k i v n Hwf Hex Hi) in Hpost as (p & Hp & _).
        by exists p. }
      exists c'. split; [exact E|]. split.
      * split; [|by intros [_ ?]]. intros H. apply Hnone in H as [H _].
        unfold cand1 in H. by destruct cand.
      * intros c n Hc. rewrite (Hsome c n Hc). cbn [forallb fst snd].
        unfold eq_filters_match. split.
        -- intros (H1 & p & Hp & Hm).
           assert (n ∈ posting (index s) (index_key i v)
                   /\ forall c0, cand = Some c0 -> n ∈ c0) as [Hpost Hc0].
           { unfold cand1 in H1. destruct cand as [c0|].
             - specialize (H1 _ eq_refl). split; [set_solver|].
               intros ? [= <-]. set_solver.
             - split; [by apply H1|done]. }
           split; [exact Hc0|]. exists p. split; [exact Hp|].
           apply (posting_eq_match s k i v n Hwf Hex Hi) in Hpost as (p' & Hp' & Hm').
           assert (p' = p) as -> by congruence. by rewrite Hm'.
        -- intros (Hc0 & p & Hp & Hm). apply andb_prop in Hm as [Hm1 Hm2].
           split; [|by exists p].
           assert (n ∈ posting (index s) (index_key i v)) as Hpost
             by (apply (posting_eq_match s k i v n Hwf Hex Hi); by exists p).
           intros c1 Hc1. unfold cand1 in Hc1. destruct cand as [c0|];
             injection Hc1 as <-; [|done].
           specialize (Hc0 _ eq_refl). set_solver.
    + destruct (IH cand Hcand) as (c' & E & Hnone & Hsome).
      exists c'. split; [exact E|]. split; [exact Hnone|exact Hsome].
Qed.

Lemma mixed_years_reachable : store_reachable mixed_years.
Proof. by eexists _, _. Qed.

Lemma three_scores_reachable : store_reachable three_scores.
Proof. exists CARE_15, three_scores_ops. reflexivity. Qed.

Lemma existsb_on_schema (filters : pydict) :
  existsb on_schema filters = true <-> List.filter on_schema filters <> [].
Proof.
  induction filters as [|kv filters IH]; simpl; [done|].
  destruct (on_schema kv); simpl; [done|exact IH].
Qed.

(** X1: the equality query: with the default operator, [query] returns
    exactly the stored points that pass every filter on a dimension of the
    schema, each once; a point passes a filter when its value in that
    dimension is not null and prints as the filter value prints, and
    filters on other names are skipped. *)
Theorem query_eq_exact (s : Store40D) (filters : pydict) (qt : float) :
  store_reachable s ->
  existsb on_schema filters = true ->
  exists res s',
    query filters None qt s = Ok res s'
    /\ res ≡ₚ List.filter (eq_filters_match filters) (data s).
Proof.
  intros [Hwf Hex]%store_reachable_wf Hon%existsb_on_schema.
  destruct (candidates_eq s filters None Hwf Hex) as (c' & E & Hnone & Hsome); [done|].
  destruct c' as [c|]; [|by destruct (proj1 Hnone eq_refl)].
  destruct (retrieve_hits (data s) c (eq_filters_match filters)) as (res & Hr & Hp).
  { intros n. rewrite (Hsome c n eq_refl). naive_solver. }
  assert (query_results s filters None = inr res) as Hq.
  { unfold query_results. by rewrite E. }
  destruct (query_unfold _ _ qt _ _ Hq) as (s' & Hq' & _). eauto.
Qed.

Lemma query_eq_exact_witness :
  exists res s',
    query [("year", PInt 2025); ("note", PStr "x")] None 0%float mixed_years = Ok res s'
    /\ res ≡ₚ List.filter (eq_filters_match [("year", PInt 2025); ("note", PStr "x")])
                (data mixed_years).
Proof.
  apply (query_eq_exact mixed_years [("year", PInt 2025); ("note", PStr "x")] 0%float
           mixed_years_reachable).
  reflexivity.
Defined.

Lemma single_filter (s : Store40D) (k op : string) (i : nat) (v : pyval) :
  list_index k DIMENSION_NAMES = Some i ->
  query_results s [(k, v)] (Some [(k, op)])
  = match filter_indices s i op v with
    | inl e => inl e
    | inr hits => retrieve (data s) (elements hits)
    end.
Proof.
  intros Hi. unfold query_results. cbn [candidates]. rewrite Hi.
  assert (operator_for (Some [(k, op)]) k = op) as ->.
  { unfold operator_for. simpl. by rewrite String.eqb_refl. }
  by destruct (filter_indices s i op v).
Qed.

Lemma elem_of_postings (ix : gmap string (list nat)) (i : nat) (vs : list pyval)
    (acc : gset nat) (n : nat) :
  n ∈ fold_left (fun acc v => acc ∪ posting ix (index_key i v)) vs acc
  <-> n ∈ acc \/ exists v, v ∈ vs /\ n ∈ posting ix (index_key i v).
Proof.
  revert acc. induction vs as [|v vs IH]; intros acc; simpl.
  - split; [by left|]. intros [H|(v & H%elem_of_nil & _)]; done.
  - rewrite IH, elem_of_union. split.
    + intros [[H|H]|(w & Hw & H)]; [by left|right..].
      * exists v. split; [by left|done].
      * exists w. split; [by right|done].
    + intros [H|(w & [->|Hw]%elem_of_cons & H)]; [by left; left|by left; right|].
      right. by exists w.
Qed.

(** X2: the [in] query: [query] iterates over the filter value and
    returns exactly the stored points whose value in the dimension is not
    null and prints like one of the items; a value that cannot be iterated
    over raises [TypeError] and leaves the store as it was. *)
Theorem query_in_exact (s : Store40D) (k : string) (value : pyval) (qt : float) :
  store_reachable s ->
  k ∈ DIMENSION_NAMES ->
  match py_iter value with
  | Some vs =>
      exists res s',
        query [(k, value)] (Some [(k, "in")]) qt s = Ok res s'
        /\ res ≡ₚ List.filter (fun p => existsb (fun v => eq_match k v p) vs) (data s)
  | None => query [(k, value)] (Some [(k, "in")]) qt s = Raise TypeError s
  end.
Proof.
  intros [Hwf Hex]%store_reachable_wf Hk.
  destruct (list_index_elem_of k DIMENSION_NAMES Hk) as [i Hi].
  pose proof (single_filter s k "in" i value Hi) as Hq.
  unfold filter_indices in Hq. cbn [String.eqb Ascii.eqb Bool.eqb] in Hq.
  destruct (py_iter value) as [vs|].
  - destruct (retrieve_hits (data s)
                (fold_left (fun acc v => acc ∪ posting (index s) (index_key i v)) vs ∅)
                (fun p => existsb (fun v => eq_match k v p) vs)) as (res & Hr & Hp).
    { intros n. rewrite elem_of_postings. split.
      - intros [H|(v & Hv & H)]; [set_solver|].
        apply (posting_eq_match s k i v n Hwf Hex Hi) in H as (p & Hp & Hm).
        exists p. split; [done|]. apply existsb_exists. exists v.
        split; [by apply list_elem_of_In|done].
      - intros (p & Hp & Hm). apply existsb_exists in Hm as (v & Hv & Hm).
        right. exists v. split; [by apply list_elem_of_In|].
        apply (posting_eq_match s k i v n Hwf Hex Hi). by exists p. }
    rewrite Hr in Hq. destruct (query_unfold _ _ qt _ _ Hq) as (s' & Hq' & _). eauto.
  - unfold query. by rewrite Hq.
Qed.

Lemma query_in_exact_witness :
  exists res s',
    query [("brand", PStr "ac")] (Some [("brand", "in")]) 0%float three_scores = Ok res s'
    /\ res ≡ₚ List.filter
                (fun p => existsb (fun v => eq_match "brand" v p) [PStr "a"; PStr "c"])
                (data three_scores).
Proof.
  apply (query_in_exact three_scores "brand" (PStr "ac") 0%float three_scores_reachable).
  repeat constructor.
Defined.

(** *** Range queries, operators and names [query] does not know *)

Lemma comparable_with_forallb (k : string) (t : pyval) (s : Store40D) :
  comparable_with k t s = forallb (comparable_point k t) (data s).
Proof. reflexivity. Qed.

Lemma range_test_cases (op : string) (c t : pyval) :
  op ∈ range_operators ->
  range_test op c t
  = Some (match py_order c t with
          | Some o => Some (order_passes op o)
          | None => None
          end).
Proof.
  unfold range_operators. rewrite !elem_of_cons.
  intros [->|[->|[->|[->|H%elem_of_nil]]]]; [..|done];
    unfold range_test, py_gt, py_lt, py_ge, py_le; simpl;
    by destruct (py_order c t) as [[]|].
Qed.

Lemma range_scan_step (op k : string) (i : nat) (t : pyval) (p : Point)
    (pts : list Point) (j : nat) (acc : gset nat) :
  op ∈ range_operators ->
  DIMENSION_NAMES !! i = Some k ->
  coordinates p = _extract_coordinates (point_data p) ->
  range_scan op i t j (p :: pts) acc
  = if comparable_point k t p
    then range_scan op i t (S j) pts (if range_match op k t p then {[ j ]} ∪ acc else acc)
    else inl TypeError.
Proof.
  intros Hop Hdim Hc. cbn [range_scan]. rewrite Hc, (extract_lookup _ i k Hdim).
  unfold comparable_point, range_match.
  destruct (dict_get k (point_data p)) as [c|]; [|done].
  rewrite (range_test_cases op c t Hop).
  destruct c; try done; by destruct (py_order _ t) as [o|]; [destruct (order_passes op o)|].
Qed.

Lemma range_scan_spec (op k : string) (i : nat) (t : pyval) (pts : list Point)
    (j : nat) (acc : gset nat) :
  op ∈ range_operators ->
  DIMENSION_NAMES !! i = Some k ->
  (forall p, p ∈ pts -> coordinates p = _extract_coordinates (point_data p)) ->
  range_scan op i t j pts acc
  = if forallb (comparable_point k t) pts
    then inr (acc ∪ list_to_set (match_positions (range_match op k t) j pts))
    else inl TypeError.
Proof.
  intros Hop Hdim. revert j acc.
  induction pts as [|p pts IH]; intros j acc Hc.
  - simpl. f_equal. set_solver.
  - rewrite (range_scan_step op k); [|done|done|apply Hc; by left].
    cbn [forallb]. destruct (comparable_point k t p); [|done]. cbn [andb].
    rewrite IH; [|intros q Hq; apply Hc; by right].
    destruct (forallb (comparable_point k t) pts); [|done].
    f_equal. cbn [match_positions]. destruct (range_match op k t p); set_solver.
Qed.

Lemma range_not_eq (op : string) :
  op ∈ range_operators -> String.eqb op "==" = false /\ String.eqb op "in" = false.
Proof.
  unfold range_operators. rewrite !elem_of_cons.
  by intros [->|[->|[->|[->|H%elem_of_nil]]]].
Qed.

(** X3: the range queries: with one of the four range operators, when
    every value the store holds in the dimension can be ordered against
    the threshold, [query] returns exactly the stored points whose value
    there is not null and stands to the threshold as the operator asks;
    when some value cannot be ordered against it, [query] raises
    [TypeError] and leaves the store as it was. *)
Theorem query_range_exact (s : Store40D) (k op : string) (t : pyval) (qt : float) :
  store_reachable s ->
  k ∈ DIMENSION_NAMES ->
  op ∈ range_operators ->
  if comparable_with k t s
  then exists res s',
         query [(k, t)] (Some [(k, op)]) qt s = Ok res s'
         /\ res ≡ₚ List.filter (range_match op k t) (data s)
  else query [(k, t)] (Some [(k, op)]) qt s = Raise TypeError s.
Proof.
  intros [Hwf Hex]%store_reachable_wf Hk Hop.
  destruct (list_index_elem_of k DIMENSION_NAMES Hk) as [i Hi].
  pose proof (list_index_lookup _ _ _ Hi) as Hdim.
  pose proof (single_filter s k op i t Hi) as Hq.
  unfold filter_indices in Hq. destruct (range_not_eq op Hop) as [E1 E2].
  rewrite E1, E2, (range_scan_spec op k) in Hq; [|done|done|apply (wf_coords s Hwf)].
  rewrite comparable_with_forallb.
  destruct (forallb (comparable_point k t) (data s)).
  - destruct (retrieve_hits (data s)
                (∅ ∪ list_to_set (match_positions (range_match op k t) 0 (data s)))
                (range_match op k t)) as (res & Hr & Hp).
    { intros n. rewrite elem_of_union, elem_of_list_to_set.
      rewrite (elem_of_match_positions _ [] (data s) n). simpl.
      split; [intros [H|(p & Hp & _ & Hm)]; [set_solver|by exists p]|].
      intros (p & Hp & Hm). right. exists p. split; [done|]. split; [lia|done]. }
    rewrite Hr in Hq. destruct (query_unfold _ _ qt _ _ Hq) as (s' & Hq' & _). eauto.
  - unfold query. by rewrite Hq.
Qed.

Lemma query_range_exact_witness :
  exists res s',
    query [("quality_score", PFloat 0x1p-1%float)] (Some [("quality_score", "<")])
          0%float three_scores = Ok res s'
    /\ res ≡ₚ List.filter (range_match "<" "quality_score" (PFloat 0x1p-1%float))
                (data three_scores).
Proof.
  apply (query_range_exact three_scores "quality_score" "<" (PFloat 0x1p-1%float)
           0%float three_scores_reachable); repeat constructor.
Defined.

Lemma range_test_unknown (op : string) (c t : pyval) :
  op ∉ known_operators -> range_test op c t = None.
Proof.
  unfold known_operators, range_operators. rewrite !not_elem_of_cons.
  intros (_ & _ & H1 & H2 & H3 & H4 & _). unfold range_test.
  destruct (String.eqb_spec op ">"); [done|].
  destruct (String.eqb_spec op "<"); [done|].
  destruct (String.eqb_spec op ">="); [done|].
  by destruct (String.eqb_spec op "<=").
Qed.

Lemma range_scan_unknown (op : string) (i : nat) (t : pyval) (pts : list Point)
    (j : nat) (acc : gset nat) :
  op ∉ known_operators ->
  (forall p, p ∈ pts -> is_Some (coordinates p !! i)) ->
  range_scan op i t j pts acc = inr acc.
Proof.
  intros Hop. revert j.
  induction pts as [|p pts IH]; intros j Hc; [done|].
  cbn [range_scan]. destruct (Hc p) as [c ->]; [by left|].
  rewrite (range_test_unknown op c t Hop).
  destruct c; apply IH; intros q Hq; apply Hc; by right.
Qed.

(** X4: an operator [query] does not know selects nothing: the scan tests
    no point, so the result is empty and nothing is raised, whatever the
    store holds. *)
Theorem query_unknown_operator (s : Store40D) (k op : string) (t : pyval) (qt : float) :
  store_reachable s ->
  k ∈ DIMENSION_NAMES ->
  op ∉ known_operators ->
  exists s', query [(k, t)] (Some [(k, op)]) qt s = Ok [] s' /\ data s' = data s.
Proof.
  intros [Hwf Hex]%store_reachable_wf Hk Hop.
  destruct (list_index_elem_of k DIMENSION_NAMES Hk) as [i Hi].
  pose proof (single_filter s k op i t Hi) as Hq.
  unfold filter_indices in Hq.
  assert (String.eqb op "==" = false /\ String.eqb op "in" = false) as [E1 E2].
  { unfold known_operators in Hop. rewrite !not_elem_of_cons in Hop.
    destruct Hop as (H1 & H2 & _). split; by apply String.eqb_neq. }
  rewrite E1, E2, range_scan_unknown in Hq; [|done|].
  - rewrite elements_empty in Hq. cbn [retrieve] in Hq.
    destruct (query_unfold _ _ qt _ _ Hq) as (s' & Hq' & Hd & _). eauto.
  - intros p Hp. rewrite (wf_coords s Hwf p Hp).
    apply lookup_lt_is_Some_2. rewrite extract_length.
    apply list_index_lt in Hi. exact Hi.
Qed.

Lemma query_unknown_operator_witness :
  exists s', query [("quality_score", PStr "high")] (Some [("quality_score", "!=")])
                   0%float three_scores = Ok [] s'
             /\ data s' = data three_scores.
Proof.
  apply (query_unknown_operator three_scores "quality_score" "!=" (PStr "high")
           0%float three_scores_reachable); [repeat constructor|].
  unfold known_operators, range_operators. rewrite !not_elem_of_cons.
  repeat (split; [discriminate|]). apply not_elem_of_nil.
Defined.

Lemma candidates_off_schema (s : Store40D) (operators : option (list (string * string)))
    (filters : pydict) (cand : option (gset nat)) :
  existsb on_schema filters = false ->
  candidates s operators filters cand = inr cand.
Proof.
  induction filters as [|[k v] filters IH]; [done|].
  cbn [existsb candidates]. rewrite on_schema_index.
  destruct (list_index k DIMENSION_NAMES); [done|]. exact IH.
Qed.

(** X5: filters on names outside the schema are skipped: a query all of
    whose filters are such returns the empty list, whatever the values,
    the operators and the store, and never the whole store. *)
Theorem query_off_schema (s : Store40D) (filters : pydict)
    (operators : option (list (string * string))) (qt : float) :
  existsb on_schema filters = false ->
  exists s', query filters operators qt s = Ok [] s' /\ data s' = data s.
Proof.
  intros H.
  destruct (query_unfold filters operators qt s []) as (s' & Hq & Hd & _); [|eauto].
  unfold query_results. by rewrite candidates_off_schema.
Qed.

Lemma query_off_schema_witness :
  exists s', query [("colour", PStr "red"); ("size", PInt 3)] (Some [("size", ">")])
                   0%float three_scores = Ok [] s'
             /\ data s' = data three_scores.
Proof.
  apply (query_off_schema three_scores [("colour", PStr "red"); ("size", PInt 3)]
           (Some [("size", ">")]) 0%float).
  reflexivity.
Defined.

(** The three ways a call of [store] on serializable content ends. *)
Lemma store_cases (now : string) (breath : Z) (d : pydict) (s : Store40D) (g : string) :
  _compute_genome d = Some g ->
  exists s1,
    ((dict_get "value" d = None
      /\ store now breath d s = Ok g s1
      /\ care_pool s1 = care_pool s
      /\ care_redistributed (stats s1) = care_redistributed (stats s)
      /\ total_stored (stats s1) = S (total_stored (stats s)))
     \/ (exists v c,
           dict_get "value" d = Some v
           /\ py_mul_float v (care_mandate s) = inr c
           /\ store now breath d s = Ok g s1
           /\ care_pool s1 = (care_pool s + c)%float
           /\ care_redistributed (stats s1)
              = (care_redistributed (stats s) + c)%float
           /\ total_stored (stats s1) = S (total_stored (stats s)))
     \/ (exists v e,
           dict_get "value" d = Some v
           /\ py_mul_float v (care_mandate s) = inl e
           /\ store now breath d s = Raise e s1
           /\ care_pool s1 = care_pool s
           /\ stats s1 = stats s))
    /\ data s1 = data s ++ [point_of now breath g d]
    /\ index s1 = update_indices 0 (_extract_coordinates d) (length (data s)) (index s)
    /\ care_mandate s1 = care_mandate s.
Proof.
  intros Hg. unfold store. rewrite Hg.
  replace (length (data s ++ [_]) - 1)%nat with (length (data s))
    by (rewrite length_app; simpl; lia).
  destruct (dict_get "value" d) as [v|].
  - destruct (py_mul_float v (care_mandate s)) as [e|c] eqn:E.
    + eexists. split; [right; right; exists v, e|].
      * split; [reflexivity|]. split; [exact E|].
        repeat (split; [reflexivity|]). reflexivity.
      * repeat (split; [reflexivity|]). reflexivity.
    + eexists. split; [right; left; exists v, c|].
      * split; [reflexivity|]. split; [exact E|].
        repeat (split; [reflexivity|]). reflexivity.
      * repeat (split; [reflexivity|]). reflexivity.
  - eexists. split; [left|].
    + repeat (split; [reflexivity|]). reflexivity.
    + repeat (split; [reflexivity|]). reflexivity.
Qed.

(** X6: [store] does not deduplicate: a record stored a second time gets
    the same hash and a second point of its own, and is counted again. *)
Theorem store_twice (s s1 : Store40D) (d : pydict) (now1 now2 : string)
    (b1 b2 : Z) (g : string) :
  store now1 b1 d s = Ok g s1 ->
  exists s2,
    store now2 b2 d s1 = Ok g s2
    /\ data s2 = data s ++ [point_of now1 b1 g d; point_of now2 b2 g d]
    /\ total_stored (stats s2) = (total_stored (stats s) + 2)%nat.
Proof.
  intros H. pose proof (store_Ok_inv _ _ _ _ _ _ H) as (Hg & _).
  destruct (store_cases now1 b1 d s g Hg) as (s1' & Hc & Hd & _ & Hm).
  assert (s1' = s1 /\ total_stored (stats s1') = S (total_stored (stats s))
          /\ forall v, dict_get "value" d = Some v ->
                exists c, py_mul_float v (care_mandate s) = inr c) as (-> & Ht & Hv).
  { destruct Hc as [(Hn & E & _ & _ & Ht)|[(v & c & Hv & Hc & E & _ & _ & Ht)
                                           |(v & e & _ & _ & E & _)]];
      rewrite E in H; [| |discriminate H]; injection H as ->;
      (split; [reflexivity|]); (split; [exact Ht|]); intros w Hw.
    - rewrite Hn in Hw. discriminate Hw.
    - rewrite Hv in Hw. injection Hw as <-. by exists c. }
  destruct (store_cases now2 b2 d s1 g Hg) as (s2 & Hc2 & Hd2 & _ & _).
  exists s2.
  assert (store now2 b2 d s1 = Ok g s2
          /\ total_stored (stats s2) = S (total_stored (stats s1))) as [E2 Ht2].
  { destruct Hc2 as [(_ & E & _ & _ & Ht2)|[(v & c & _ & _ & E & _ & _ & Ht2)
                                            |(v & e & Hv2 & He & _)]]; [done..|].
    destruct (Hv v Hv2) as [c Hc']. rewrite Hm, Hc' in He. discriminate He. }
  split; [exact E2|]. split; [by rewrite Hd2, Hd, <- app_assoc|lia].
Qed.

Lemma store_twice_witness :
  exists s2,
    store "t2" 1 [("sector", PStr "quantum_ai"); ("value", PInt 1000)]
      (state_of (store "t1" 0 [("sector", PStr "quantum_ai"); ("value", PInt 1000)]
                   (init CARE_15)))
    = Ok "25c60b359ba1d6796a41814145aa4ee7b8b1165f2802e722b5380ffbf52ab193" s2
    /\ data s2
       = data (init CARE_15)
         ++ [point_of "t1" 0
               "25c60b359ba1d6796a41814145aa4ee7b8b1165f2802e722b5380ffbf52ab193"
               [("sector", PStr "quantum_ai"); ("value", PInt 1000)];
             point_of "t2" 1
               "25c60b359ba1d6796a41814145aa4ee7b8b1165f2802e722b5380ffbf52ab193"
               [("sector", PStr "quantum_ai"); ("value", PInt 1000)]]
    /\ total_stored (stats s2) = (total_stored (stats (init CARE_15)) + 2)%nat.
Proof.
  apply (store_twice (init CARE_15) _ _ "t1" "t2" 0 1).
  vm_compute. reflexivity.
Defined.

Lemma store_step_sound (o : store_op) (s : Store40D) :
  points_sound s -> counters_ok s ->
  points_sound (store_step o s) /\ counters_ok (store_step o s).
Proof.
  intros Hs [Hc1 Hc2]. destruct o as [now breath d|filters operators qt]; cbn [store_step].
  - destruct (_compute_genome d) as [g|] eqn:Hg; [|unfold store; by rewrite Hg].
    destruct (store_cases now breath d s g Hg) as (s1 & Hc & Hd & _ & _).
    assert (state_of (store now breath d s) = s1
            /\ care_pool s1 = care_redistributed (stats s1)
            /\ (total_stored (stats s1) <= S (total_stored (stats s)))%nat)
      as (-> & Hp & Ht).
    { destruct Hc as [(_ & -> & -> & -> & ->)|[(v & c & _ & _ & -> & -> & -> & ->)
                                              |(v & e & _ & _ & -> & -> & ->)]];
        cbn [state_of]; rewrite ?Hc1; (split; [reflexivity|]);
        (split; [reflexivity|lia]). }
    split; [|split; [exact Hp|rewrite Hd, length_app; simpl; lia]].
    intros p. rewrite Hd.
    intros [Hp'| ->%list_elem_of_singleton]%elem_of_app; [by apply Hs|exact Hg].
  - unfold query. by destruct (query_results s filters operators).
Qed.

Lemma store_reachable_sound (s : Store40D) :
  store_reachable s -> points_sound s /\ counters_ok s.
Proof.
  intros (mandate & ops & ->). unfold store_run.
  assert (forall s0, points_sound s0 /\ counters_ok s0 ->
            points_sound (fold_left (fun s o => store_step o s) ops s0)
            /\ counters_ok (fold_left (fun s o => store_step o s) ops s0)) as H.
  { induction ops as [|o ops IH]; intros s0 [H1 H2]; [done|].
    simpl. by apply IH, store_step_sound. }
  apply H. split; [by intros p ?%elem_of_nil|]. split; [done|simpl; lia].
Qed.

(** X7: what every stored point carries: the hash of its record and the
    forty coordinates of the record, in the order of the schema, null
    where the record has no value. *)
Theorem stored_points_sound (s : Store40D) :
  store_reachable s ->
  Forall (fun p =>
            _compute_genome (point_data p) = Some (genome p)
            /\ length (coordinates p) = 40%nat
            /\ forall i k, DIMENSION_NAMES !! i = Some k ->
                 coordinates p !! i
                 = Some (match dict_get k (point_data p) with
                         | Some v => v
                         | None => PNone
                         end))
         (data s).
Proof.
  intros Hr. destruct (store_reachable_wf s Hr) as [Hwf _].
  destruct (store_reachable_sound s Hr) as [Hs _].
  apply Forall_forall. intros p Hp.
  split; [by apply Hs|]. rewrite (wf_coords s Hwf p Hp).
  split; [apply extract_length|]. intros i k. apply extract_lookup.
Qed.

Lemma stored_points_sound_witness :
  Forall (fun p =>
            _compute_genome (point_data p) = Some (genome p)
            /\ length (coordinates p) = 40%nat
            /\ forall i k, DIMENSION_NAMES !! i = Some k ->
                 coordinates p !! i
                 = Some (match dict_get k (point_data p) with
                         | Some v => v
                         | None => PNone
                         end))
         (data three_scores).
Proof. apply (stored_points_sound three_scores three_scores_reachable). Defined.

(** X8: the two totals kept of the redistribution, the pool and
    the counter [care_redistributed], are always equal, and
    [total_stored] never exceeds the number of points held: a [store]
    that raises on the [value] field has appended its point and is not
    counted. *)
Theorem store_counters (s : Store40D) :
  store_reachable s ->
  care_pool s = care_redistributed (stats s)
  /\ (total_stored (stats s) <= length (data s))%nat.
Proof. intros Hr. by destruct (store_reachable_sound s Hr) as [_ H]. Qed.

Lemma store_counters_witness :
  care_pool mixed_years = care_redistributed (stats mixed_years)
  /\ (total_stored (stats mixed_years) <= length (data mixed_years))%nat.
Proof. apply (store_counters mixed_years mixed_years_reachable). Defined.

Lemma store_step_grows (o : store_op) (s : Store40D) :
  (exists added, data (store_step o s) = data s ++ added)
  /\ (forall key n, n ∈ posting_list (index s) key ->
                    n ∈ posting_list (index (store_step o s)) key)
  /\ care_mandate (store_step o s) = care_mandate s.
Proof.
  destruct o as [now breath d|filters operators qt]; cbn [store_step].
  - destruct (_compute_genome d) as [g|] eqn:Hg.
    + destruct (store_outcome now breath d s g Hg) as (s1 & HE & Hd & Hi & Hm).
      assert (state_of (store now breath d s) = s1) as ->
        by (by destruct HE as [->|[e ->]]).
      split; [by eexists|]. split; [|done]. intros key n Hn. rewrite Hi.
      by apply update_indices_mono.
    + unfold store. rewrite Hg. cbn [state_of].
      split; [exists []; by rewrite app_nil_r|done].
  - unfold query. destruct (query_results s filters operators); cbn [state_of];
      (split; [exists []; by rewrite app_nil_r|done]).
Qed.

(** X9: the store only grows: no sequence of [store] and [query] calls,
    whether they return or raise, removes or rewrites a stored point,
    takes a position out of a posting list, or changes the mandate. *)
Theorem store_append_only (ops : list store_op) (s : Store40D) :
  (exists added, data (store_run ops s) = data s ++ added)
  /\ (forall key n, n ∈ posting_list (index s) key ->
                    n ∈ posting_list (index (store_run ops s)) key)
  /\ care_mandate (store_run ops s) = care_mandate s.
Proof.
  revert s. induction ops as [|o ops IH]; intros s.
  - split; [exists []; by rewrite app_nil_r|done].
  - cbn [store_run fold_left].
    destruct (store_step_grows o s) as ([a1 H1] & H2 & H3).
    destruct (IH (store_step o s)) as ([a2 I1] & I2 & I3).
    split; [exists (a1 ++ a2); unfold store_run in I1; by rewrite I1, H1, app_assoc|].
    split; [intros key n Hn; by apply I2, H2|].
    unfold store_run in I3. by rewrite I3.
Qed.

(** X10: the genome does not depend on the order of the keys: two
    dictionaries with the same items, none under a key twice, get the same
    hash, in the store and in the memory system alike. *)
Theorem genome_key_order (d d' : pydict) :
  NoDup (map fst d) ->
  d ≡ₚ d' ->
  _compute_genome d = _compute_genome d'
  /\ ElephantMemory._compute_genome d = ElephantMemory._compute_genome d'.
Proof.
  intros Hnd Hp.
  assert (json_dumps (PDict d) = json_dumps (PDict d')) as H.
  { rewrite !PyFacts.json_dumps_dict.
    destruct (dict_parts d) as [parts|] eqn:E.
    - destruct (PyFacts.dict_parts_perm d d' parts Hp E) as (parts' & -> & Hpp).
      rewrite (PyFacts.sort_items_unique parts parts'); [done| |done].
      by rewrite (PyFacts.dict_parts_keys d parts E).
    - destruct (dict_parts d') as [parts'|] eqn:E'; [|done].
      symmetry in Hp.
      destruct (PyFacts.dict_parts_perm d' d parts' Hp E') as (parts & E2 & _).
      congruence. }
  unfold _compute_genome, ElephantMemory._compute_genome. by rewrite H.
Qed.

Lemma genome_key_order_witness :
  _compute_genome [("a", PInt 1); ("b", PInt 2)]
  = _compute_genome [("b", PInt 2); ("a", PInt 1)]
  /\ ElephantMemory._compute_genome [("a", PInt 1); ("b", PInt 2)]
     = ElephantMemory._compute_genome [("b", PInt 2); ("a", PInt 1)].
Proof.
  apply (genome_key_order [("a", PInt 1); ("b", PInt 2)] [("b", PInt 2); ("a", PInt 1)]).
  - apply NoDup_ListNoDup. repeat constructor; simpl; intuition discriminate.
  - apply perm_swap.
Defined.

(** *** [import_json] *)

Lemma import_points_spec (clock : nat -> string * Z) (points : list pyval)
    (i : nat) (s s' : Store40D) :
  store_wf s -> index_exact s -> points_sound s ->
  import_points clock i points s = Imported s' ->
  store_wf s' /\ index_exact s' /\ points_sound s'
  /\ Some <$> (point_data <$> data s')
     = (Some <$> (point_data <$> data s)) ++ (point_record <$> points)
  /\ total_stored (stats s') = (total_stored (stats s) + length points)%nat
  /\ care_mandate s' = care_mandate s.
Proof.
  revert i s. induction points as [|point points IH]; intros i s Hwf Hex Hs.
  - simpl. intros [= <-]. rewrite app_nil_r, Nat.add_0_r. done.
  - cbn [import_points]. destruct point as [| | | | | | |pd]; try done.
    destruct (dict_get "genome" pd) as [gfile|] eqn:Hgf; [|done].
    destruct (dict_get "data" pd) as [[| | | | | | |d]|] eqn:Hd; try done;
      try (by destruct (json_dumps _)).
    destruct (store (fst (clock i)) (snd (clock i)) d s) as [g s1|e s1] eqn:E; [|done].
    intros H.
    pose proof (store_Ok_inv _ _ _ _ _ _ E) as (Hg & Hd1 & Hi1 & Hm1).
    destruct (store_cases (fst (clock i)) (snd (clock i)) d s g Hg)
      as (s1' & Hc & _).
    assert (total_stored (stats s1) = S (total_stored (stats s))) as Ht.
    { destruct Hc as [(_ & E' & _ & _ & Ht)|[(v & c & _ & _ & E' & _ & _ & Ht)
                                            |(v & e & _ & _ & E' & _)]].
      - rewrite E' in E. injection E as <-. exact Ht.
      - rewrite E' in E. injection E as <-. exact Ht.
      - rewrite E' in E. discriminate E. }
    pose proof (store_wf_step _ _ _ _ _ _ Hwf Hd1 Hi1) as W1.
    pose proof (store_exact_step _ _ _ _ _ _ Hwf Hex Hd1 Hi1) as X1.
    assert (points_sound s1) as S1.
    { intros p. rewrite Hd1.
      intros [Hp| ->%list_elem_of_singleton]%elem_of_app; [by apply Hs|exact Hg]. }
    destruct (IH (S i) s1 W1 X1 S1 H) as (W & X & S' & D & T & M).
    split; [exact W|]. split; [exact X|]. split; [exact S'|].
    split; [|split; [rewrite T, Ht; simpl; lia|by rewrite M]].
    rewrite D, Hd1, !fmap_app, <- app_assoc. f_equal. simpl.
    unfold point_record. by rewrite Hd.
Qed.

(** X11: [import_json] is a replay: when it returns, the store holds, in
    the order of the document, one point per point of the document, with
    the record found there; every hash is computed afresh from the
    record and the index is rebuilt to match, whatever genome the document
    gave; the counter [total_stored] carries on from its value before the
    call instead of starting again. *)
Theorem import_json_replays (import_data : pyval) (clock : nat -> string * Z)
    (s s' : Store40D) :
  import_json import_data clock s = Imported s' ->
  exists doc points,
    import_data = PDict doc
    /\ py_iter (match dict_get "data" doc with Some v => v | None => PList [] end)
       = Some points
    /\ Some <$> (point_data <$> data s') = point_record <$> points
    /\ points_sound s'
    /\ store_wf s' /\ index_exact s'
    /\ total_stored (stats s') = (total_stored (stats s) + length points)%nat
    /\ care_mandate s' = care_mandate s.
Proof.
  unfold import_json. destruct import_data as [| | | | | | |doc]; try done.
  destruct (py_iter _) as [points|] eqn:Hit; [|done]. intros H.
  apply import_points_spec in H as (W & X & S' & D & T & M).
  - exists doc, points. repeat (split; [done|]). done.
  - split; cbn [data index].
    + intros key l i. by rewrite lookup_empty.
    + by intros p ?%elem_of_nil.
  - intros key n. unfold posting_list. cbn [data index]. rewrite lookup_empty. simpl.
    split; [by intros ?%elem_of_nil|]. by intros (p & i & c & Hp & _).
  - by intros p ?%elem_of_nil.
Qed.

Lemma import_json_replays_witness :
  exists s',
    import_json two_points (fun i => ("now", Z.of_nat i)) mixed_years = Imported s'
    /\ exists doc points,
         two_points = PDict doc
         /\ py_iter (match dict_get "data" doc with Some v => v | None => PList [] end)
            = Some points
         /\ Some <$> (point_data <$> data s') = point_record <$> points
         /\ points_sound s'
         /\ store_wf s' /\ index_exact s'
         /\ total_stored (stats s')
            = (total_stored (stats mixed_years) + length points)%nat
         /\ care_mandate s' = care_mandate mixed_years.
Proof.
  eexists. split; [vm_compute; reflexivity|].
  apply (import_json_replays two_points (fun i => ("now", Z.of_nat i)) mixed_years).
  vm_compute. reflexivity.
Defined.

End StoreFacts.

(** ** Properties of [ElephantMemory] *)

Module ElephantFacts.
Import Py ElephantMemory.
#[local] Open Scope nat_scope.

Lemma filter_ext_elem {A : Type} (P1 P2 : A -> Prop)
    `{!forall x, Decision (P1 x), !forall x, Decision (P2 x)} (l : list A) :
  (forall x, x ∈ l -> P1 x <-> P2 x) -> filter P1 l = filter P2 l.
Proof.
  induction l as [|a l IH]; intros Hext; [done|].
  rewrite !filter_cons, IH by (intros x Hx; apply Hext; by right).
  destruct (decide (P1 a)) as [Y|N], (decide (P2 a)) as [Y'|N']; try done.
  - destruct N'. apply Hext; [by left|done].
  - destruct N. apply Hext; [by left|done].
Qed.

Lemma filter_all {A : Type} (P : A -> Prop) `{!forall x, Decision (P x)} (l : list A) :
  (forall x, x ∈ l -> P x) -> filter P l = l.
Proof.
  induction l as [|a l IH]; intros Hall; [done|].
  rewrite filter_cons_True by (apply Hall; by left).
  f_equal. apply IH. intros x Hx. apply Hall. by right.
Qed.

(** *** The scan of a page *)

Lemma scan_page_pure (body : Memory -> Memory * bool) (onp : Stats -> Stats)
    (refs : list loc) (s : ElephantMemory) :
  scan_page body onp refs s
  = (with_stats (with_heap s (fst (scan_heap body refs (heap s))))
       (Nat.iter (length (snd (scan_heap body refs (heap s)))) onp (stats s)),
     snd (scan_heap body refs (heap s))).
Proof.
  revert s. induction refs as [|r refs IH]; intros s.
  - by destruct s.
  - cbn [scan_page scan_heap]. destruct (heap s !! r) as [m|] eqn:E; [|apply IH].
    destruct (body m) as [m' b] eqn:Eb. cbn [fst snd].
    rewrite IH. destruct b; cbn [heap with_heap with_stats stats];
      destruct (scan_heap body refs (<[r:=m']> (heap s))) as [h' moved];
      cbn [fst snd length]; [|done].
    by rewrite Nat.iter_succ_r.
Qed.

Lemma promoted_insert_ne (body : Memory -> Memory * bool) (h : list Memory)
    (r x : loc) (m : Memory) :
  x <> r -> promoted body (<[r:=m]> h) x = promoted body h x.
Proof. intros H. unfold promoted. by rewrite list_lookup_insert_ne. Qed.

Lemma scan_heap_spec (body : Memory -> Memory * bool) (refs : list loc)
    (h : list Memory) :
  NoDup refs ->
  length (fst (scan_heap body refs h)) = length h
  /\ (forall l, fst (scan_heap body refs h) !! l
                = if bool_decide (l ∈ refs)
                  then (fun m => fst (body m)) <$> h !! l else h !! l)
  /\ snd (scan_heap body refs h) = filter (fun r => promoted body h r) refs.
Proof.
  revert h. induction refs as [|r refs IH]; intros h Hnd.
  - done.
  - apply NoDup_cons in Hnd as [Hr Hnd]. cbn [scan_heap].
    assert (forall m', filter (fun x => promoted body (<[r:=m']> h) x) refs
                       = filter (fun x => promoted body h x) refs) as Hfil.
    { intros m'. apply filter_ext_elem; intros x Hx.
      rewrite promoted_insert_ne; [done|]. by intros ->. }
    destruct (h !! r) as [m|] eqn:E.
    + destruct (IH (<[r:=fst (body m)]> h) Hnd) as (Hlen & Hlk & Hmv).
      destruct (scan_heap body refs (<[r:=fst (body m)]> h)) as [h' moved].
      cbn [fst snd] in *. split; [by rewrite Hlen, length_insert|]. split.
      * intros l. rewrite Hlk. destruct (decide (l = r)) as [->|Hne].
        -- rewrite (bool_decide_eq_false_2 _ Hr), bool_decide_eq_true_2 by (by left).
           rewrite list_lookup_insert_eq by (by eapply lookup_lt_Some). by rewrite E.
        -- rewrite list_lookup_insert_ne by done.
           destruct (decide (l ∈ refs)).
           ++ by rewrite !bool_decide_eq_true_2 by (by try right).
           ++ rewrite !bool_decide_eq_false_2; [done| |done].
              by intros [?|?]%elem_of_cons.
      * assert (promoted body h r = snd (body m)) as Hp
          by (unfold promoted; by rewrite E).
        rewrite filter_cons, Hp, Hmv, Hfil. by destruct (snd (body m)).
    + destruct (IH h Hnd) as (Hlen & Hlk & Hmv). split; [done|]. split.
      * intros l. rewrite Hlk. destruct (decide (l = r)) as [->|Hne].
        -- rewrite (bool_decide_eq_false_2 _ Hr), bool_decide_eq_true_2 by (by left).
           by rewrite E.
        -- destruct (decide (l ∈ refs)).
           ++ by rewrite !bool_decide_eq_true_2 by (by try right).
           ++ rewrite !bool_decide_eq_false_2; [done| |done].
              by intros [?|?]%elem_of_cons.
      * assert (promoted body h r = false) as Hp
          by (unfold promoted; by rewrite E).
        by rewrite filter_cons, Hp.
Qed.


(** *** Moving the promoted memories *)

Lemma list_remove_NoDup (test : loc -> bool) (l : list loc) (r : loc) :
  NoDup l -> r ∈ l ->
  (forall x, x ∈ l -> test x = true <-> x = r) ->
  list_remove test l = Some (filter (fun x => x <> r) l).
Proof.
  induction l as [|x l IH]; intros Hnd Hr Ht; [by apply elem_of_nil in Hr|].
  apply NoDup_cons in Hnd as [Hx Hnd]. cbn [list_remove].
  destruct (test x) eqn:E.
  - apply Ht in E as ->; [|by left].
    rewrite filter_cons_False by (by intros []).
    f_equal. symmetry. apply filter_all. by intros y Hy ->.
  - assert (x <> r) as Hne by (intros ->; rewrite (proj2 (Ht r (list_elem_of_here _ _))) in E; done).
    rewrite IH, filter_cons_True; [done..| |].
    + apply elem_of_cons in Hr as [->|Hr]; done.
    + intros y Hy. apply Ht. by right.
Qed.

Lemma move_memories_spec (src dst : nat) (moved : list loc) (s : ElephantMemory) :
  src <> dst ->
  NoDup (pages s !!! src) ->
  NoDup moved ->
  (forall r, r ∈ moved -> r ∈ pages s !!! src) ->
  (forall r x, r ∈ moved -> x ∈ pages s !!! src ->
               same_memory (heap s) r x = true <-> x = r) ->
  exists pg',
    move_memories src dst moved s = Ok tt (with_pages s pg')
    /\ pg' !!! src = filter (fun x => x ∉ moved) (pages s !!! src)
    /\ pg' !!! dst = pages s !!! dst ++ moved
    /\ forall q, q <> src -> q <> dst -> pg' !!! q = pages s !!! q.
Proof.
  intros Hsd. revert s.
  induction moved as [|r moved IH]; intros s Hnd Hm Hsub Hsame.
  - exists (pages s). split; [by destruct s|]. split.
    + symmetry. apply filter_all. intros x _. apply not_elem_of_nil.
    + by rewrite app_nil_r.
  - apply NoDup_cons in Hm as [Hr Hm]. cbn [move_memories].
    rewrite (list_remove_NoDup _ _ r Hnd); [|apply Hsub; by left|].
    2:{ intros x Hx. apply Hsame; [by left|done]. }
    set (rest := filter (fun x => x <> r) (pages s !!! src)).
    set (pg1 := <[src:=rest]> (pages s)).
    set (s1 := with_pages s (<[dst:=pg1 !!! dst ++ [r]]> pg1)).
    assert (pages s1 !!! src = rest) as Hsrc1.
    { unfold s1, pg1. cbn [pages with_pages].
      by rewrite lookup_total_insert_ne, lookup_total_insert_eq. }
    assert (pages s1 !!! dst = pages s !!! dst ++ [r]) as Hdst1.
    { unfold s1, pg1. cbn [pages with_pages].
      by rewrite lookup_total_insert_eq, lookup_total_insert_ne. }
    destruct (IH s1) as (pg' & Hmv & Hs & Hd & Ho).
    + rewrite Hsrc1. by apply NoDup_filter.
    + done.
    + intros x Hx. rewrite Hsrc1. apply list_elem_of_filter. split.
      * by intros ->.
      * apply Hsub. by right.
    + intros x y Hx Hy. rewrite Hsrc1 in Hy.
      apply list_elem_of_filter in Hy as [_ Hy]. apply Hsame; [by right|done].
    + exists pg'. split; [exact Hmv|]. split; [|split].
      * rewrite Hs, Hsrc1. unfold rest. rewrite list_filter_filter.
        apply list_filter_iff. intros x. rewrite not_elem_of_cons. tauto.
      * by rewrite Hd, Hdst1, <- app_assoc.
      * intros q Hq1 Hq2. rewrite Ho by done. unfold s1, pg1.
        cbn [pages with_pages]. by rewrite !lookup_total_insert_ne.
Qed.

Lemma advance_pages_empty (body : Memory -> Memory * bool) (onp : Stats -> Stats)
    (dst : nat) (srcs : list nat) (n : nat) (s : ElephantMemory) :
  (forall q, q ∈ srcs -> pages s !!! q = []) ->
  advance_pages body onp dst srcs n s = Ok n s.
Proof.
  revert n. induction srcs as [|q srcs IH]; intros n Hq; [done|].
  cbn [advance_pages]. rewrite (Hq q) by (by left). cbn [scan_page move_memories].
  rewrite IH by (intros x Hx; apply Hq; by right).
  by rewrite Nat.add_0_r.
Qed.


(** *** Phases and their home pages *)

Lemma home_page_cases (ph : string) (p : nat) :
  home_page ph = Some p ->
  (ph = "INTAKE" /\ p = 1) \/ (ph = "TRUNK_SORT" /\ p = 9)
  \/ (ph = "HERD_CONSENSUS" /\ p = 17) \/ (ph = "MEMORY_ENCODE" /\ p = 25)
  \/ (ph = "GENERATIONAL_PASS" /\ p = 33) \/ (ph = "ECHO_AMPLIFY" /\ p = 41).
Proof.
  unfold home_page, phase_pages, PHASES. cbn [List.find fst snd].
  repeat match goal with
         | |- context [String.eqb ph ?x] =>
             destruct (String.eqb_spec ph x) as [->|?];
             [cbn; intros [= <-]; tauto|]
         end.
  done.
Qed.

Lemma home_page_inj (a b : string) (p : nat) :
  home_page a = Some p -> home_page b = Some p -> a = b.
Proof.
  intros Ha Hb. apply home_page_cases in Ha, Hb.
  destruct Ha as [[-> ->]|[[-> ->]|[[-> ->]|[[-> ->]|[[-> ->]|[-> ->]]]]]];
    destruct Hb as [[-> ?]|[[-> ?]|[[-> ?]|[[-> ?]|[[-> ?]|[-> ?]]]]]];
    done.
Qed.

Lemma Memory_eqb_genome (a b : Memory) :
  Memory_eqb a b = true -> genome a = genome b.
Proof.
  unfold Memory_eqb. intros H.
  do 8 (apply andb_prop in H as [H _]).
  apply andb_prop in H as [_ H]. by apply String.eqb_eq.
Qed.

Lemma wf_genome_inj (s : ElephantMemory) (l1 l2 : loc) (m1 m2 : Memory) :
  elephant_wf s ->
  heap s !! l1 = Some m1 -> heap s !! l2 = Some m2 ->
  genome m1 = genome m2 -> l1 = l2.
Proof.
  intros Hwf H1 H2 Hg.
  assert (genome_index s !! genome m1 = Some l1) as G1
    by (apply (wf_genome_index s Hwf); eauto).
  assert (genome_index s !! genome m1 = Some l2) as G2
    by (apply (wf_genome_index s Hwf); eauto).
  congruence.
Qed.

Lemma wf_page_of (s : ElephantMemory) (l : loc) (m : Memory) (p : nat) :
  elephant_wf s -> heap s !! l = Some m -> l ∈ pages s !!! p -> p = page m.
Proof.
  intros Hwf Hm Hin.
  destruct (wf_in_page s Hwf l p Hin) as (m' & Hm' & <-). congruence.
Qed.

Lemma wf_not_home_empty (s : ElephantMemory) (q : nat) :
  elephant_wf s -> (forall ph, home_page ph <> Some q) -> pages s !!! q = [].
Proof.
  intros Hwf Hq. destruct (pages s !!! q) as [|l rest] eqn:E; [done|].
  destruct (wf_in_page s Hwf l q) as (m & Hm & Hp); [rewrite E; by left|].
  destruct (wf_home s Hwf l m Hm) as [_ Hh]. rewrite Hp in Hh. by destruct (Hq _ Hh).
Qed.

Lemma length_filter_promoted (body : Memory -> Memory * bool) (pre h : list Memory) :
  length (filter (fun x => promoted body (pre ++ h) x) (seq (length pre) (length h)))
  = length (List.filter (fun m => snd (body m)) h).
Proof.
  revert pre. induction h as [|m h IH]; intros pre; [done|].
  specialize (IH (pre ++ [m])).
  rewrite length_app, Nat.add_1_r, <- app_assoc in IH.
  change ([m] ++ h) with (m :: h) in IH.
  cbn [length seq List.filter]. rewrite filter_cons.
  assert (promoted body (pre ++ m :: h) (length pre) = snd (body m)) as ->
    by (unfold promoted; by rewrite list_lookup_middle).
  destruct (snd (body m)); simpl; by rewrite IH.
Qed.

(** The state after a phase method, in a well-formed state: every
    memory went through the body once, the promoted ones moved from the
    home page of the source phase to page [dst]. *)
Lemma advance_wf (src dst_ph : string) (P dst : nat) (rest : list nat)
    (body : Memory -> Memory * bool) (onp : Stats -> Stats) (s : ElephantMemory) :
  elephant_wf s ->
  body_ok src dst_ph dst body ->
  home_page src = Some P ->
  home_page dst_ph = Some dst ->
  src <> dst_ph ->
  dst_ph <> "INTAKE" ->
  (forall q ph, q ∈ rest -> home_page ph <> Some q) ->
  exists pg',
    let n := length (List.filter (fun m => snd (body m)) (heap s)) in
    let s' := with_pages
                (with_stats (with_heap s ((fun m => fst (body m)) <$> heap s))
                            (Nat.iter n onp (stats s))) pg' in
    advance_pages body onp dst (P :: rest) 0 s = Ok n s'
    /\ elephant_wf s'.
Proof.
  intros Hwf Hb HP Hdst Hne Hni Hrest.
  assert (P <> dst) as HPd.
  { intros ->. apply Hne. by apply (home_page_inj _ _ dst). }
  pose proof (wf_nodup s Hwf P) as Hnd.
  destruct (scan_heap_spec body (pages s !!! P) (heap s) Hnd) as (Hlen & Hlk & Hmv).
  assert (fst (scan_heap body (pages s !!! P) (heap s))
          = (fun m => fst (body m)) <$> heap s) as Hheap.
  { apply list_eq. intros l. rewrite Hlk, list_lookup_fmap.
    case_bool_decide as Hin; [done|].
    destruct (heap s !! l) as [m|] eqn:Hm; [|done]. simpl. f_equal.
    rewrite (b_skip _ _ _ _ Hb); [done|]. intros Hph.
    destruct (wf_home s Hwf l m Hm) as [Hl Hh].
    rewrite Hph, HP in Hh. injection Hh as Hh. by rewrite Hh in Hin. }
  set (h' := (fun m => fst (body m)) <$> heap s) in *.
  set (moved := snd (scan_heap body (pages s !!! P) (heap s))) in *.
  assert (forall l, l ∈ moved <->
            exists m, heap s !! l = Some m /\ snd (body m) = true) as Hmoved.
  { intros l. rewrite Hmv, list_elem_of_filter. unfold promoted. split.
    - intros [Hp Hin]. destruct (heap s !! l) as [m|]; [|done].
      exists m. split; [done|]. by destruct (snd (body m)).
    - intros (m & Hm & Hp). rewrite Hm, Hp. split; [done|].
      destruct (wf_home s Hwf l m Hm) as [Hl Hh].
      destruct (decide (phase m = src)) as [Hph|Hph].
      + rewrite Hph, HP in Hh. injection Hh as Hh. by rewrite Hh.
      + rewrite (b_skip _ _ _ _ Hb m Hph) in Hp. done. }
  assert (length moved = length (List.filter (fun m => snd (body m)) (heap s))) as Hcount.
  { rewrite <- (length_filter_promoted body [] (heap s)). simpl.
    apply Permutation_length, NoDup_Permutation.
    - rewrite Hmv. by apply NoDup_filter.
    - apply NoDup_filter, NoDup_seq.
    - intros l. rewrite Hmoved, list_elem_of_filter, elem_of_seq. unfold promoted.
      split.
      + intros (m & Hm & Hp). rewrite Hm, Hp. split; [done|].
        apply lookup_lt_Some in Hm. lia.
      + intros [Hp _]. destruct (heap s !! l) as [m|]; [|done].
        exists m. split; [done|]. by destruct (snd (body m)). }
  set (s1 := with_stats (with_heap s h') (Nat.iter (length moved) onp (stats s))).
  destruct (move_memories_spec P dst moved s1 HPd) as (pg' & Hmove & Hsrc & Hd & Ho).
  { done. }
  { rewrite Hmv. by apply NoDup_filter. }
  { intros r. rewrite Hmv. by intros [_ ?]%list_elem_of_filter. }
  { intros r x Hr Hx. unfold same_memory. cbn [heap s1 with_stats with_heap].
    split; [|intros ->; by rewrite Nat.eqb_refl].
    intros [H%Nat.eqb_eq|H]%orb_prop; [done|].
    unfold h' in H. rewrite !list_lookup_fmap in H.
    destruct (heap s !! x) as [a|] eqn:Ha; [|done].
    destruct (heap s !! r) as [b|] eqn:Hbb; [|done]. simpl in H.
    apply Memory_eqb_genome in H. rewrite !(b_genome _ _ _ _ Hb) in H.
    by apply (wf_genome_inj s x r a b). }
  exists pg'. cbn zeta. rewrite <- Hcount.
  split.
  - cbn [advance_pages]. rewrite scan_page_pure. fold moved. rewrite Hheap.
    fold s1. rewrite Hmove.
    rewrite advance_pages_empty; [done|].
    intros q Hq. cbn [pages with_pages]. rewrite Ho.
    + apply (wf_not_home_empty s q Hwf). intros ph. by apply Hrest.
    + intros ->. by apply (Hrest P src).
    + intros ->. by apply (Hrest dst dst_ph).
  - cbn [pages with_pages s1] in Hsrc, Hd, Ho.
    assert (forall l m', h' !! l = Some m' ->
              exists m, heap s !! l = Some m /\ m' = fst (body m)) as Hh'.
    { intros l m'. unfold h'. rewrite list_lookup_fmap.
      destruct (heap s !! l) as [m|]; [|done]. intros [= <-]. eauto. }
    split; cbn [pages heap genome_index with_pages with_stats with_heap].
    + intros p. destruct (decide (p = P)) as [->|HpP];
        [|destruct (decide (p = dst)) as [->|Hpd]].
      * rewrite Hsrc. by apply NoDup_filter.
      * rewrite Hd. apply NoDup_app. split; [apply (wf_nodup s Hwf)|]. split.
        -- intros l Hl Hl'. apply Hmoved in Hl' as (m & Hm & Hp).
           pose proof (wf_page_of s l m dst Hwf Hm Hl) as Hpg.
           destruct (wf_home s Hwf l m Hm) as [_ Hh]. rewrite <- Hpg in Hh.
           pose proof (home_page_inj _ _ _ Hh Hdst) as Hph.
           rewrite (b_skip _ _ _ _ Hb m) in Hp; [done|]. by rewrite Hph.
        -- rewrite Hmv. by apply NoDup_filter.
      * rewrite Ho by done. apply (wf_nodup s Hwf).
    + intros l p Hl.
      assert (exists m, heap s !! l = Some m
                /\ ((snd (body m) = true /\ p = dst)
                    \/ (snd (body m) = false /\ p = page m))) as (m & Hm & Hcase).
      { destruct (decide (p = P)) as [->|HpP];
          [|destruct (decide (p = dst)) as [->|Hpd]].
        - rewrite Hsrc in Hl. apply list_elem_of_filter in Hl as [Hnm Hl].
          destruct (wf_in_page s Hwf l P Hl) as (m & Hm & Hp).
          exists m. split; [done|]. right. split; [|done].
          destruct (snd (body m)) eqn:E; [|done].
          destruct Hnm. apply Hmoved. eauto.
        - rewrite Hd in Hl. apply elem_of_app in Hl as [Hl|Hl].
          + destruct (wf_in_page s Hwf l dst Hl) as (m & Hm & Hp).
            exists m. split; [done|]. right. split; [|done].
            destruct (wf_home s Hwf l m Hm) as [_ Hh]. rewrite Hp in Hh.
            pose proof (home_page_inj _ _ _ Hh Hdst) as Hph.
            rewrite (b_skip _ _ _ _ Hb m); [done|]. by rewrite Hph.
          + apply Hmoved in Hl as (m & Hm & Hp). eauto.
        - rewrite Ho in Hl by done.
          destruct (wf_in_page s Hwf l p Hl) as (m & Hm & Hp).
          exists m. split; [done|]. right. split; [|done].
          destruct (wf_home s Hwf l m Hm) as [_ Hh]. rewrite Hp in Hh.
          rewrite (b_skip _ _ _ _ Hb m); [done|]. intros Hph.
          rewrite Hph, HP in Hh. by injection Hh as ->. }
      exists (fst (body m)). unfold h'. rewrite list_lookup_fmap, Hm.
      split; [done|].
      destruct Hcase as [[Hp ->]|[Hp ->]].
      * by apply (b_promoted _ _ _ _ Hb).
      * by apply (b_stay _ _ _ _ Hb).
    + intros l m' Hm'. destruct (Hh' l m' Hm') as (m & Hm & ->).
      destruct (wf_home s Hwf l m Hm) as [Hl Hh].
      destruct (snd (body m)) eqn:Hp.
      * destruct (b_promoted _ _ _ _ Hb m Hp) as [-> ->]. split; [|done].
        rewrite Hd. apply elem_of_app. right. apply Hmoved. eauto.
      * destruct (b_stay _ _ _ _ Hb m Hp) as [-> ->]. split; [|done].
        destruct (decide (page m = P)) as [E|HpP];
          [|destruct (decide (page m = dst)) as [E|Hpd]].
        -- rewrite E, Hsrc. apply list_elem_of_filter. split; [|by rewrite <- E].
           intros (m2 & Hm2 & Hp2)%Hmoved. congruence.
        -- rewrite E, Hd. apply elem_of_app. left. by rewrite <- E.
        -- by rewrite Ho.
    + intros g l. rewrite (wf_genome_index s Hwf). unfold h'.
      rewrite list_lookup_fmap. split.
      * intros (m & -> & <-). exists (fst (body m)). split; [done|].
        apply (b_genome _ _ _ _ Hb).
      * intros (m' & Hm' & <-). destruct (heap s !! l) as [m|]; [|done].
        injection Hm' as <-. exists m. split; [done|].
        symmetry. apply (b_genome _ _ _ _ Hb).
    + intros l m' Hm'. destruct (Hh' l m' Hm') as (m & Hm & ->).
      apply (b_strength _ _ _ _ Hb), (wf_strength s Hwf l m Hm).
    + intros l m' Hm' Hph. destruct (Hh' l m' Hm') as (m & Hm & ->).
      rewrite (b_fresh _ _ _ _ Hb m Hph).
      apply (wf_fresh s Hwf l m Hm).
      destruct (snd (body m)) eqn:Hp.
      * destruct (b_promoted _ _ _ _ Hb m Hp) as [Hd1 _]. congruence.
      * destruct (b_stay _ _ _ _ Hb m Hp) as [E _]. by rewrite <- E.
Qed.


(** *** The five bodies *)

Ltac body_cases m :=
  repeat match goal with
         | |- context [String.eqb (phase m) ?x] =>
             destruct (String.eqb_spec (phase m) x)
         | |- context [if ?b then _ else _] => destruct b eqn:?
         | H : context [String.eqb (phase m) ?x] |- _ =>
             destruct (String.eqb_spec (phase m) x)
         | H : context [if ?b then _ else _] |- _ => destruct b eqn:?
         end.

Lemma trunk_sort_body_ok : body_ok "INTAKE" "TRUNK_SORT" 9 trunk_sort_body.
Proof.
  split; intros m; unfold trunk_sort_body; intros; body_cases m;
    simpl in *; try done; congruence.
Qed.

Lemma min_one_settled : min_one (1 + TENTH)%float = 1%float.
Proof. reflexivity. Qed.

Lemma herd_consensus_body_ok :
  body_ok "TRUNK_SORT" "HERD_CONSENSUS" 17 herd_consensus_body.
Proof.
  split; intros m; unfold herd_consensus_body; intros; body_cases m;
    simpl in *; try done; try congruence.
  match goal with H : strength m = _ |- _ => rewrite H end.
  apply min_one_settled.
Qed.

Lemma memory_encode_body_ok (ti : list (string * list string)) :
  body_ok "HERD_CONSENSUS" "MEMORY_ENCODE" 25 (memory_encode_body ti).
Proof.
  split; intros m; unfold memory_encode_body; intros; body_cases m;
    simpl in *; try done; congruence.
Qed.

Lemma generational_pass_body_ok :
  body_ok "MEMORY_ENCODE" "GENERATIONAL_PASS" 33 generational_pass_body.
Proof.
  split; intros m; unfold generational_pass_body; intros; body_cases m;
    simpl in *; try done; congruence.
Qed.

Lemma echo_amplify_body_ok :
  body_ok "GENERATIONAL_PASS" "ECHO_AMPLIFY" 41 echo_amplify_body.
Proof.
  split; intros m; unfold echo_amplify_body; intros; body_cases m;
    simpl in *; try done; congruence.
Qed.

Lemma not_home (q : nat) (ph : string) :
  q <> 1 -> q <> 9 -> q <> 17 -> q <> 25 -> q <> 33 -> q <> 41 ->
  home_page ph <> Some q.
Proof. intros ?????? H%home_page_cases. lia. Qed.

Ltac rest_pages :=
  let q := fresh "q" in let ph := fresh "ph" in let H := fresh "H" in
  intros q ph H; apply not_home;
  intros ->; repeat (apply elem_of_cons in H as [H|H]; [discriminate H|]);
  by apply elem_of_nil in H.

(** Preservation of well-formedness depends on three fields only. *)
Lemma wf_ext (s s' : ElephantMemory) :
  heap s' = heap s -> pages s' = pages s -> genome_index s' = genome_index s ->
  elephant_wf s -> elephant_wf s'.
Proof.
  intros Hh Hp Hg [W1 W2 W3 W4 W5 W6].
  split; rewrite ?Hh, ?Hp, ?Hg; done.
Qed.

Lemma trunk_sort_spec (s : ElephantMemory) :
  elephant_wf s ->
  exists n s', trunk_sort s = Ok n s' /\ advanced trunk_sort_body s n s'
               /\ generations s' = generations s
               /\ current_generation s' = current_generation s.
Proof.
  intros Hwf.
  destruct (advance_wf "INTAKE" "TRUNK_SORT" 1 9 (seq 2 7) trunk_sort_body
              (fun st => st) s Hwf trunk_sort_body_ok) as (pg' & Hadv & Hwf');
    [done..|rest_pages|].
  cbn zeta in Hadv, Hwf'. unfold trunk_sort.
  change (phase_pages "INTAKE") with (1 :: seq 2 7). rewrite Hadv.
  match goal with |- context [Nat.ltb 0 ?n] => destruct (Nat.ltb 0 n) end;
    eexists _, _; (split; [reflexivity|]); (split; [|done]);
    split; try done;
    (eapply wf_ext; [..|exact Hwf']; reflexivity).
Qed.

Lemma herd_consensus_spec (s : ElephantMemory) :
  elephant_wf s ->
  exists n s', herd_consensus s = Ok n s' /\ advanced herd_consensus_body s n s'
               /\ generations s' = generations s
               /\ current_generation s' = current_generation s.
Proof.
  intros Hwf. unfold herd_consensus.
  match goal with |- context [advance_pages _ ?onp] =>
    destruct (advance_wf "TRUNK_SORT" "HERD_CONSENSUS" 9 17 (seq 10 7)
                herd_consensus_body onp s Hwf herd_consensus_body_ok)
      as (pg' & Hadv & Hwf'); [done..|rest_pages|]
  end.
  cbn zeta in Hadv, Hwf'.
  change (phase_pages "TRUNK_SORT") with (9 :: seq 10 7). rewrite Hadv.
  eexists _, _; (split; [reflexivity|]); (split; [|done]); by split.
Qed.

Lemma memory_encode_spec (s : ElephantMemory) :
  elephant_wf s ->
  exists n s', memory_encode s = Ok n s'
               /\ advanced (memory_encode_body (tag_index s)) s n s'
               /\ generations s' = generations s
               /\ current_generation s' = current_generation s.
Proof.
  intros Hwf. unfold memory_encode.
  destruct (advance_wf "HERD_CONSENSUS" "MEMORY_ENCODE" 17 25 (seq 18 7)
              (memory_encode_body (tag_index s)) (fun st => st) s Hwf
              (memory_encode_body_ok _)) as (pg' & Hadv & Hwf');
    [done..|rest_pages|].
  cbn zeta in Hadv, Hwf'.
  change (phase_pages "HERD_CONSENSUS") with (17 :: seq 18 7). rewrite Hadv.
  eexists _, _; (split; [reflexivity|]); (split; [|done]); by split.
Qed.

Lemma snapshot_wf (now : string) (s : ElephantMemory) :
  elephant_wf s -> elephant_wf (_create_generation_snapshot now s).
Proof. intros Hwf. eapply wf_ext; [..|exact Hwf]; reflexivity. Qed.

Lemma generational_pass_spec (now : string) (s : ElephantMemory) :
  elephant_wf s ->
  exists n s', generational_pass now s = Ok n s'
               /\ advanced generational_pass_body s n s'
               /\ (if Nat.ltb 10 n
                   then exists snap,
                         generations s' = generations s ++ [snap]
                         /\ snap_generation snap = current_generation s
                         /\ current_generation s' = S (current_generation s)
                   else generations s' = generations s
                        /\ current_generation s' = current_generation s).
Proof.
  intros Hwf. unfold generational_pass.
  destruct (advance_wf "MEMORY_ENCODE" "GENERATIONAL_PASS" 25 33 (seq 26 7)
              generational_pass_body (fun st => st) s Hwf
              generational_pass_body_ok) as (pg' & Hadv & Hwf');
    [done..|rest_pages|].
  cbn zeta in Hadv, Hwf'.
  change (phase_pages "MEMORY_ENCODE") with (25 :: seq 26 7). rewrite Hadv.
  match goal with |- context [Nat.ltb 10 ?n] => destruct (Nat.ltb 10 n) eqn:E end;
    eexists _, _; (split; [reflexivity|]); rewrite E; (split; [split; try done|]).
  - by apply snapshot_wf.
  - eexists. split; [reflexivity|]. done.
  - done.
Qed.

Lemma echo_amplify_spec (s : ElephantMemory) :
  elephant_wf s ->
  exists n s', echo_amplify s = Ok n s' /\ advanced echo_amplify_body s n s'
               /\ generations s' = generations s
               /\ current_generation s' = current_generation s.
Proof.
  intros Hwf. unfold echo_amplify.
  match goal with |- context [advance_pages _ ?onp] =>
    destruct (advance_wf "GENERATIONAL_PASS" "ECHO_AMPLIFY" 33 41 (seq 34 7)
                echo_amplify_body onp s Hwf echo_amplify_body_ok)
      as (pg' & Hadv & Hwf'); [done..|rest_pages|]
  end.
  cbn zeta in Hadv, Hwf'.
  change (phase_pages "GENERATIONAL_PASS") with (33 :: seq 34 7). rewrite Hadv.
  eexists _, _; (split; [reflexivity|]); (split; [|done]); by split.
Qed.


(** *** [__init__] and [ingest] *)

Lemma empty_pages_lookup (l : list nat) (p : nat) :
  (list_to_map (map (fun i => (i, [])) l) : gmap nat (list nat)) !!! p = [].
Proof.
  induction l as [|i l IH]; simpl.
  - by rewrite lookup_total_empty.
  - rewrite lookup_total_insert. by case_decide.
Qed.

Lemma elephant_init_wf (cube : option Store40D.Store40D) (rate now : float) :
  elephant_wf (init cube rate now).
Proof.
  split; cbn [init pages heap genome_index].
  - intros p. rewrite empty_pages_lookup. constructor.
  - intros l p. rewrite empty_pages_lookup. by intros ?%elem_of_nil.
  - done.
  - intros g l. rewrite lookup_empty. split; [done|]. by intros (m & ? & _).
  - done.
  - done.
Qed.

Lemma ingest_known (now now40 : string) (breath : Z) (c : pydict)
    (tgs : option (list string)) (s : ElephantMemory) (g : string) (l : loc) :
  _compute_genome c = Some g ->
  genome_index s !! g = Some l ->
  exists st,
    ingest now now40 breath c tgs s
    = Ok g (with_stats (with_heap s (alter echo_bump l (heap s))) st).
Proof. intros Hg Hl. unfold ingest. rewrite Hg, Hl. eauto. Qed.

Lemma wf_echo_bump (s : ElephantMemory) (l : loc) (st : Stats) :
  elephant_wf s ->
  elephant_wf (with_stats (with_heap s (alter echo_bump l (heap s))) st).
Proof.
  intros Hwf.
  assert (forall l' m', alter echo_bump l (heap s) !! l' = Some m' ->
            exists m, heap s !! l' = Some m
                      /\ (m' = m \/ m' = echo_bump m)) as Hback.
  { intros l' m'. destruct (decide (l = l')) as [->|Hne].
    - rewrite list_lookup_alter_eq.
      destruct (heap s !! l') as [m|]; simpl; [|done]. intros [= <-]. eauto.
    - rewrite list_lookup_alter_ne by done. eauto. }
  assert (forall l' m, heap s !! l' = Some m ->
            exists m', alter echo_bump l (heap s) !! l' = Some m'
                       /\ (m' = m \/ m' = echo_bump m)) as Hfwd.
  { intros l' m Hm. destruct (decide (l = l')) as [->|Hne].
    - rewrite list_lookup_alter_eq, Hm. simpl. eauto.
    - rewrite list_lookup_alter_ne by done. eauto. }
  split; cbn [pages heap genome_index with_stats with_heap].
  - apply (wf_nodup s Hwf).
  - intros l' p Hl'. destruct (wf_in_page s Hwf l' p Hl') as (m & Hm & Hp).
    destruct (Hfwd l' m Hm) as (m' & Hm' & [->| ->]); eauto.
  - intros l' m' Hm'. destruct (Hback l' m' Hm') as (m & Hm & [->| ->]);
      apply (wf_home s Hwf l' m Hm).
  - intros g l'. rewrite (wf_genome_index s Hwf). split.
    + intros (m & Hm & <-).
      destruct (Hfwd l' m Hm) as (m' & Hm' & [->| ->]); eauto.
    + intros (m' & Hm' & <-). destruct (Hback l' m' Hm') as (m & Hm & [->| ->]);
        eauto.
  - intros l' m' Hm'. destruct (Hback l' m' Hm') as (m & Hm & [->| ->]);
      apply (wf_strength s Hwf l' m Hm).
  - intros l' m' Hm'. destruct (Hback l' m' Hm') as (m & Hm & [->| ->]);
      apply (wf_fresh s Hwf l' m Hm).
Qed.

Lemma ingest_new (now now40 : string) (breath : Z) (c : pydict)
    (tgs : option (list string)) (s : ElephantMemory) (g : string) :
  _compute_genome c = Some g ->
  genome_index s !! g = None ->
  exists s1,
    heap s1 = heap s ++ [new_memory now c g tgs s]
    /\ pages s1 = <[1:=pages s !!! 1 ++ [length (heap s)]]> (pages s)
    /\ genome_index s1 = <[g:=length (heap s)]> (genome_index s)
    /\ (ingest now now40 breath c tgs s = Ok g s1
        \/ exists e, ingest now now40 breath c tgs s = Raise e s1)
    /\ (store40d s = None -> ingest now now40 breath c tgs s = Ok g s1).
Proof.
  intros Hg Hl. unfold ingest. rewrite Hg, Hl.
  destruct (store40d s) as [cube|]; [|eexists; repeat split; eauto].
  match goal with |- context [Store40D.store ?a ?b ?d ?cu] =>
    destruct (Store40D.store a b d cu) end;
    eexists; repeat split; eauto; done.
Qed.

Lemma wf_new_memory (s s1 : ElephantMemory) (m : Memory) :
  elephant_wf s ->
  genome_index s !! genome m = None ->
  phase m = "INTAKE" -> page m = 1 -> strength m = 1%float ->
  herd_validations m = 0 ->
  heap s1 = heap s ++ [m] ->
  pages s1 = <[1:=pages s !!! 1 ++ [length (heap s)]]> (pages s) ->
  genome_index s1 = <[genome m:=length (heap s)]> (genome_index s) ->
  elephant_wf s1.
Proof.
  intros Hwf Hnew Hph Hpg Hst Hhv Hh Hp Hgi.
  assert (forall l, l ∈ pages s !!! 1 -> l < length (heap s)) as Hlt.
  { intros l Hl. destruct (wf_in_page s Hwf l 1 Hl) as (m' & Hm' & _).
    by eapply lookup_lt_Some. }
  assert (forall l m', (heap s ++ [m]) !! l = Some m' ->
            heap s !! l = Some m' \/ (l = length (heap s) /\ m' = m)) as Hback.
  { intros l m' H. apply lookup_app_Some in H as [H|[Hl H]]; [by left|right].
    destruct (l - length (heap s)) as [|k] eqn:E; [|done].
    injection H as <-. split; [lia|done]. }
  split; rewrite ?Hh, ?Hp, ?Hgi.
  - intros p. rewrite lookup_total_insert. case_decide; [|apply (wf_nodup s Hwf)].
    apply NoDup_app. split; [apply (wf_nodup s Hwf)|]. split.
    + intros l Hl ->%list_elem_of_singleton. apply Hlt in Hl. lia.
    + apply NoDup_singleton.
  - intros l p. rewrite lookup_total_insert. case_decide as Hp1.
    + subst p. intros [Hl| ->%list_elem_of_singleton]%elem_of_app.
      * destruct (wf_in_page s Hwf l 1 Hl) as (m' & Hm' & Hp').
        exists m'. split; [by apply lookup_app_l_Some|done].
      * exists m. split; [by rewrite list_lookup_middle|done].
    + intros Hl. destruct (wf_in_page s Hwf l p Hl) as (m' & Hm' & Hp').
      exists m'. split; [by apply lookup_app_l_Some|done].
  - intros l m' Hm'. destruct (Hback l m' Hm') as [Hm|[-> ->]].
    + destruct (wf_home s Hwf l m' Hm) as [Hl Hhome]. split; [|done].
      rewrite lookup_total_insert. case_decide as E; [|done].
      rewrite <- E in Hl. apply elem_of_app. by left.
    + rewrite Hpg, Hph. split; [|done].
      rewrite lookup_total_insert_eq. apply elem_of_app. right.
      by apply list_elem_of_singleton.
  - intros g l. rewrite lookup_insert. case_decide as E.
    + subst g. split.
      * intros [= <-]. exists m. split; [by rewrite list_lookup_middle|done].
      * intros (m' & Hm' & Hg). destruct (Hback l m' Hm') as [Hm|[-> ->]]; [|done].
        assert (genome_index s !! genome m = Some l) as Hsome
          by (apply (wf_genome_index s Hwf); eauto).
        congruence.
    + rewrite (wf_genome_index s Hwf). split.
      * intros (m' & Hm' & Hg). exists m'. split; [by apply lookup_app_l_Some|done].
      * intros (m' & Hm' & Hg). destruct (Hback l m' Hm') as [Hm|[-> ->]]; [eauto|].
        done.
  - intros l m' Hm'. destruct (Hback l m' Hm') as [Hm|[-> ->]]; [|done].
    apply (wf_strength s Hwf l m' Hm).
  - intros l m' Hm'. destruct (Hback l m' Hm') as [Hm|[-> ->]]; [|done].
    apply (wf_fresh s Hwf l m' Hm).
Qed.

Lemma ingest_wf (now now40 : string) (breath : Z) (c : pydict)
    (tgs : option (list string)) (s : ElephantMemory) :
  elephant_wf s ->
  elephant_wf (Store40D.state_of (ingest now now40 breath c tgs s)).
Proof.
  intros Hwf. destruct (_compute_genome c) as [g|] eqn:Hg.
  - destruct (genome_index s !! g) as [l|] eqn:Hl.
    + destruct (ingest_known now now40 breath c tgs s g l Hg Hl) as [st ->].
      by apply wf_echo_bump.
    + destruct (ingest_new now now40 breath c tgs s g Hg Hl)
        as (s1 & Hh & Hp & Hgi & [E|[e E]] & _); rewrite E;
        by apply (wf_new_memory s s1 (new_memory now c g tgs s)).
  - unfold ingest. by rewrite Hg.
Qed.

(** *** One cycle *)

Lemma breath_cycle_spec (now : string) (t : float) (s : ElephantMemory) :
  elephant_wf s ->
  exists c s1 s2 s3 s4 s5,
    trunk_sort s = Ok (trunk_sorted c) s1
    /\ herd_consensus s1 = Ok (herd_validated c) s2
    /\ memory_encode s2 = Ok (encoded c) s3
    /\ generational_pass now s3 = Ok (generational_passed c) s4
    /\ echo_amplify s4 = Ok (echo_amplified c) s5
    /\ breath_cycle now t s = Ok c (finish_cycle t s5).
Proof.
  intros Hwf.
  destruct (trunk_sort_spec s Hwf) as (n1 & s1 & E1 & A1 & _).
  destruct (herd_consensus_spec s1 (adv_wf _ _ _ _ A1)) as (n2 & s2 & E2 & A2 & _).
  destruct (memory_encode_spec s2 (adv_wf _ _ _ _ A2)) as (n3 & s3 & E3 & A3 & _).
  destruct (generational_pass_spec now s3 (adv_wf _ _ _ _ A3)) as (n4 & s4 & E4 & A4 & _).
  destruct (echo_amplify_spec s4 (adv_wf _ _ _ _ A4)) as (n5 & s5 & E5 & A5 & _).
  exists (mkCycleStats n1 n2 n3 n4 n5), s1, s2, s3, s4, s5.
  cbn [trunk_sorted herd_validated encoded generational_passed echo_amplified].
  repeat (split; [done|]).
  unfold breath_cycle. by rewrite E1, E2, E3, E4, E5.
Qed.

Lemma run_op_wf (o : op) (s : ElephantMemory) :
  elephant_wf s -> elephant_wf (run_op o s).
Proof.
  intros Hwf. destruct o as [now now40 breath c tgs| | | |now| |now t]; cbn [run_op].
  - by apply ingest_wf.
  - destruct (trunk_sort_spec s Hwf) as (n & s' & -> & A & _). apply A.
  - destruct (herd_consensus_spec s Hwf) as (n & s' & -> & A & _). apply A.
  - destruct (memory_encode_spec s Hwf) as (n & s' & -> & A & _). apply A.
  - destruct (generational_pass_spec now s Hwf) as (n & s' & -> & A & _). apply A.
  - destruct (echo_amplify_spec s Hwf) as (n & s' & -> & A & _). apply A.
  - destruct (breath_cycle_spec now t s Hwf)
      as (c & s1 & s2 & s3 & s4 & s5 & E1 & E2 & E3 & E4 & E5 & ->).
    destruct (trunk_sort_spec s Hwf) as (? & ? & E1' & A1 & _).
    rewrite E1 in E1'. injection E1' as <- <-.
    destruct (herd_consensus_spec s1 (adv_wf _ _ _ _ A1)) as (? & ? & E2' & A2 & _).
    rewrite E2 in E2'. injection E2' as <- <-.
    destruct (memory_encode_spec s2 (adv_wf _ _ _ _ A2)) as (? & ? & E3' & A3 & _).
    rewrite E3 in E3'. injection E3' as <- <-.
    destruct (generational_pass_spec now s3 (adv_wf _ _ _ _ A3)) as (? & ? & E4' & A4 & _).
    rewrite E4 in E4'. injection E4' as <- <-.
    destruct (echo_amplify_spec s4 (adv_wf _ _ _ _ A4)) as (? & ? & E5' & A5 & _).
    rewrite E5 in E5'. injection E5' as <- <-.
    cbn [Store40D.state_of]. eapply wf_ext; [..|exact (adv_wf _ _ _ _ A5)]; reflexivity.
Qed.

Lemma run_wf (ops : list op) (s : ElephantMemory) :
  elephant_wf s -> elephant_wf (run ops s).
Proof.
  revert s. induction ops as [|o ops IH]; intros s Hwf; [done|].
  apply IH. by apply run_op_wf.
Qed.

Lemma reachable_wf (s : ElephantMemory) : reachable s -> elephant_wf s.
Proof. intros (cube & rate & t0 & ops & ->). apply run_wf, elephant_init_wf. Qed.


(** *** What a loop body does to the phase of a memory *)

Lemma forward_refl (a : string) : forward_step a a.
Proof. by left. Qed.

Ltac body_forward m :=
  body_cases m; simpl; try apply forward_refl;
  right; match goal with E : phase m = _ |- _ => rewrite E end;
  eexists; split; reflexivity.

Lemma trunk_sort_body_forward (m : Memory) :
  forward_step (phase m) (phase (fst (trunk_sort_body m))).
Proof. unfold trunk_sort_body. body_forward m. Qed.

Lemma herd_consensus_body_forward (m : Memory) :
  forward_step (phase m) (phase (fst (herd_consensus_body m))).
Proof. unfold herd_consensus_body. body_forward m. Qed.

Lemma memory_encode_body_forward (ti : list (string * list string)) (m : Memory) :
  forward_step (phase m) (phase (fst (memory_encode_body ti m))).
Proof. unfold memory_encode_body. body_forward m. Qed.

Lemma generational_pass_body_forward (m : Memory) :
  forward_step (phase m) (phase (fst (generational_pass_body m))).
Proof. unfold generational_pass_body. body_forward m. Qed.

Lemma echo_amplify_body_forward (m : Memory) :
  forward_step (phase m) (phase (fst (echo_amplify_body m))).
Proof. unfold echo_amplify_body. body_forward m. Qed.

Lemma advanced_transition (src dst_ph : string) (dst : nat)
    (body : Memory -> Memory * bool) (s s' : ElephantMemory) (n : nat) :
  elephant_wf s ->
  body_ok src dst_ph dst body ->
  (forall m, forward_step (phase m) (phase (fst (body m)))) ->
  advanced body s n s' ->
  transition_ok s s'.
Proof.
  intros Hwf Hb Hf A l m Hm. exists (fst (body m)).
  rewrite (adv_heap _ _ _ _ A), list_lookup_fmap, Hm. split; [done|].
  split; [apply Hf|].
  pose proof (wf_strength s Hwf l m Hm) as Hs.
  by rewrite (b_strength _ _ _ _ Hb m Hs), Hs.
Qed.

Lemma ingest_transition (now now40 : string) (breath : Z) (c : pydict)
    (tgs : option (list string)) (s : ElephantMemory) :
  elephant_wf s ->
  transition_ok s (Store40D.state_of (ingest now now40 breath c tgs s)).
Proof.
  intros Hwf l m Hm. pose proof (wf_strength s Hwf l m Hm) as Hs.
  destruct (_compute_genome c) as [g|] eqn:Hg.
  - destruct (genome_index s !! g) as [l0|] eqn:Hl.
    + destruct (ingest_known now now40 breath c tgs s g l0 Hg Hl) as [st ->].
      cbn [Store40D.state_of heap with_stats with_heap].
      destruct (decide (l0 = l)) as [->|Hne].
      * exists (echo_bump m). rewrite list_lookup_alter_eq, Hm.
        split; [done|]. split; [by left|]. simpl. by rewrite Hs.
      * exists m. rewrite list_lookup_alter_ne by done.
        split; [done|]. split; [by left|]. by rewrite Hs.
    + destruct (ingest_new now now40 breath c tgs s g Hg Hl)
        as (s1 & Hh & _ & _ & [E|[e E]] & _); rewrite E;
        cbn [Store40D.state_of]; exists m; rewrite Hh;
        (split; [by apply lookup_app_l_Some|]); (split; [by left|]);
        by rewrite Hs.
  - unfold ingest. rewrite Hg. exists m. split; [done|]. split; [by left|].
    by rewrite Hs.
Qed.

Lemma run_cycle_steps (now : string) (t : float) (s : ElephantMemory) :
  elephant_wf s ->
  run_op (BreathCycle now t) s = finish_cycle t (run (cycle_steps now) s).
Proof.
  intros Hwf.
  destruct (breath_cycle_spec now t s Hwf)
    as (c & s1 & s2 & s3 & s4 & s5 & E1 & E2 & E3 & E4 & E5 & E).
  cbn [run_op run cycle_steps fold_left].
  rewrite E, E1. cbn [Store40D.state_of]. rewrite E2. cbn [Store40D.state_of].
  rewrite E3. cbn [Store40D.state_of]. rewrite E4. cbn [Store40D.state_of].
  by rewrite E5.
Qed.

Lemma wf_one_bucket (s : ElephantMemory) : elephant_wf s -> one_bucket s.
Proof.
  intros Hwf l m Hm. destruct (wf_home s Hwf l m Hm) as [Hl Hh].
  pose proof (wf_strength s Hwf l m Hm) as Hs.
  split; [|split; [|split]].
  - apply home_page_cases in Hh.
    destruct Hh as [[-> _]|[[-> _]|[[-> _]|[[-> _]|[[-> _]|[-> _]]]]]];
      eexists; reflexivity.
  - apply home_page_cases in Hh.
    destruct Hh as [[-> ->]|[[-> ->]|[[-> ->]|[[-> ->]|[[-> ->]|[-> ->]]]]]];
      by left.
  - intros p. case_decide as E.
    + subst p. pose proof (wf_nodup s Hwf (page m)) as Hnd.
      apply NoDup_ListNoDup in Hnd.
      pose proof (proj1 (NoDup_count_occ Nat.eq_dec _) Hnd l) as Hle.
      apply list_elem_of_In in Hl.
      apply (count_occ_In Nat.eq_dec) in Hl. lia.
    + apply count_occ_not_In. intros Hin%list_elem_of_In.
      by apply E, (wf_page_of s l m p).
  - by rewrite Hs.
Qed.

(** C5: in every state an [ElephantMemory] reaches, each memory is in
    one phase and in one page bucket of it, with a strength within
    [0, 1]; each call keeps every memory, moves its phase forward by one
    stage at most, and does not lower its strength; a cycle is its five
    steps in order. *)
Theorem C5_lifecycle_invariant (s : ElephantMemory) :
  reachable s ->
  one_bucket s
  /\ forall o,
       match o with
       | BreathCycle now t =>
           run_op o s = finish_cycle t (run (cycle_steps now) s)
       | _ => transition_ok s (run_op o s)
       end.
Proof.
  intros Hwf%reachable_wf. split; [by apply wf_one_bucket|].
  intros [now now40 breath c tgs| | | |now| |now t]; cbn [run_op].
  - by apply ingest_transition.
  - destruct (trunk_sort_spec s Hwf) as (n & s' & -> & A & _).
    exact (advanced_transition _ _ _ _ _ _ _ Hwf trunk_sort_body_ok
             trunk_sort_body_forward A).
  - destruct (herd_consensus_spec s Hwf) as (n & s' & -> & A & _).
    exact (advanced_transition _ _ _ _ _ _ _ Hwf herd_consensus_body_ok
             herd_consensus_body_forward A).
  - destruct (memory_encode_spec s Hwf) as (n & s' & -> & A & _).
    exact (advanced_transition _ _ _ _ _ _ _ Hwf (memory_encode_body_ok _)
             (memory_encode_body_forward _) A).
  - destruct (generational_pass_spec now s Hwf) as (n & s' & -> & A & _).
    exact (advanced_transition _ _ _ _ _ _ _ Hwf generational_pass_body_ok
             generational_pass_body_forward A).
  - destruct (echo_amplify_spec s Hwf) as (n & s' & -> & A & _).
    exact (advanced_transition _ _ _ _ _ _ _ Hwf echo_amplify_body_ok
             echo_amplify_body_forward A).
  - by apply (run_cycle_steps now t s).
Qed.

Lemma after_first_cycle_reachable : reachable after_first_cycle.
Proof. by eexists _, _, _, _. Qed.

(** An instance of C5: the state after one memory and one cycle. *)
Lemma C5_lifecycle_invariant_witness :
  one_bucket after_first_cycle
  /\ forall o,
       match o with
       | BreathCycle now t =>
           run_op o after_first_cycle
           = finish_cycle t (run (cycle_steps now) after_first_cycle)
       | _ => transition_ok after_first_cycle (run_op o after_first_cycle)
       end.
Proof. apply (C5_lifecycle_invariant after_first_cycle after_first_cycle_reachable). Defined.


(** *** One cycle, memory by memory *)

Lemma phase_rank_cases (ph : string) (r : nat) :
  phase_rank ph = Some r ->
  (ph = "INTAKE" /\ r = 0) \/ (ph = "TRUNK_SORT" /\ r = 1)
  \/ (ph = "HERD_CONSENSUS" /\ r = 2) \/ (ph = "MEMORY_ENCODE" /\ r = 3)
  \/ (ph = "GENERATIONAL_PASS" /\ r = 4) \/ (ph = "ECHO_AMPLIFY" /\ r = 5).
Proof.
  unfold phase_rank, PHASES. cbn [map fst Store40D.list_index].
  repeat match goal with
         | |- context [String.eqb ph ?x] =>
             destruct (String.eqb_spec ph x) as [->|?];
             [cbn; intros [= <-]; tauto|]
         end.
  done.
Qed.

(** A cycle moves a memory forward by four stages at most: from
    TRUNK_SORT to ECHO_AMPLIFY.  A memory in INTAKE, not validated yet,
    gets to TRUNK_SORT only. *)
Lemma cycle_body_rank (ti : list (string * list string)) (m : Memory) (r : nat) :
  phase_rank (phase m) = Some r ->
  (phase m = "INTAKE" -> herd_validations m = 0) ->
  exists r', phase_rank (phase (cycle_body ti m)) = Some r' /\ r <= r' <= r + 4.
Proof.
  intros Hr Hhv. apply phase_rank_cases in Hr.
  destruct m as [c ts g st ph pg gen hv ec tg asc]. cbn [phase herd_validations] in *.
  destruct Hr as [[-> ->]|[[-> ->]|[[-> ->]|[[-> ->]|[[-> ->]|[-> ->]]]]]].
  - rewrite (Hhv eq_refl). unfold cycle_body, trunk_sort_body. cbn [phase String.eqb Ascii.eqb Bool.eqb strength echo_count].
    destruct (_ || _); cbn; eexists; (split; [reflexivity|lia]).
  - destruct hv as [|hv]; cbn; eexists; (split; [reflexivity|lia]).
  - cbn. eexists; (split; [reflexivity|lia]).
  - cbn. eexists; (split; [reflexivity|lia]).
  - cbn. eexists; (split; [reflexivity|lia]).
  - cbn. eexists; (split; [reflexivity|lia]).
Qed.

(** C1, step by step: a cycle is the five phase methods in their fixed
    order, each of which moves a memory by one stage at most; the later
    ones also take the memories the earlier ones have just promoted, so a
    memory moves forward by up to four stages in one cycle, and never
    back. *)
Theorem C1_cycle_steps (now : string) (t : float) (s : ElephantMemory) :
  reachable s ->
  exists c s1 s2 s3 s4 s5,
    trunk_sort s = Ok (trunk_sorted c) s1
    /\ herd_consensus s1 = Ok (herd_validated c) s2
    /\ memory_encode s2 = Ok (encoded c) s3
    /\ generational_pass now s3 = Ok (generational_passed c) s4
    /\ echo_amplify s4 = Ok (echo_amplified c) s5
    /\ breath_cycle now t s = Ok c (finish_cycle t s5)
    /\ transition_ok s s1 /\ transition_ok s1 s2 /\ transition_ok s2 s3
    /\ transition_ok s3 s4 /\ transition_ok s4 s5
    /\ forall l m, heap s !! l = Some m ->
         exists r r',
           heap s5 !! l = Some (cycle_body (tag_index s) m)
           /\ phase_rank (phase m) = Some r
           /\ phase_rank (phase (cycle_body (tag_index s) m)) = Some r'
           /\ r <= r' <= r + 4.
Proof.
  intros Hwf%reachable_wf.
  destruct (breath_cycle_spec now t s Hwf)
    as (c & s1 & s2 & s3 & s4 & s5 & E1 & E2 & E3 & E4 & E5 & E).
  destruct (trunk_sort_spec s Hwf) as (? & ? & E1' & A1 & _).
  rewrite E1 in E1'. injection E1' as <- <-.
  pose proof (adv_wf _ _ _ _ A1) as W1.
  destruct (herd_consensus_spec s1 W1) as (? & ? & E2' & A2 & _).
  rewrite E2 in E2'. injection E2' as <- <-.
  pose proof (adv_wf _ _ _ _ A2) as W2.
  destruct (memory_encode_spec s2 W2) as (? & ? & E3' & A3 & _).
  rewrite E3 in E3'. injection E3' as <- <-.
  pose proof (adv_wf _ _ _ _ A3) as W3.
  destruct (generational_pass_spec now s3 W3) as (? & ? & E4' & A4 & _).
  rewrite E4 in E4'. injection E4' as <- <-.
  pose proof (adv_wf _ _ _ _ A4) as W4.
  destruct (echo_amplify_spec s4 W4) as (? & ? & E5' & A5 & _).
  rewrite E5 in E5'. injection E5' as <- <-.
  exists c, s1, s2, s3, s4, s5. repeat (split; [done|]).
  split; [exact (advanced_transition _ _ _ _ _ _ _ Hwf trunk_sort_body_ok
                   trunk_sort_body_forward A1)|].
  split; [exact (advanced_transition _ _ _ _ _ _ _ W1 herd_consensus_body_ok
                   herd_consensus_body_forward A2)|].
  split; [exact (advanced_transition _ _ _ _ _ _ _ W2 (memory_encode_body_ok _)
                   (memory_encode_body_forward _) A3)|].
  split; [exact (advanced_transition _ _ _ _ _ _ _ W3 generational_pass_body_ok
                   generational_pass_body_forward A4)|].
  split; [exact (advanced_transition _ _ _ _ _ _ _ W4 echo_amplify_body_ok
                   echo_amplify_body_forward A5)|].
  intros l m Hm.
  destruct (wf_one_bucket s Hwf l m Hm) as [[r Hr] _].
  destruct (cycle_body_rank (tag_index s) m r Hr (wf_fresh s Hwf l m Hm))
    as (r' & Hr' & Hle).
  exists r, r'. split; [|done].
  rewrite (adv_heap _ _ _ _ A5), (adv_heap _ _ _ _ A4), (adv_heap _ _ _ _ A3),
    (adv_heap _ _ _ _ A2), (adv_heap _ _ _ _ A1).
  rewrite (adv_tag_index _ _ _ _ A2), (adv_tag_index _ _ _ _ A1).
  rewrite !list_lookup_fmap, Hm. done.
Qed.

(** An instance of C1: the cycle that follows the first one. *)
Lemma C1_cycle_steps_witness :
  exists c s1 s2 s3 s4 s5,
    trunk_sort after_first_cycle = Ok (trunk_sorted c) s1
    /\ herd_consensus s1 = Ok (herd_validated c) s2
    /\ memory_encode s2 = Ok (encoded c) s3
    /\ generational_pass "t3" s3 = Ok (generational_passed c) s4
    /\ echo_amplify s4 = Ok (echo_amplified c) s5
    /\ breath_cycle "t3" 0%float after_first_cycle = Ok c (finish_cycle 0%float s5)
    /\ transition_ok after_first_cycle s1 /\ transition_ok s1 s2
    /\ transition_ok s2 s3 /\ transition_ok s3 s4 /\ transition_ok s4 s5
    /\ forall l m, heap after_first_cycle !! l = Some m ->
         exists r r',
           heap s5 !! l = Some (cycle_body (tag_index after_first_cycle) m)
           /\ phase_rank (phase m) = Some r
           /\ phase_rank (phase (cycle_body (tag_index after_first_cycle) m)) = Some r'
           /\ r <= r' <= r + 4.
Proof.
  apply (C1_cycle_steps "t3" 0%float after_first_cycle after_first_cycle_reachable).
Defined.

(** C1 does not hold for a whole cycle: in its second cycle a memory
    goes from TRUNK_SORT to ECHO_AMPLIFY, four stages in one call. *)
Lemma C1_counterexample :
  exists c s',
    reachable after_first_cycle
    /\ breath_cycle "t3" 0%float after_first_cycle = Ok c s'
    /\ phase_at after_first_cycle 0 = Some "TRUNK_SORT"
    /\ phase_at s' 0 = Some "ECHO_AMPLIFY".
Proof.
  eexists _, _. split; [apply after_first_cycle_reachable|].
  split; [vm_compute; reflexivity|]. split; vm_compute; reflexivity.
Qed.


(** *** Generation snapshots *)

Lemma generational_pass_body_snd (m : Memory) :
  snd (generational_pass_body m) = String.eqb (phase m) "MEMORY_ENCODE".
Proof. unfold generational_pass_body. by destruct (String.eqb _ _). Qed.

Lemma generational_pass_body_phase (m : Memory) :
  phase m = "MEMORY_ENCODE" ->
  phase (fst (generational_pass_body m)) = "GENERATIONAL_PASS".
Proof. intros H. unfold generational_pass_body. by rewrite H. Qed.

(** C3: a cycle appends a snapshot exactly when its
    [generational_pass] step promotes more than ten memories out of
    MEMORY_ENCODE, and the generation counter goes up by the number of
    snapshots appended, one at most. *)
Theorem C3_snapshot_iff (now : string) (t : float) (s : ElephantMemory) :
  reachable s ->
  exists c s3 s4 s',
    breath_cycle now t s = Ok c s'
    /\ s3 = run [TrunkSort; HerdConsensus; MemoryEncode] s
    /\ generational_pass now s3 = Ok (generational_passed c) s4
    /\ generational_passed c = count_in_phase "MEMORY_ENCODE" s3
    /\ (forall l, phase_at s3 l = Some "MEMORY_ENCODE" ->
                  phase_at s4 l = Some "GENERATIONAL_PASS")
    /\ ((exists snap, generations s' = generations s ++ [snap]
                      /\ snap_generation snap = current_generation s)
        <-> 10 < generational_passed c)
    /\ (generations s' = generations s <-> generational_passed c <= 10)
    /\ current_generation s'
       = current_generation s + (length (generations s') - length (generations s)).
Proof.
  intros Hwf%reachable_wf.
  destruct (breath_cycle_spec now t s Hwf)
    as (c & s1 & s2 & s3 & s4 & s5 & E1 & E2 & E3 & E4 & E5 & E).
  destruct (trunk_sort_spec s Hwf) as (? & ? & E1' & A1 & G1 & C1).
  rewrite E1 in E1'. injection E1' as <- <-.
  pose proof (adv_wf _ _ _ _ A1) as W1.
  destruct (herd_consensus_spec s1 W1) as (? & ? & E2' & A2 & G2 & C2).
  rewrite E2 in E2'. injection E2' as <- <-.
  pose proof (adv_wf _ _ _ _ A2) as W2.
  destruct (memory_encode_spec s2 W2) as (? & ? & E3' & A3 & G3 & C3).
  rewrite E3 in E3'. injection E3' as <- <-.
  pose proof (adv_wf _ _ _ _ A3) as W3.
  destruct (generational_pass_spec now s3 W3) as (? & ? & E4' & A4 & G4).
  rewrite E4 in E4'. injection E4' as <- <-.
  pose proof (adv_wf _ _ _ _ A4) as W4.
  destruct (echo_amplify_spec s4 W4) as (? & ? & E5' & A5 & G5 & C5).
  rewrite E5 in E5'. injection E5' as <- <-.
  exists c, s3, s4, (finish_cycle t s5). split; [done|]. split.
  { cbn [run fold_left run_op]. rewrite E1. cbn [Store40D.state_of].
    rewrite E2. cbn [Store40D.state_of]. by rewrite E3. }
  split; [done|]. split.
  { rewrite (adv_count _ _ _ _ A4). unfold count_in_phase. f_equal.
    apply List.filter_ext. intros m. apply generational_pass_body_snd. }
  split.
  { intros l. unfold phase_at. rewrite (adv_heap _ _ _ _ A4), list_lookup_fmap.
    destruct (heap s3 !! l) as [m|]; [|done]. simpl. intros [= Hph].
    by rewrite (generational_pass_body_phase m Hph). }
  cbn [generations current_generation finish_cycle].
  rewrite G5, C5. rewrite <- G1, <- G2, <- G3, <- C1, <- C2, <- C3.
  destruct (Nat.ltb 10 (generational_passed c)) eqn:Hlt.
  - apply Nat.ltb_lt in Hlt. destruct G4 as (snap & -> & Hsg & ->).
    split; [split; [done|eauto]|]. split.
    + split; [|lia]. intros Heq. apply (f_equal length) in Heq.
      rewrite length_app in Heq. simpl in Heq. lia.
    + rewrite length_app. simpl. lia.
  - apply Nat.ltb_ge in Hlt. destruct G4 as [-> ->].
    split; [split; [|lia]|].
    + intros (snap & Heq & _). apply (f_equal length) in Heq.
      rewrite length_app in Heq. simpl in Heq. lia.
    + split; [done|]. lia.
Qed.

Lemma twelve_reachable : reachable twelve_after_first_cycle.
Proof. by eexists _, _, _, _. Qed.

(** An instance of C3: twelve memories in their second cycle. *)
Lemma C3_snapshot_iff_witness :
  exists c s3 s4 s',
    breath_cycle "t3" 0%float twelve_after_first_cycle = Ok c s'
    /\ s3 = run [TrunkSort; HerdConsensus; MemoryEncode] twelve_after_first_cycle
    /\ generational_pass "t3" s3 = Ok (generational_passed c) s4
    /\ generational_passed c = count_in_phase "MEMORY_ENCODE" s3
    /\ (forall l, phase_at s3 l = Some "MEMORY_ENCODE" ->
                  phase_at s4 l = Some "GENERATIONAL_PASS")
    /\ ((exists snap,
           generations s' = generations twelve_after_first_cycle ++ [snap]
           /\ snap_generation snap = current_generation twelve_after_first_cycle)
        <-> 10 < generational_passed c)
    /\ (generations s' = generations twelve_after_first_cycle
        <-> generational_passed c <= 10)
    /\ current_generation s'
       = current_generation twelve_after_first_cycle
         + (length (generations s')
            - length (generations twelve_after_first_cycle)).
Proof.
  apply (C3_snapshot_iff "t3" 0%float twelve_after_first_cycle twelve_reachable).
Defined.

(** With twelve memories the second cycle promotes twelve and files the
    first snapshot. *)
Example twelve_snapshot :
  match breath_cycle "t3" 0%float twelve_after_first_cycle with
  | Ok c s' => generational_passed c = 12
               /\ map snap_generation (generations s') = [0]
               /\ current_generation s' = 1
  | Raise _ _ => False
  end.
Proof. vm_compute. done. Qed.

(** *** [ingest] of content already held *)

(** After an [ingest] that returned, a second [ingest] of the same
    content returns the same hash, creates no memory, and adds one to the
    echo counter of the memory the first call created or found. *)
Lemma ingest_twice_returns (now1 now1' now2 now2' : string) (b1 b2 : Z)
    (c : pydict) (tgs1 tgs2 : option (list string))
    (s s1 : ElephantMemory) (g : string) :
  elephant_wf s ->
  ingest now1 now1' b1 c tgs1 s = Ok g s1 ->
  exists s2 l m1 m2,
    ingest now2 now2' b2 c tgs2 s1 = Ok g s2
    /\ genome_index s1 !! g = Some l
    /\ heap s1 !! l = Some m1
    /\ heap s2 !! l = Some m2
    /\ genome m1 = g
    /\ echo_count m2 = S (echo_count m1)
    /\ (genome_index s !! g = None -> echo_count m1 = 0)
    /\ length (heap s2) = length (heap s1)
    /\ pages s2 = pages s1
    /\ genome_index s2 = genome_index s1
    /\ forall l', l' <> l -> heap s2 !! l' = heap s1 !! l'.
Proof.
  intros Hwf H1.
  pose proof (ingest_wf now1 now1' b1 c tgs1 s Hwf) as Hwf1.
  rewrite H1 in Hwf1. cbn [Store40D.state_of] in Hwf1.
  assert (_compute_genome c = Some g) as Hg.
  { unfold ingest in H1. destruct (_compute_genome c) as [g'|]; [|done].
    destruct (genome_index s !! g') as [l|].
    - by injection H1 as -> _.
    - destruct (store40d s) as [cube|]; [|by injection H1 as -> _].
      destruct (Store40D.store _ _ _ _); [|done]. by injection H1 as -> _. }
  assert (exists l m1, genome_index s1 !! g = Some l /\ heap s1 !! l = Some m1
                       /\ genome m1 = g
                       /\ (genome_index s !! g = None -> echo_count m1 = 0))
    as (l & m1 & Hl & Hm1 & Hgm & Hfresh).
  { destruct (genome_index s !! g) as [l|] eqn:Hl.
    - destruct (ingest_known now1 now1' b1 c tgs1 s g l Hg Hl) as [st E].
      rewrite E in H1. injection H1 as <-.
      cbn [genome_index heap with_stats with_heap].
      destruct (proj1 (wf_genome_index s Hwf g l) Hl) as (m & Hm & Hgm).
      exists l, (echo_bump m). rewrite list_lookup_alter_eq, Hm. done.
    - destruct (ingest_new now1 now1' b1 c tgs1 s g Hg Hl)
        as (s1' & Hh & _ & Hgi & [E|[e E]] & _); rewrite E in H1; [|done].
      injection H1 as <-. rewrite Hh, Hgi.
      exists (length (heap s)), (new_memory now1 c g tgs1 s).
      by rewrite lookup_insert_eq, list_lookup_middle. }
  destruct (ingest_known now2 now2' b2 c tgs2 s1 g l Hg Hl) as [st E2].
  eexists _, l, m1, (echo_bump m1). split; [exact E2|].
  cbn [genome_index heap pages with_stats with_heap].
  rewrite list_lookup_alter_eq, Hm1, length_alter.
  repeat (split; [done|]).
  intros l' Hne. by rewrite list_lookup_alter_ne.
Qed.

(** *** [recall] *)

Section recall_scan.
Variables (tgs : option (list string)) (ph : option string) (limit : Z).
Hypothesis limit_pos : (1 <= limit)%Z.

Lemma recall_page_firstn (ms results : list Memory) :
  length results < Z.to_nat limit ->
  recall_page tgs ph limit ms results
  = results ++ firstn (Z.to_nat limit - length results)
                 (List.filter (recall_match tgs ph) ms).
Proof using limit_pos.
  revert results. induction ms as [|m ms IH]; intros results Hlt.
  - by rewrite firstn_nil, app_nil_r.
  - cbn [recall_page List.filter]. destruct (recall_match tgs ph m); [|by apply IH].
    destruct (Z.to_nat limit - length results) as [|k] eqn:Hk; [lia|]. cbn [firstn].
    destruct (Z.leb_spec limit (Z.of_nat (length (results ++ [m])))) as [Hge|Hlt'];
      rewrite length_app in *; cbn [length] in *.
    + assert (k = 0) as -> by lia.
      by rewrite firstn_0.
    + rewrite IH by (rewrite length_app; cbn [length]; lia).
      rewrite length_app. cbn [length]. rewrite <- app_assoc. cbn [app].
      do 3 f_equal. lia.
Qed.

Lemma recall_pages_firstn (pgs : list (list Memory)) (results : list Memory) :
  length results < Z.to_nat limit ->
  recall_pages tgs ph limit pgs results
  = results ++ firstn (Z.to_nat limit - length results)
                 (List.filter (recall_match tgs ph) (concat pgs)).
Proof using limit_pos.
  revert results. induction pgs as [|ms pgs IH]; intros results Hlt.
  - by rewrite firstn_nil, app_nil_r.
  - cbn [recall_pages concat]. rewrite recall_page_firstn by done.
    rewrite List.filter_app, firstn_app.
    set (got := firstn (Z.to_nat limit - length results)
                  (List.filter (recall_match tgs ph) ms)).
    assert (length got = Nat.min (Z.to_nat limit - length results)
                           (length (List.filter (recall_match tgs ph) ms)))
      as Hgot by apply length_firstn.
    destruct (Z.leb_spec limit (Z.of_nat (length (results ++ got)))) as [Hge|Hlt'];
      rewrite length_app in *.
    + replace (Z.to_nat limit - length results
               - length (List.filter (recall_match tgs ph) ms)) with 0 by lia.
      by rewrite firstn_0, app_nil_r.
    + rewrite IH by (rewrite length_app; lia).
      rewrite length_app, <- app_assoc. do 3 f_equal. lia.
Qed.

End recall_scan.

Lemma recall_page_short (tgs : option (list string)) (ph : option string)
    (limit : Z) (ms : list Memory) :
  (limit <= 0)%Z -> length (recall_page tgs ph limit ms []) <= 1.
Proof.
  intros Hle. induction ms as [|m ms IH]; cbn [recall_page]; [simpl; lia|].
  destruct (recall_match tgs ph m); [|done].
  destruct (Z.leb_spec limit (Z.of_nat (length ([] ++ [m])))) as [_|Hlt];
    simpl in *; lia.
Qed.

Lemma recall_pages_short (tgs : option (list string)) (ph : option string)
    (limit : Z) (pgs : list (list Memory)) :
  (limit <= 0)%Z -> length (recall_pages tgs ph limit pgs []) <= 1.
Proof.
  intros Hle. destruct pgs as [|ms pgs]; cbn [recall_pages]; [simpl; lia|].
  pose proof (recall_page_short tgs ph limit ms Hle) as H1.
  destruct (Z.leb_spec limit (Z.of_nat (length (recall_page tgs ph limit ms []))));
    [done|lia].
Qed.

Lemma insert_ranked_perm (x : Memory) (l : list Memory) :
  insert_ranked x l ≡ₚ x :: l.
Proof.
  induction l as [|y l IH]; cbn [insert_ranked]; [done|].
  destruct (rank_lt y x); [done|]. rewrite IH. apply Permutation_swap.
Qed.

Lemma sort_ranked_perm (l : list Memory) : sort_ranked l ≡ₚ l.
Proof.
  unfold sort_ranked.
  assert (forall acc, fold_left (fun acc x => insert_ranked x acc) l acc ≡ₚ acc ++ l)
    as H; [|apply (H [])].
  induction l as [|x l IH]; intros acc; cbn [fold_left].
  - by rewrite app_nil_r.
  - rewrite IH, insert_ranked_perm. apply Permutation_middle.
Qed.

(** Ranks of memories of strength 1.0 are ordered by the echo count. *)
Lemma rank_lt_settled (a b : Memory) :
  strength a = 1%float -> strength b = 1%float ->
  rank_lt a b = Nat.ltb (echo_count a) (echo_count b).
Proof. intros Ha Hb. unfold rank_lt. by rewrite Ha, Hb. Qed.

Lemma insert_ranked_sorted (x : Memory) (l : list Memory) :
  strength x = 1%float -> Forall (fun m => strength m = 1%float) l ->
  ranked l -> ranked (insert_ranked x l).
Proof.
  intros Hx Hall Hs. induction Hs as [|y l Hs IH Hy]; cbn [insert_ranked].
  - repeat constructor.
  - apply Forall_cons in Hall as [Hys Hall].
    rewrite (rank_lt_settled y x Hys Hx).
    destruct (Nat.ltb_spec (echo_count y) (echo_count x)) as [Hlt|Hge].
    + constructor; [by constructor|]. constructor; [lia|].
      eapply Forall_impl; [exact Hy|]. simpl. intros; lia.
    + constructor; [by apply IH|].
      rewrite (insert_ranked_perm x l). by constructor.
Qed.

Lemma sort_ranked_sorted (l : list Memory) :
  Forall (fun m => strength m = 1%float) l -> ranked (sort_ranked l).
Proof.
  unfold sort_ranked. intros Hall.
  assert (forall acc, Forall (fun m => strength m = 1%float) acc -> ranked acc ->
            ranked (fold_left (fun acc x => insert_ranked x acc) l acc)) as H.
  { induction l as [|x l IH]; intros acc Hacc Hs; cbn [fold_left]; [done|].
    apply Forall_cons in Hall as [Hx Hall]. apply IH; [done| |].
    - rewrite (insert_ranked_perm x acc). by constructor.
    - by apply insert_ranked_sorted. }
  apply H; constructor.
Qed.

Lemma length_sort_ranked (l : list Memory) : length (sort_ranked l) = length l.
Proof. apply Permutation_length, sort_ranked_perm. Qed.

Lemma all_memories_concat (s : ElephantMemory) :
  concat (map (page_memories s) (seq 1 TOTAL_PAGES)) = all_memories s.
Proof.
  unfold all_memories, all_refs, page_memories.
  induction (seq 1 TOTAL_PAGES) as [|p ps IH]; [done|].
  cbn [map concat]. by rewrite omap_app, IH.
Qed.

Lemma wf_all_memories_strength (s : ElephantMemory) :
  elephant_wf s -> Forall (fun m => strength m = 1%float) (all_memories s).
Proof.
  intros Hwf. apply Forall_forall. intros m Hm.
  apply list_elem_of_omap in Hm as (l & _ & Hl).
  by apply (wf_strength s Hwf l).
Qed.

(** C10: the scan stops at [limit] matches, and only those are ranked:
    [recall] returns the first [limit] matches of the page scan, sorted by
    rank; a match met later is left out even when it outranks them. *)
Theorem C10_recall_limit_before_rank (s : ElephantMemory)
    (tgs : option (list string)) (ph : option string) (limit : Z) :
  let firsts := firstn (Z.to_nat limit)
                  (List.filter (recall_match tgs ph) (all_memories s)) in
  recall None tgs ph limit s = sort_ranked firsts
  /\ sort_ranked firsts ≡ₚ firsts
  /\ (elephant_wf s -> ranked (sort_ranked firsts))
  /\ (map echo_count (recall None None (Some "INTAKE") 1 second_echoed) = [0]
      /\ map echo_count
           (firstn 1 (sort_ranked (List.filter (recall_match None (Some "INTAKE"))
                                     (all_memories second_echoed)))) = [1]).
Proof.
  cbn zeta. split; [|split; [apply sort_ranked_perm|split]].
  - unfold recall. rewrite <- all_memories_concat.
    destruct (Z.leb_spec 1 limit) as [Hpos|Hneg].
    + rewrite recall_pages_firstn by (simpl; lia).
      cbn [app length]. rewrite Nat.sub_0_r.
      unfold slice_to. destruct (Z.leb_spec 0 limit); [|lia].
      apply firstn_all2. rewrite length_sort_ranked, length_firstn. lia.
    + replace (Z.to_nat limit) with 0 by lia. cbn [firstn].
      pose proof (recall_pages_short tgs ph limit
                    (map (page_memories s) (seq 1 TOTAL_PAGES)) ltac:(lia)) as Hshort.
      rewrite <- (length_sort_ranked _) in Hshort.
      unfold slice_to. destruct (Z.leb_spec 0 limit).
      * by replace limit with 0%Z by lia.
      * replace (length _ - Z.to_nat (- limit)) with 0 by lia. done.
  - intros Hwf. apply sort_ranked_sorted.
    apply Forall_forall. intros m Hm.
    apply (proj1 (Forall_forall _ _) (wf_all_memories_strength s Hwf)).
    apply subseteq_take, list_elem_of_In, List.filter_In in Hm as [Hm _].
    by apply list_elem_of_In.
  - split; vm_compute; reflexivity.
Qed.

Lemma second_echoed_reachable : reachable second_echoed.
Proof. by eexists _, _, _, _. Qed.

(** An instance of C10: two memories, the later one with the higher rank. *)
Lemma C10_recall_limit_before_rank_witness :
  ranked (sort_ranked
            (firstn (Z.to_nat 1)
               (List.filter (recall_match None (Some "INTAKE"))
                  (all_memories second_echoed)))).
Proof.
  apply (C10_recall_limit_before_rank second_echoed None (Some "INTAKE") 1).
  apply reachable_wf, second_echoed_reachable.
Defined.

Import PyFacts ShaFacts.

(** *** The counters of the phase methods *)

Lemma stats_delta_refl (st : Stats) : stats_delta st st 0 0 0 0 0.
Proof. unfold stats_delta. by rewrite !Nat.add_0_r. Qed.

Lemma trunk_sort_stats (s : ElephantMemory) :
  elephant_wf s ->
  exists n s', trunk_sort s = Ok n s' /\ advanced trunk_sort_body s n s'
               /\ stats_delta (stats s) (stats s') 0 0 0 0 n
               /\ generations s' = generations s
               /\ current_generation s' = current_generation s.
Proof.
  intros Hwf.
  destruct (advance_wf "INTAKE" "TRUNK_SORT" 1 9 (seq 2 7) trunk_sort_body
              (fun st => st) s Hwf trunk_sort_body_ok) as (pg' & Hadv & Hwf');
    [done..|rest_pages|].
  cbn zeta in Hadv, Hwf'. unfold trunk_sort.
  change (phase_pages "INTAKE") with (1 :: seq 2 7). rewrite Hadv.
  assert (forall n st, Nat.iter n (fun st : Stats => st) st = st) as Hid
    by (intros n st; induction n; simpl; congruence).
  match goal with |- context [Nat.ltb 0 ?n] => destruct (Nat.ltb_spec 0 n) as [Hn|Hn] end;
    eexists _, _; (split; [reflexivity|]);
    (split; [split; try done; (eapply wf_ext; [..|exact Hwf']; reflexivity)|]);
    (split; [|done]); cbn [stats with_stats with_pages with_heap]; rewrite Hid.
  - unfold stats_delta. simpl. lia.
  - match goal with |- stats_delta _ _ _ _ _ _ ?n => replace n with 0 by lia end.
    apply stats_delta_refl.
Qed.

Lemma herd_consensus_stats (s : ElephantMemory) :
  elephant_wf s ->
  exists n s', herd_consensus s = Ok n s' /\ advanced herd_consensus_body s n s'
               /\ stats_delta (stats s) (stats s') 0 0 0 n 0
               /\ generations s' = generations s
               /\ current_generation s' = current_generation s.
Proof.
  intros Hwf. unfold herd_consensus.
  match goal with |- context [advance_pages _ ?onp] =>
    destruct (advance_wf "TRUNK_SORT" "HERD_CONSENSUS" 9 17 (seq 10 7)
                herd_consensus_body onp s Hwf herd_consensus_body_ok)
      as (pg' & Hadv & Hwf'); [done..|rest_pages|];
    assert (forall n st, stats_delta st (Nat.iter n onp st) 0 0 0 n 0) as Hit
  end.
  { intros n st. induction n as [|n IH]; [apply stats_delta_refl|].
    unfold stats_delta in *. simpl. lia. }
  cbn zeta in Hadv, Hwf'.
  change (phase_pages "TRUNK_SORT") with (9 :: seq 10 7). rewrite Hadv.
  eexists _, _; (split; [reflexivity|]); (split; [by split|]).
  split; [apply Hit|done].
Qed.

Lemma memory_encode_stats (s : ElephantMemory) :
  elephant_wf s ->
  exists n s', memory_encode s = Ok n s'
               /\ advanced (memory_encode_body (tag_index s)) s n s'
               /\ stats s' = stats s
               /\ generations s' = generations s
               /\ current_generation s' = current_generation s.
Proof.
  intros Hwf. unfold memory_encode.
  destruct (advance_wf "HERD_CONSENSUS" "MEMORY_ENCODE" 17 25 (seq 18 7)
              (memory_encode_body (tag_index s)) (fun st => st) s Hwf
              (memory_encode_body_ok _)) as (pg' & Hadv & Hwf');
    [done..|rest_pages|].
  cbn zeta in Hadv, Hwf'.
  change (phase_pages "HERD_CONSENSUS") with (17 :: seq 18 7). rewrite Hadv.
  assert (forall n st, Nat.iter n (fun st : Stats => st) st = st) as Hid
    by (intros n st; induction n; simpl; congruence).
  eexists _, _; (split; [reflexivity|]); (split; [by split|]).
  split; [apply Hid|done].
Qed.

Lemma generational_pass_stats (now : string) (s : ElephantMemory) :
  elephant_wf s ->
  exists n s', generational_pass now s = Ok n s'
               /\ advanced generational_pass_body s n s'
               /\ (if Nat.ltb 10 n
                   then exists snap,
                         generations s' = generations s ++ [snap]
                         /\ snap_generation snap = current_generation s
                         /\ current_generation s' = S (current_generation s)
                         /\ stats_delta (stats s) (stats s') 0 0 1 0 0
                   else generations s' = generations s
                        /\ current_generation s' = current_generation s
                        /\ stats s' = stats s).
Proof.
  intros Hwf. unfold generational_pass.
  destruct (advance_wf "MEMORY_ENCODE" "GENERATIONAL_PASS" 25 33 (seq 26 7)
              generational_pass_body (fun st => st) s Hwf
              generational_pass_body_ok) as (pg' & Hadv & Hwf');
    [done..|rest_pages|].
  cbn zeta in Hadv, Hwf'.
  change (phase_pages "MEMORY_ENCODE") with (25 :: seq 26 7). rewrite Hadv.
  assert (forall n st, Nat.iter n (fun st : Stats => st) st = st) as Hid
    by (intros n st; induction n; simpl; congruence).
  match goal with |- context [Nat.ltb 10 ?n] => destruct (Nat.ltb 10 n) eqn:E end;
    eexists _, _; (split; [reflexivity|]); rewrite E; (split; [split; try done|]).
  - by apply snapshot_wf.
  - eexists. split; [reflexivity|]. split; [done|]. split; [done|].
    cbn [stats _create_generation_snapshot with_stats with_pages with_heap].
    rewrite Hid. unfold stats_delta. simpl. lia.
  - split; [done|]. split; [done|]. apply Hid.
Qed.

Lemma echo_amplify_stats (s : ElephantMemory) :
  elephant_wf s ->
  exists n s', echo_amplify s = Ok n s' /\ advanced echo_amplify_body s n s'
               /\ stats_delta (stats s) (stats s') 0 n 0 0 0
               /\ generations s' = generations s
               /\ current_generation s' = current_generation s.
Proof.
  intros Hwf. unfold echo_amplify.
  match goal with |- context [advance_pages _ ?onp] =>
    destruct (advance_wf "GENERATIONAL_PASS" "ECHO_AMPLIFY" 33 41 (seq 34 7)
                echo_amplify_body onp s Hwf echo_amplify_body_ok)
      as (pg' & Hadv & Hwf'); [done..|rest_pages|];
    assert (forall n st, stats_delta st (Nat.iter n onp st) 0 n 0 0 0) as Hit
  end.
  { intros n st. induction n as [|n IH]; [apply stats_delta_refl|].
    unfold stats_delta in *. simpl. lia. }
  cbn zeta in Hadv, Hwf'.
  change (phase_pages "GENERATIONAL_PASS") with (33 :: seq 34 7). rewrite Hadv.
  eexists _, _; (split; [reflexivity|]); (split; [by split|]).
  split; [apply Hit|done].
Qed.

(** Induction over the runs of a fresh system: a property that holds
    at the start, is kept by [ingest] and by each phase method on
    well-formed states, and does not depend on the loop counter, holds in
    every state reached. *)
Lemma reachable_ind (P : ElephantMemory -> Prop) :
  (forall cube rate t0, P (init cube rate t0)) ->
  (forall s o, elephant_wf s -> P s ->
               match o with BreathCycle _ _ => False | _ => True end ->
               P (run_op o s)) ->
  (forall s t, P s -> P (finish_cycle t s)) ->
  forall s, reachable s -> P s.
Proof.
  intros Hinit Hstep Hfin s (cube & rate & t0 & ops & ->).
  assert (forall s0, elephant_wf s0 -> P s0 -> P (run ops s0)) as H.
  { induction ops as [|o ops IH]; intros s0 Hwf HP; [done|].
    cbn [run fold_left]. apply IH; [by apply run_op_wf|].
    destruct o as [now now40 breath c tgs| | | |now| |now t];
      try (by apply Hstep).
    rewrite run_cycle_steps by done. apply Hfin.
    unfold cycle_steps, run. cbn [fold_left].
    repeat (apply Hstep; [repeat apply run_op_wf; done| |done]). done. }
  apply H; [apply elephant_init_wf|apply Hinit].
Qed.

Lemma sum_echoes_same (g : Memory -> Memory) (h : list Memory) :
  (forall m, echo_count (g m) = echo_count m) ->
  sum_echoes (g <$> h) = sum_echoes h.
Proof.
  intros H. induction h as [|m h IH]; [done|].
  rewrite fmap_cons. unfold sum_echoes in *. cbn [foldr]. by rewrite H, IH.
Qed.

Lemma sum_echoes_promote (body : Memory -> Memory * bool) (h : list Memory) :
  (forall m, echo_count (fst (body m))
             = echo_count m + (if snd (body m) then 1 else 0)) ->
  sum_echoes ((fun m => fst (body m)) <$> h)
  = sum_echoes h + length (List.filter (fun m => snd (body m)) h).
Proof.
  intros H. induction h as [|m h IH]; [done|].
  rewrite fmap_cons. unfold sum_echoes in *. cbn [foldr List.filter].
  rewrite H, IH. destruct (snd (body m)); simpl; lia.
Qed.

Lemma count_same (f : Memory -> bool) (g : Memory -> Memory) (h : list Memory) :
  (forall m, f (g m) = f m) ->
  length (List.filter f (g <$> h)) = length (List.filter f h).
Proof.
  intros H. induction h as [|m h IH]; [done|].
  rewrite fmap_cons. cbn [List.filter]. rewrite H.
  destruct (f m); simpl; by rewrite IH.
Qed.

Lemma count_promote (f : Memory -> bool) (body : Memory -> Memory * bool)
    (h : list Memory) :
  (forall m, f (fst (body m)) = f m || snd (body m)) ->
  (forall m, snd (body m) = true -> f m = false) ->
  length (List.filter f ((fun m => fst (body m)) <$> h))
  = length (List.filter f h) + length (List.filter (fun m => snd (body m)) h).
Proof.
  intros H1 H2. induction h as [|m h IH]; [done|].
  rewrite fmap_cons. cbn [List.filter]. rewrite H1.
  destruct (snd (body m)) eqn:E.
  - rewrite (H2 m E). simpl. rewrite IH. lia.
  - rewrite orb_false_r. destruct (f m); simpl; rewrite IH; lia.
Qed.

Lemma sum_echoes_app (h h' : list Memory) :
  sum_echoes (h ++ h') = sum_echoes h + sum_echoes h'.
Proof.
  unfold sum_echoes. induction h as [|a h IH]; simpl; [done|]. rewrite IH. lia.
Qed.

Lemma sum_echoes_alter (l : loc) (h : list Memory) (m : Memory) :
  h !! l = Some m -> sum_echoes (alter echo_bump l h) = S (sum_echoes h).
Proof.
  revert l. induction h as [|a h IH]; intros l Hm; [done|].
  destruct l as [|l]; unfold sum_echoes, alter in *; simpl in *.
  - injection Hm as ->. simpl. lia.
  - rewrite (IH l Hm). lia.
Qed.

Lemma count_alter (f : Memory -> bool) (l : loc) (h : list Memory) :
  (forall x, f (echo_bump x) = f x) ->
  length (List.filter f (alter echo_bump l h)) = length (List.filter f h).
Proof.
  intros Hf. revert l. induction h as [|a h IH]; intros l; [done|].
  destruct l as [|l]; unfold alter in *; simpl.
  - rewrite Hf. by destruct (f a).
  - destruct (f a); simpl; by rewrite IH.
Qed.

(** A count that depends on the phase only, over the heap a phase
    method leaves. *)
Lemma count_phase_same (F : string -> bool) (src dst_ph : string) (dst : nat)
    (body : Memory -> Memory * bool) (h : list Memory) :
  body_ok src dst_ph dst body ->
  F dst_ph = F src ->
  length (List.filter (fun m => F (phase m)) ((fun m => fst (body m)) <$> h))
  = length (List.filter (fun m => F (phase m)) h) + 0.
Proof.
  intros Hb HF. rewrite Nat.add_0_r.
  apply (count_same (fun m => F (phase m))). intros m.
  destruct (snd (body m)) eqn:E.
  - destruct (b_promoted _ _ _ _ Hb m E) as [-> _].
    destruct (decide (phase m = src)) as [->|Hne]; [done|].
    rewrite (b_skip _ _ _ _ Hb m Hne) in E. done.
  - by destruct (b_stay _ _ _ _ Hb m E) as [-> _].
Qed.

Lemma count_phase_promote (F : string -> bool) (src dst_ph : string) (dst : nat)
    (body : Memory -> Memory * bool) (h : list Memory) :
  body_ok src dst_ph dst body ->
  F src = false -> F dst_ph = true ->
  length (List.filter (fun m => F (phase m)) ((fun m => fst (body m)) <$> h))
  = length (List.filter (fun m => F (phase m)) h)
    + length (List.filter (fun m => snd (body m)) h).
Proof.
  intros Hb Hs Hd.
  assert (forall m, snd (body m) = true -> phase m = src) as Hsrc.
  { intros m E. destruct (decide (phase m = src)) as [|Hne]; [done|].
    rewrite (b_skip _ _ _ _ Hb m Hne) in E. done. }
  apply (count_promote (fun m => F (phase m))).
  - intros m. destruct (snd (body m)) eqn:E.
    + destruct (b_promoted _ _ _ _ Hb m E) as [-> _]. by rewrite Hd, orb_true_r.
    + destruct (b_stay _ _ _ _ Hb m E) as [-> _]. by rewrite orb_false_r.
  - intros m E. by rewrite (Hsrc m E).
Qed.

Lemma trunk_sort_body_echo (m : Memory) :
  echo_count (fst (trunk_sort_body m)) = echo_count m.
Proof.
  unfold trunk_sort_body. destruct (String.eqb _ _); [|done].
  by destruct (_ || _).
Qed.

Lemma herd_consensus_body_echo (m : Memory) :
  echo_count (fst (herd_consensus_body m)) = echo_count m.
Proof.
  unfold herd_consensus_body. destruct (String.eqb _ _); [|done].
  by destruct (Nat.leb _ _).
Qed.

Lemma memory_encode_body_echo (ti : list (string * list string)) (m : Memory) :
  echo_count (fst (memory_encode_body ti m)) = echo_count m.
Proof. unfold memory_encode_body. by destruct (String.eqb _ _). Qed.

Lemma generational_pass_body_echo (m : Memory) :
  echo_count (fst (generational_pass_body m)) = echo_count m.
Proof. unfold generational_pass_body. by destruct (String.eqb _ _). Qed.

Lemma echo_amplify_body_echo (m : Memory) :
  echo_count (fst (echo_amplify_body m))
  = echo_count m + (if snd (echo_amplify_body m) then 1 else 0).
Proof. unfold echo_amplify_body. destruct (String.eqb _ _); simpl; lia. Qed.

Lemma stats_ok_advance (body : Memory -> Memory * bool) (s s' : ElephantMemory)
    (n de dv dt : nat) :
  stats_ok s ->
  advanced body s n s' ->
  stats_delta (stats s) (stats s') 0 de 0 dv dt ->
  generations s' = generations s ->
  current_generation s' = current_generation s ->
  sum_echoes ((fun m => fst (body m)) <$> heap s) = sum_echoes (heap s) + de ->
  length (List.filter past_intake ((fun m => fst (body m)) <$> heap s))
  = length (List.filter past_intake (heap s)) + dt ->
  length (List.filter validated ((fun m => fst (body m)) <$> heap s))
  = length (List.filter validated (heap s)) + dv ->
  stats_ok s'.
Proof.
  intros [O1 O2 O3 O4 O5 O6 O7] A (D1 & D2 & D3 & D4 & D5) Hg Hc He Ht Hv.
  split; rewrite ?(adv_heap _ _ _ _ A), ?Hg, ?Hc, ?length_fmap; try done; lia.
Qed.

Lemma stats_ok_step (s : ElephantMemory) (o : op) :
  elephant_wf s -> stats_ok s ->
  match o with BreathCycle _ _ => False | _ => True end ->
  stats_ok (run_op o s).
Proof.
  intros Hwf Hok Ho.
  destruct o as [now now40 breath c tgs| | | |now| |now t]; [..|done]; cbn [run_op].
  - (* ingest *)
    destruct Hok as [O1 O2 O3 O4 O5 O6 O7].
    unfold ingest. destruct (_compute_genome c) as [g|]; [|by split].
    destruct (genome_index s !! g) as [l|] eqn:Hl.
    + cbn [Store40D.state_of].
      apply (wf_genome_index s Hwf) in Hl as (m & Hm & _).
      assert (sum_echoes (alter echo_bump l (heap s)) = S (sum_echoes (heap s))) as He.
      { by apply (sum_echoes_alter l (heap s) m). }
      assert (forall f : Memory -> bool, (forall x, f (echo_bump x) = f x) ->
                length (List.filter f (alter echo_bump l (heap s)))
                = length (List.filter f (heap s))) as Hf.
      { intros f Hfx. by apply count_alter. }
      split; cbn [stats heap with_stats with_heap generations current_generation
                  total_memories total_echoes total_generations stat_herd_validations
                  phase_transitions]; rewrite ?length_alter, ?He, ?Hf; try done; lia.
    + assert (forall st' e,
                stats_ok
                  {| store40d := e; decay_rate := decay_rate s;
                     heap := heap s ++ [new_memory now c g tgs s];
                     pages := <[1:=pages s !!! 1 ++ [length (heap s)]]> (pages s);
                     genome_index := <[g:=length (heap s)]> (genome_index s);
                     tag_index := st';
                     generations := generations s;
                     current_generation := current_generation s;
                     stats := {| total_memories := S (total_memories (stats s));
                                 total_echoes := total_echoes (stats s);
                                 total_generations := total_generations (stats s);
                                 stat_herd_validations := stat_herd_validations (stats s);
                                 phase_transitions := phase_transitions (stats s);
                                 stat_avg_strength := stat_avg_strength (stats s) |};
                     loop_active := loop_active s; loop_count := loop_count s;
                     last_breath := last_breath s |}) as Hnew.
      { intros st' e.
        assert (sum_echoes (heap s ++ [new_memory now c g tgs s]) = sum_echoes (heap s)) as He.
        { rewrite sum_echoes_app. simpl. lia. }
        assert (forall f : Memory -> bool, f (new_memory now c g tgs s) = false ->
                  length (List.filter f (heap s ++ [new_memory now c g tgs s]))
                  = length (List.filter f (heap s))) as Hf.
        { intros f Hfx. rewrite List.filter_app. simpl. rewrite Hfx.
          by rewrite app_nil_r. }
        split; cbn [stats heap generations current_generation
                    total_memories total_echoes total_generations stat_herd_validations
                    phase_transitions]; rewrite ?length_app, ?He, ?Hf; simpl; try done; lia. }
      destruct (store40d s) as [cube|]; [|apply Hnew].
      match goal with |- context [Store40D.store ?a ?b ?d ?cu] =>
        destruct (Store40D.store a b d cu) end; apply Hnew.
  - destruct (trunk_sort_stats s Hwf) as (n & s' & -> & A & D & Hg & Hc).
    cbn [Store40D.state_of]. rewrite (adv_count _ _ _ _ A) in D.
    eapply (stats_ok_advance trunk_sort_body s s'); [done..| | |].
    + rewrite sum_echoes_same; [lia|]. apply trunk_sort_body_echo.
    + apply (count_phase_promote (fun ph => negb (String.eqb ph "INTAKE"))
                  "INTAKE" "TRUNK_SORT" 9 _ _ trunk_sort_body_ok); reflexivity.
    + apply (count_phase_same (fun ph => match phase_rank ph with
                                            | Some r => Nat.leb 2 r | None => false end)
                  "INTAKE" "TRUNK_SORT" 9 _ _ trunk_sort_body_ok); reflexivity.
  - destruct (herd_consensus_stats s Hwf) as (n & s' & -> & A & D & Hg & Hc).
    cbn [Store40D.state_of]. rewrite (adv_count _ _ _ _ A) in D.
    eapply (stats_ok_advance herd_consensus_body s s'); [done..| | |].
    + rewrite sum_echoes_same; [lia|]. apply herd_consensus_body_echo.
    + apply (count_phase_same (fun ph => negb (String.eqb ph "INTAKE"))
                  "TRUNK_SORT" "HERD_CONSENSUS" 17 _ _ herd_consensus_body_ok); reflexivity.
    + apply (count_phase_promote (fun ph => match phase_rank ph with
                                               | Some r => Nat.leb 2 r | None => false end)
                  "TRUNK_SORT" "HERD_CONSENSUS" 17 _ _ herd_consensus_body_ok); reflexivity.
  - destruct (memory_encode_stats s Hwf) as (n & s' & -> & A & D & Hg & Hc).
    cbn [Store40D.state_of].
    eapply (stats_ok_advance (memory_encode_body (tag_index s)) s s' n 0 0 0);
      [done..|rewrite D; apply stats_delta_refl|done|done| | |].
    + rewrite sum_echoes_same; [lia|]. apply memory_encode_body_echo.
    + apply (count_phase_same (fun ph => negb (String.eqb ph "INTAKE"))
                  "HERD_CONSENSUS" "MEMORY_ENCODE" 25 _ _ (memory_encode_body_ok _)); reflexivity.
    + apply (count_phase_same (fun ph => match phase_rank ph with
                                            | Some r => Nat.leb 2 r | None => false end)
                  "HERD_CONSENSUS" "MEMORY_ENCODE" 25 _ _ (memory_encode_body_ok _)); reflexivity.
  - destruct (generational_pass_stats now s Hwf) as (n & s' & -> & A & D).
    cbn [Store40D.state_of].
    assert (sum_echoes ((fun m => fst (generational_pass_body m)) <$> heap s)
            = sum_echoes (heap s)) as He
      by (apply sum_echoes_same, generational_pass_body_echo).
    assert (length (List.filter past_intake
                      ((fun m => fst (generational_pass_body m)) <$> heap s))
            = length (List.filter past_intake (heap s))) as Ht.
    { rewrite <- (Nat.add_0_r (length (List.filter past_intake (heap s)))).
      apply (count_phase_same (fun ph => negb (String.eqb ph "INTAKE"))
                  "MEMORY_ENCODE" "GENERATIONAL_PASS" 33 _ _ generational_pass_body_ok); reflexivity. }
    assert (length (List.filter validated
                      ((fun m => fst (generational_pass_body m)) <$> heap s))
            = length (List.filter validated (heap s))) as Hv.
    { rewrite <- (Nat.add_0_r (length (List.filter validated (heap s)))).
      apply (count_phase_same (fun ph => match phase_rank ph with
                                            | Some r => Nat.leb 2 r | None => false end)
                  "MEMORY_ENCODE" "GENERATIONAL_PASS" 33 _ _ generational_pass_body_ok); reflexivity. }
    destruct Hok as [O1 O2 O3 O4 O5 O6 O7].
    destruct (Nat.ltb 10 n).
    + destruct D as (snap & Hg & Hsn & Hc & D1 & D2 & D3 & D4 & D5).
      split; rewrite ?(adv_heap _ _ _ _ A), ?Hg, ?Hc, ?length_fmap, ?He, ?Ht, ?Hv,
               ?length_app; simpl; try lia.
      intros i sn. rewrite lookup_app_Some. intros [H|[Hi H]]; [by apply O7|].
      destruct (i - length (generations s)) as [|k] eqn:E; [|by destruct k].
      injection H as <-. lia.
    + destruct D as (Hg & Hc & D).
      split; rewrite ?(adv_heap _ _ _ _ A), ?Hg, ?Hc, ?D, ?length_fmap, ?He, ?Ht, ?Hv;
        done.
  - destruct (echo_amplify_stats s Hwf) as (n & s' & -> & A & D & Hg & Hc).
    cbn [Store40D.state_of]. rewrite (adv_count _ _ _ _ A) in D.
    eapply (stats_ok_advance echo_amplify_body s s'); [done..| | |].
    + apply sum_echoes_promote, echo_amplify_body_echo.
    + apply (count_phase_same (fun ph => negb (String.eqb ph "INTAKE"))
                  "GENERATIONAL_PASS" "ECHO_AMPLIFY" 41 _ _ echo_amplify_body_ok); reflexivity.
    + apply (count_phase_same (fun ph => match phase_rank ph with
                                            | Some r => Nat.leb 2 r | None => false end)
                  "GENERATIONAL_PASS" "ECHO_AMPLIFY" 41 _ _ echo_amplify_body_ok); reflexivity.
Qed.

Lemma reachable_stats_ok (s : ElephantMemory) : reachable s -> stats_ok s.
Proof.
  apply reachable_ind.
  - intros cube rate t0. by split.
  - apply stats_ok_step.
  - intros s0 t [O1 O2 O3 O4 O5 O6 O7]. by split.
Qed.

(** *** The memories of the pages are the memories of the heap *)

Lemma elem_of_concat_map {A B : Type} (f : A -> list B) (ps : list A) (x : B) :
  x ∈ concat (map f ps) <-> exists p, p ∈ ps /\ x ∈ f p.
Proof.
  induction ps as [|p ps IH]; simpl.
  - split; [by intros ?%elem_of_nil|]. by intros (p & ?%elem_of_nil & _).
  - rewrite elem_of_app, IH. split.
    + intros [H|(q & Hq & H)]; [exists p|exists q]; split; try done; by constructor.
    + intros (q & [->|Hq]%elem_of_cons & H); [by left|right; eauto].
Qed.

Lemma NoDup_concat_pages (f : nat -> list nat) (ps : list nat) :
  NoDup ps ->
  (forall p, NoDup (f p)) ->
  (forall p q x, x ∈ f p -> x ∈ f q -> p = q) ->
  NoDup (concat (map f ps)).
Proof.
  intros Hps Hf Hdis. induction Hps as [|p ps Hp Hps IH]; simpl; [constructor|].
  apply NoDup_app. split; [apply Hf|]. split; [|exact IH].
  intros x Hx Hin. apply elem_of_concat_map in Hin as (q & Hq & Hxl).
  rewrite (Hdis p q x Hx Hxl) in Hp. done.
Qed.

Lemma all_refs_perm (s : ElephantMemory) :
  elephant_wf s -> all_refs s ≡ₚ seq 0 (length (heap s)).
Proof.
  intros Hwf. apply NoDup_Permutation.
  - apply NoDup_concat_pages; [apply NoDup_seq|apply (wf_nodup s Hwf)|].
    intros p q x Hp Hq.
    destruct (wf_in_page s Hwf x p Hp) as (m & Hm & <-).
    destruct (wf_in_page s Hwf x q Hq) as (m' & Hm' & <-). congruence.
  - apply NoDup_seq.
  - intros l. rewrite elem_of_seq. unfold all_refs. split.
    + intros (p & _ & Hl)%elem_of_concat_map.
      destruct (wf_in_page s Hwf l p Hl) as (m & Hm & _).
      apply lookup_lt_Some in Hm. lia.
    + intros [_ Hl]. destruct (lookup_lt_is_Some_2 (heap s) l Hl) as [m Hm].
      destruct (wf_home s Hwf l m Hm) as [Hin Hh].
      apply elem_of_concat_map. exists (page m). split; [|done].
      apply elem_of_seq. destruct (home_page_cases _ _ Hh) as
        [[_ ->]|[[_ ->]|[[_ ->]|[[_ ->]|[[_ ->]|[_ ->]]]]]]; unfold TOTAL_PAGES; lia.
Qed.

Lemma omap_lookup_seq {A : Type} (h pre : list A) :
  omap (fun r => (pre ++ h) !! r) (seq (length pre) (length h)) = h.
Proof.
  revert pre. induction h as [|a h IH]; intros pre; [done|].
  cbn [length seq omap list_omap]. rewrite list_lookup_middle by done.
  f_equal. specialize (IH (pre ++ [a])).
  rewrite length_app, Nat.add_1_r, <- app_assoc in IH. exact IH.
Qed.

Lemma all_memories_perm (s : ElephantMemory) :
  elephant_wf s -> all_memories s ≡ₚ heap s.
Proof.
  intros Hwf. unfold all_memories.
  rewrite (omap_Permutation _ _ _ (all_refs_perm s Hwf)).
  pose proof (omap_lookup_seq (heap s) []) as H. simpl in H. by rewrite H.
Qed.

Lemma sum_echoes_perm (h h' : list Memory) :
  h ≡ₚ h' -> sum_echoes h = sum_echoes h'.
Proof.
  unfold sum_echoes. induction 1; simpl; lia.
Qed.

Lemma count_perm (f : Memory -> bool) (h h' : list Memory) :
  h ≡ₚ h' -> length (List.filter f h) = length (List.filter f h').
Proof.
  induction 1 as [|x l l' _ IH|x y l|l l' l'' _ IH1 _ IH2]; simpl; [done|..].
  - destruct (f x); simpl; by rewrite IH.
  - by destruct (f x), (f y).
  - by rewrite IH1.
Qed.

(** *** [_count_by_phase] *)

Lemma count_of_incr (ph ph' : string) (counts : list (string * nat)) :
  count_of ph' (count_incr ph counts)
  = count_of ph' counts + (if String.eqb ph' ph then 1 else 0).
Proof.
  unfold count_of. induction counts as [|[k n] counts IH]; simpl.
  - by destruct (String.eqb ph' ph).
  - destruct (String.eqb_spec ph k) as [->|Hne]; simpl.
    + destruct (String.eqb_spec ph' k) as [->|Hne']; simpl; lia.
    + destruct (String.eqb_spec ph' k) as [->|Hne']; simpl.
      * destruct (String.eqb_spec k ph); [by subst|lia].
      * exact IH.
Qed.

Lemma count_incr_keys (ph : string) (counts : list (string * nat)) :
  NoDup (map fst counts) -> Forall (fun kv => 0 < snd kv) counts ->
  NoDup (map fst (count_incr ph counts))
  /\ Forall (fun kv => 0 < snd kv) (count_incr ph counts)
  /\ forall k, k ∈ map fst (count_incr ph counts) <-> k = ph \/ k ∈ map fst counts.
Proof.
  induction counts as [|[k n] counts IH]; simpl; intros Hnd Hpos.
  - split; [repeat constructor; by intros ?%elem_of_nil|].
    split; [repeat constructor|]. intros k. rewrite list_elem_of_singleton.
    split; [by left|]. intros [H|H%elem_of_nil]; done.
  - apply NoDup_cons in Hnd as [Hk Hnd]. apply Forall_cons in Hpos as [Hn Hpos].
    destruct (IH Hnd Hpos) as (IH1 & IH2 & IH3).
    destruct (String.eqb_spec ph k) as [->|Hne]; simpl.
    + split; [by constructor|]. split; [constructor; [simpl; lia|done]|].
      intros k'. rewrite elem_of_cons. naive_solver.
    + split; [constructor; [|done]|].
      * rewrite IH3. intros [H|H]; [by subst|done].
      * split; [by constructor|]. intros k'. rewrite !elem_of_cons, IH3. naive_solver.
Qed.

Lemma count_by_phase_fold (ms : list Memory) (counts : list (string * nat)) :
  NoDup (map fst counts) -> Forall (fun kv => 0 < snd kv) counts ->
  let r := fold_left (fun counts m => count_incr (phase m) counts) ms counts in
  NoDup (map fst r)
  /\ Forall (fun kv => 0 < snd kv) r
  /\ forall ph, count_of ph r
       = count_of ph counts
         + length (List.filter (fun m => String.eqb (phase m) ph) ms).
Proof.
  revert counts. induction ms as [|m ms IH]; intros counts Hnd Hpos; cbn zeta.
  - simpl. split; [done|]. split; [done|]. intros ph. lia.
  - cbn [fold_left List.filter].
    destruct (count_incr_keys (phase m) counts Hnd Hpos) as (H1 & H2 & _).
    destruct (IH _ H1 H2) as (I1 & I2 & I3). cbn zeta in I1, I2, I3.
    split; [done|]. split; [done|]. intros ph. rewrite I3, count_of_incr.
    rewrite (String.eqb_sym ph (phase m)).
    destruct (String.eqb (phase m) ph); simpl; lia.
Qed.

Lemma sum_counts_incr (ph : string) (counts : list (string * nat)) :
  sum_counts (count_incr ph counts) = S (sum_counts counts).
Proof.
  unfold sum_counts. induction counts as [|[k n] counts IH]; simpl; [done|].
  destruct (String.eqb ph k); simpl; [lia|]. rewrite IH. lia.
Qed.

Lemma sum_counts_fold (ms : list Memory) (counts : list (string * nat)) :
  sum_counts (fold_left (fun counts m => count_incr (phase m) counts) ms counts)
  = sum_counts counts + length ms.
Proof.
  revert counts. induction ms as [|m ms IH]; intros counts; simpl; [lia|].
  rewrite IH, sum_counts_incr. lia.
Qed.

(** X12: the histogram of [_count_by_phase]: under each phase the number
    of memories of the pages that are in it, no phase twice, no phase
    without a memory, and the counts add up to the number of memories. *)
Theorem count_by_phase_exact (s : ElephantMemory) :
  NoDup (map fst (_count_by_phase s))
  /\ Forall (fun kv => 0 < snd kv) (_count_by_phase s)
  /\ (forall ph, count_of ph (_count_by_phase s)
        = length (List.filter (fun m => String.eqb (phase m) ph) (all_memories s)))
  /\ sum_counts (_count_by_phase s) = length (all_memories s).
Proof.
  destruct (count_by_phase_fold (all_memories s) []) as (H1 & H2 & H3);
    [constructor|constructor|].
  split; [exact H1|]. split; [exact H2|]. split; [exact H3|].
  unfold _count_by_phase. by rewrite sum_counts_fold.
Qed.

(** *** [_get_top_tags] *)

Lemma insert_tag_count_perm (x : string * nat) (l : list (string * nat)) :
  insert_tag_count x l ≡ₚ x :: l.
Proof.
  induction l as [|y l IH]; [reflexivity|]. simpl.
  destruct (Nat.ltb (snd y) (snd x)); [reflexivity|].
  rewrite IH. apply perm_swap.
Qed.

Lemma insert_tag_count_sorted (x : string * nat) (l : list (string * nat)) :
  by_count l -> by_count (insert_tag_count x l).
Proof.
  unfold by_count. induction 1 as [|y l Hs IH Hall]; simpl.
  - repeat constructor.
  - destruct (Nat.ltb_spec (snd y) (snd x)).
    + constructor; [by constructor|]. constructor; [lia|].
      eapply Forall_impl; [exact Hall|]. simpl. intros z ?. lia.
    + constructor; [exact IH|]. rewrite insert_tag_count_perm.
      constructor; [lia|exact Hall].
Qed.

Lemma sort_tag_counts (l acc : list (string * nat)) :
  by_count acc ->
  by_count (fold_left (fun acc x => insert_tag_count x acc) l acc)
  /\ fold_left (fun acc x => insert_tag_count x acc) l acc ≡ₚ acc ++ l.
Proof.
  revert acc. induction l as [|x l IH]; intros acc Hacc; simpl.
  - by rewrite app_nil_r.
  - destruct (IH _ (insert_tag_count_sorted x acc Hacc)) as [H1 H2].
    split; [exact H1|]. rewrite H2, insert_tag_count_perm.
    by rewrite <- Permutation_middle.
Qed.

(** X13: [_get_top_tags(limit)] returns the [limit] tags with the most
    genomes: the head of a list that holds every tag of the index once,
    with its count, in decreasing order of count. *)
Theorem top_tags_sorted (limit : nat) (s : ElephantMemory) :
  exists rest,
    _get_top_tags limit s ++ rest ≡ₚ tag_counts s
    /\ by_count (_get_top_tags limit s ++ rest)
    /\ length (_get_top_tags limit s) = Nat.min limit (length (tag_index s)).
Proof.
  unfold _get_top_tags. fold (tag_counts s).
  destruct (sort_tag_counts (tag_counts s) []) as [H1 H2]; [constructor|].
  simpl in H2.
  exists (skipn limit (fold_left (fun acc x => insert_tag_count x acc) (tag_counts s) [])).
  rewrite firstn_skipn. split; [exact H2|]. split; [exact H1|].
  rewrite length_firstn, (Permutation_length H2). unfold tag_counts.
  by rewrite length_map.
Qed.

(** *** [get_stats] and [get_generational_wisdom] *)

(** X14: the report of [get_stats] is consistent with the memories of the
    pages: [total_memories] is their number, [total_echoes] the sum of
    their echo counts, [phase_transitions] the number of those that have
    left INTAKE, [herd_validations] the number of those that have reached
    HERD_CONSENSUS, the histogram counts each phase, and
    [total_generations] is the current generation. *)
Theorem get_stats_consistent (s : ElephantMemory) :
  reachable s ->
  rep_total_memories (get_stats s) = length (all_memories s)
  /\ rep_total_echoes (get_stats s) = sum_echoes (all_memories s)
  /\ rep_phase_transitions (get_stats s)
     = length (List.filter past_intake (all_memories s))
  /\ rep_herd_validations (get_stats s)
     = length (List.filter validated (all_memories s))
  /\ rep_total_generations (get_stats s) = rep_current_generation (get_stats s)
  /\ sum_counts (rep_memories_by_phase (get_stats s)) = rep_total_memories (get_stats s)
  /\ forall ph, count_of ph (rep_memories_by_phase (get_stats s)) = count_in_phase ph s.
Proof.
  intros Hr. pose proof (reachable_wf s Hr) as Hwf.
  destruct (reachable_stats_ok s Hr) as [O1 O2 O3 O4 O5 O6 O7].
  pose proof (all_memories_perm s Hwf) as Hp.
  destruct (count_by_phase_fold (all_memories s) []) as (_ & _ & Hc);
    [constructor|constructor|].
  assert (Hsum : sum_counts (_count_by_phase s) = length (all_memories s))
    by (unfold _count_by_phase; by rewrite sum_counts_fold).
  fold (_count_by_phase s) in Hc. simpl in Hc.
  cbn [get_stats rep_total_memories rep_total_echoes rep_phase_transitions
       rep_herd_validations rep_total_generations rep_current_generation
       rep_memories_by_phase].
  split; [by rewrite O1, Hp|]. split; [by rewrite O2, (sum_echoes_perm _ _ Hp)|].
  split; [by rewrite O3, (count_perm _ _ _ Hp)|].
  split; [by rewrite O4, (count_perm _ _ _ Hp)|]. split; [done|].
  split; [by rewrite Hsum, O1, Hp|]. intros ph. rewrite Hc. unfold count_in_phase.
  by apply count_perm.
Qed.

Lemma reachable_run (ops : list op) (s : ElephantMemory) :
  reachable s -> reachable (run ops s).
Proof.
  intros (cube & rate & t0 & ops0 & ->). exists cube, rate, t0, (ops0 ++ ops).
  unfold run. by rewrite fold_left_app.
Qed.

Lemma twelve_second_reachable : reachable twelve_after_second_cycle.
Proof. apply reachable_run, twelve_reachable. Qed.

Lemma get_stats_consistent_witness :
  rep_total_memories (get_stats twelve_after_second_cycle)
  = length (all_memories twelve_after_second_cycle)
  /\ rep_total_echoes (get_stats twelve_after_second_cycle)
     = sum_echoes (all_memories twelve_after_second_cycle)
  /\ rep_phase_transitions (get_stats twelve_after_second_cycle)
     = length (List.filter past_intake (all_memories twelve_after_second_cycle))
  /\ rep_herd_validations (get_stats twelve_after_second_cycle)
     = length (List.filter validated (all_memories twelve_after_second_cycle))
  /\ rep_total_generations (get_stats twelve_after_second_cycle)
     = rep_current_generation (get_stats twelve_after_second_cycle)
  /\ sum_counts (rep_memories_by_phase (get_stats twelve_after_second_cycle))
     = rep_total_memories (get_stats twelve_after_second_cycle)
  /\ forall ph, count_of ph (rep_memories_by_phase (get_stats twelve_after_second_cycle))
                = count_in_phase ph twelve_after_second_cycle.
Proof.
  apply (get_stats_consistent twelve_after_second_cycle twelve_second_reachable).
Defined.

Lemma find_numbered (l : list Snapshot) (off : nat) (g : Z) :
  (forall i snap, l !! i = Some snap -> snap_generation snap = off + i) ->
  List.find (fun gen_data => Z.eqb (Z.of_nat (snap_generation gen_data)) g) l
  = if Z.leb (Z.of_nat off) g then l !! (Z.to_nat g - off) else None.
Proof.
  revert off. induction l as [|a l IH]; intros off H.
  - simpl. by destruct (Z.leb _ _).
  - cbn [List.find]. rewrite (H 0 a eq_refl), Nat.add_0_r.
    destruct (Z.eqb_spec (Z.of_nat off) g) as [<-|Hne].
    + rewrite Z.leb_refl, Nat2Z.id, Nat.sub_diag. done.
    + rewrite (IH (S off)).
      * destruct (Z.leb_spec (Z.of_nat off) g), (Z.leb_spec (Z.of_nat (S off)) g);
          try lia; [|done].
        replace (Z.to_nat g - off) with (S (Z.to_nat g - S off)) by lia. done.
      * intros i snap Hi. rewrite (H (S i) snap Hi). lia.
Qed.

(** X15: the archive of snapshots is numbered: in every state reached, it
    holds one snapshot per generation passed, the one of generation [i] at
    position [i]; so [get_generational_wisdom(g)] returns the snapshot at
    position [g] when [0 <= g < current_generation] and the empty
    dictionary otherwise, and without argument it reports the length of
    the archive, which is the current generation. *)
Theorem generational_wisdom_lookup (s : ElephantMemory) (g : Z) :
  reachable s ->
  length (generations s) = current_generation s
  /\ get_generational_wisdom (Some g) s
     = match (if Z.leb 0 g then generations s !! Z.to_nat g else None) with
       | Some snap => WisdomOf snap
       | None => WisdomNone
       end
  /\ get_generational_wisdom None s
     = WisdomAll (current_generation s) (current_generation s) (generations s).
Proof.
  intros Hr. destruct (reachable_stats_ok s Hr) as [O1 O2 O3 O4 O5 O6 O7].
  split; [exact O6|]. unfold get_generational_wisdom. rewrite O6. split; [|done].
  rewrite (find_numbered _ 0); [|exact O7]. by rewrite Nat.sub_0_r.
Qed.

Lemma generational_wisdom_lookup_witness :
  length (generations twelve_after_second_cycle)
  = current_generation twelve_after_second_cycle
  /\ get_generational_wisdom (Some 0%Z) twelve_after_second_cycle
     = match (if Z.leb 0 0 then generations twelve_after_second_cycle !! Z.to_nat 0
              else None) with
       | Some snap => WisdomOf snap
       | None => WisdomNone
       end
  /\ get_generational_wisdom None twelve_after_second_cycle
     = WisdomAll (current_generation twelve_after_second_cycle)
                 (current_generation twelve_after_second_cycle)
                 (generations twelve_after_second_cycle).
Proof.
  apply (generational_wisdom_lookup twelve_after_second_cycle 0%Z twelve_second_reachable).
Defined.

(** *** Associations *)

Lemma assoc_related_spec (self : string) (related acc : list string) :
  length acc < 5 -> NoDup acc -> self ∉ acc ->
  length (assoc_related self related acc) <= 5
  /\ NoDup (assoc_related self related acc)
  /\ (self ∉ assoc_related self related acc)
  /\ forall a, a ∈ assoc_related self related acc -> a ∈ acc \/ a ∈ related.
Proof.
  revert acc. induction related as [|g related IH]; intros acc Hlen Hnd Hself.
  - simpl. split; [lia|]. split; [done|]. split; [done|]. by left.
  - cbn [assoc_related].
    destruct (String.eqb_spec g self) as [->|Hne]; cbn [negb andb].
    + destruct (IH acc Hlen Hnd Hself) as (H1 & H2 & H3 & H4).
      split; [done|]. split; [done|]. split; [done|].
      intros a Ha. destruct (H4 a Ha); [by left|right; by right].
    + case_bool_decide as Hin; cbn [negb].
      * destruct (IH acc Hlen Hnd Hself) as (H1 & H2 & H3 & H4).
        split; [done|]. split; [done|]. split; [done|].
        intros a Ha. destruct (H4 a Ha); [by left|right; by right].
      * assert (NoDup (acc ++ [g])) as Hnd'.
        { apply NoDup_app. split; [done|]. split; [|apply NoDup_singleton].
          by intros x Hx ->%list_elem_of_singleton. }
        assert (self ∉ acc ++ [g]) as Hself'.
        { rewrite elem_of_app, list_elem_of_singleton. intros [H|H]; [done|].
          by apply Hne. }
        assert (forall a, a ∈ acc ++ [g] -> a ∈ acc \/ a ∈ g :: related) as Hsub.
        { intros a [H| ->%list_elem_of_singleton]%elem_of_app; [by left|].
          right. by left. }
        destruct (Nat.leb_spec 5 (length (acc ++ [g]))) as [Hfull|Hroom].
        -- rewrite length_app in *. simpl in *. split; [lia|]. done.
        -- destruct (IH (acc ++ [g]) Hroom Hnd' Hself') as (H1 & H2 & H3 & H4).
           split; [done|]. split; [done|]. split; [done|].
           intros a Ha. destruct (H4 a Ha) as [H|H]; [by apply Hsub|].
           right. by right.
Qed.

Lemma assoc_tags_spec (ti : list (string * list string)) (self : string)
    (tgs acc : list string) :
  length acc < 5 -> NoDup acc -> self ∉ acc ->
  length (assoc_tags ti self tgs acc) <= 5
  /\ NoDup (assoc_tags ti self tgs acc)
  /\ (self ∉ assoc_tags ti self tgs acc)
  /\ forall a, a ∈ assoc_tags ti self tgs acc ->
       a ∈ acc \/ exists t, t ∈ tgs /\ a ∈ tag_index_get t ti.
Proof.
  revert acc. induction tgs as [|tag tgs IH]; intros acc Hlen Hnd Hself.
  - simpl. split; [lia|]. split; [done|]. split; [done|]. by left.
  - cbn [assoc_tags].
    destruct (assoc_related_spec self (tag_index_get tag ti) acc Hlen Hnd Hself)
      as (R1 & R2 & R3 & R4).
    assert (forall a, a ∈ assoc_related self (tag_index_get tag ti) acc ->
              a ∈ acc \/ exists t, t ∈ tag :: tgs /\ a ∈ tag_index_get t ti) as Hsub.
    { intros a Ha. destruct (R4 a Ha) as [H|H]; [by left|].
      right. exists tag. split; [by left|done]. }
    destruct (Nat.leb_spec 5 (length (assoc_related self (tag_index_get tag ti) acc)))
      as [Hfull|Hroom].
    + done.
    + destruct (IH _ Hroom R2 R3) as (H1 & H2 & H3 & H4).
      split; [done|]. split; [done|]. split; [done|].
      intros a Ha. destruct (H4 a Ha) as [H|(t & Ht & H)]; [by apply Hsub|].
      right. exists t. split; [by right|done].
Qed.

Lemma find_associations_sound (ti : list (string * list string)) (m : Memory) :
  length (_find_associations ti m) <= 5
  /\ NoDup (_find_associations ti m)
  /\ (genome m ∉ _find_associations ti m)
  /\ forall a, a ∈ _find_associations ti m ->
       exists t, t ∈ tags m /\ a ∈ tag_index_get t ti.
Proof.
  unfold _find_associations.
  destruct (assoc_tags_spec ti (genome m) (tags m) []) as (H1 & H2 & H3 & H4);
    [simpl; lia|constructor|by intros ?%elem_of_nil|].
  split; [done|]. split; [done|]. split; [done|].
  intros a Ha. destruct (H4 a Ha) as [H%elem_of_nil|H]; done.
Qed.

Lemma tag_index_get_append (t tag g : string) (ti : list (string * list string)) :
  tag_index_get t (tag_index_append tag g ti)
  = if String.eqb t tag then tag_index_get t ti ++ [g] else tag_index_get t ti.
Proof.
  induction ti as [|[k gs] ti IH]; simpl.
  - by destruct (String.eqb t tag).
  - destruct (String.eqb_spec tag k) as [->|Hne]; simpl.
    + by destruct (String.eqb_spec t k).
    + destruct (String.eqb_spec t k) as [->|Hne']; simpl.
      * destruct (String.eqb_spec k tag); [by subst|done].
      * exact IH.
Qed.

Lemma tag_index_get_fold (t g : string) (tgs : list string)
    (ti : list (string * list string)) (x : string) :
  x ∈ tag_index_get t (fold_left (fun ti tag => tag_index_append tag g ti) tgs ti)
  <-> x ∈ tag_index_get t ti \/ (x = g /\ t ∈ tgs).
Proof.
  revert ti. induction tgs as [|tag tgs IH]; intros ti; simpl.
  - split; [by left|]. intros [H|[_ H%elem_of_nil]]; done.
  - rewrite IH, tag_index_get_append, elem_of_cons.
    destruct (String.eqb_spec t tag) as [->|Hne].
    + rewrite elem_of_app, list_elem_of_singleton. naive_solver.
    + naive_solver.
Qed.

Lemma assoc_sound_mono (ti ti' : list (string * list string)) (m m' : Memory) :
  (forall t a, a ∈ tag_index_get t ti -> a ∈ tag_index_get t ti') ->
  genome m' = genome m -> tags m' = tags m -> associations m' = associations m ->
  assoc_sound ti m -> assoc_sound ti' m'.
Proof.
  intros Hsub Hg Ht Ha (H1 & H2 & H3 & H4). unfold assoc_sound.
  rewrite Hg, Ht, Ha. split; [done|]. split; [done|]. split; [done|].
  intros a Hin. destruct (H4 a Hin) as (t & Htag & Hget). exists t.
  split; [done|]. by apply Hsub.
Qed.

(** What a loop body leaves of the fields the associations rest on. *)
Lemma body_assoc (ti : list (string * list string)) (body : Memory -> Memory * bool)
    (m : Memory) :
  body = trunk_sort_body \/ body = herd_consensus_body
  \/ body = memory_encode_body ti \/ body = generational_pass_body
  \/ body = echo_amplify_body ->
  genome (fst (body m)) = genome m
  /\ tags (fst (body m)) = tags m
  /\ (associations (fst (body m)) = associations m
      \/ associations (fst (body m)) = _find_associations ti m).
Proof.
  intros [->|[->|[->|[->| ->]]]];
    unfold trunk_sort_body, herd_consensus_body, memory_encode_body,
      generational_pass_body, echo_amplify_body;
    destruct (String.eqb (phase m) _); try (by repeat split; left).
  - destruct (_ || _); by repeat split; left.
  - destruct (Nat.leb _ _); by repeat split; left.
  - by repeat split; right.
Qed.

Lemma assoc_ok_advance (body : Memory -> Memory * bool) (s s' : ElephantMemory)
    (n : nat) :
  body = trunk_sort_body \/ body = herd_consensus_body
  \/ body = memory_encode_body (tag_index s) \/ body = generational_pass_body
  \/ body = echo_amplify_body ->
  advanced body s n s' -> assoc_ok s -> assoc_ok s'.
Proof.
  intros Hb A [T1 T2]. split; rewrite (adv_heap _ _ _ _ A), (adv_tag_index _ _ _ _ A).
  - intros t g Hg. destruct (T1 t g Hg) as (m & Hm & Hgm & Ht).
    destruct (body_assoc (tag_index s) body m Hb) as (B1 & B2 & _).
    exists (fst (body m)). split; [by apply (list_elem_of_fmap_2 (fun m => fst (body m)))|]. by rewrite B1, B2.
  - intros m' (m & -> & Hm)%list_elem_of_fmap.
    destruct (body_assoc (tag_index s) body m Hb) as (B1 & B2 & [B3|B3]).
    + by apply (assoc_sound_mono (tag_index s) (tag_index s) m), T2.
    + unfold assoc_sound. rewrite B1, B2, B3. apply find_associations_sound.
Qed.

Lemma assoc_ok_step (s : ElephantMemory) (o : op) :
  elephant_wf s -> assoc_ok s ->
  match o with BreathCycle _ _ => False | _ => True end ->
  assoc_ok (run_op o s).
Proof.
  intros Hwf Hok Ho.
  destruct o as [now now40 breath c tgs| | | |now| |now t]; [..|done]; cbn [run_op].
  - destruct Hok as [T1 T2].
    unfold ingest. destruct (_compute_genome c) as [g|]; [|by split].
    destruct (genome_index s !! g) as [l|] eqn:Hl.
    + cbn [Store40D.state_of].
      assert (forall m', m' ∈ alter echo_bump l (heap s) ->
                exists m, m ∈ heap s /\ genome m' = genome m /\ tags m' = tags m
                          /\ associations m' = associations m) as Hback.
      { intros m' (i & Hi)%list_elem_of_lookup.
        destruct (decide (l = i)) as [->|Hne].
        - rewrite list_lookup_alter_eq in Hi.
          destruct (heap s !! i) as [m|] eqn:Hm; [|done]. injection Hi as <-.
          exists m. split; [by eapply list_elem_of_lookup_2|done].
        - rewrite list_lookup_alter_ne in Hi by done.
          exists m'. split; [by eapply list_elem_of_lookup_2|done]. }
      assert (forall m, m ∈ heap s ->
                exists m', m' ∈ alter echo_bump l (heap s) /\ genome m' = genome m
                           /\ tags m' = tags m) as Hfwd.
      { intros m (i & Hi)%list_elem_of_lookup.
        destruct (decide (l = i)) as [->|Hne].
        - exists (echo_bump m). split; [|done].
          apply list_elem_of_lookup. exists i.
          by rewrite list_lookup_alter_eq, Hi.
        - exists m. split; [|done]. apply list_elem_of_lookup. exists i.
          by rewrite list_lookup_alter_ne. }
      split; cbn [heap tag_index with_stats with_heap].
      * intros t g' Hg'. destruct (T1 t g' Hg') as (m & Hm & Hgm & Ht).
        destruct (Hfwd m Hm) as (m' & Hm' & E1 & E2). exists m'.
        split; [done|]. by rewrite E1, E2.
      * intros m' Hm'. destruct (Hback m' Hm') as (m & Hm & E1 & E2 & E3).
        by apply (assoc_sound_mono (tag_index s) (tag_index s) m), T2.
    + assert (forall e,
                assoc_ok
                  {| store40d := e; decay_rate := decay_rate s;
                     heap := heap s ++ [new_memory now c g tgs s];
                     pages := <[1:=pages s !!! 1 ++ [length (heap s)]]> (pages s);
                     genome_index := <[g:=length (heap s)]> (genome_index s);
                     tag_index :=
                       fold_left (fun ti tag => tag_index_append tag g ti)
                                 (tags (new_memory now c g tgs s)) (tag_index s);
                     generations := generations s;
                     current_generation := current_generation s;
                     stats := {| total_memories := S (total_memories (stats s));
                                 total_echoes := total_echoes (stats s);
                                 total_generations := total_generations (stats s);
                                 stat_herd_validations := stat_herd_validations (stats s);
                                 phase_transitions := phase_transitions (stats s);
                                 stat_avg_strength := stat_avg_strength (stats s) |};
                     loop_active := loop_active s; loop_count := loop_count s;
                     last_breath := last_breath s |}) as Hnew.
      { intros e. split; cbn [heap tag_index].
        - intros t g'. rewrite tag_index_get_fold. intros [Hg'|[-> Ht]].
          + destruct (T1 t g' Hg') as (m & Hm & Hgm & Htm). exists m.
            split; [apply elem_of_app; by left|done].
          + exists (new_memory now c g tgs s).
            split; [apply elem_of_app; right; by apply list_elem_of_singleton|done].
        - intros m [Hm| ->%list_elem_of_singleton]%elem_of_app.
          + apply (assoc_sound_mono (tag_index s) _ m); try done; [|by apply T2].
            intros t a Ha. apply tag_index_get_fold. by left.
          + unfold assoc_sound. cbn [associations new_memory length].
            split; [lia|]. split; [constructor|].
            split; [by intros ?%elem_of_nil|by intros a ?%elem_of_nil]. }
      destruct (store40d s) as [cube|]; [|apply Hnew].
      match goal with |- context [Store40D.store ?a ?b ?d ?cu] =>
        destruct (Store40D.store a b d cu) end; apply Hnew.
  - destruct (trunk_sort_stats s Hwf) as (n & s' & -> & A & _).
    apply (assoc_ok_advance trunk_sort_body s s' n); [tauto|done..].
  - destruct (herd_consensus_stats s Hwf) as (n & s' & -> & A & _).
    apply (assoc_ok_advance herd_consensus_body s s' n); [tauto|done..].
  - destruct (memory_encode_stats s Hwf) as (n & s' & -> & A & _).
    apply (assoc_ok_advance (memory_encode_body (tag_index s)) s s' n); [tauto|done..].
  - destruct (generational_pass_stats now s Hwf) as (n & s' & -> & A & _).
    apply (assoc_ok_advance generational_pass_body s s' n); [tauto|done..].
  - destruct (echo_amplify_stats s Hwf) as (n & s' & -> & A & _).
    apply (assoc_ok_advance echo_amplify_body s s' n); [tauto|done..].
Qed.

Lemma reachable_assoc_ok (s : ElephantMemory) : reachable s -> assoc_ok s.
Proof.
  apply reachable_ind.
  - intros cube rate t0. split; cbn [init heap tag_index tag_index_get].
    + by intros t g ?%elem_of_nil.
    + by intros m ?%elem_of_nil.
  - apply assoc_ok_step.
  - intros s0 t [T1 T2]. by split.
Qed.

(** X16: the association lists: in every state reached, the association
    list of every memory of the pages has at most five genomes, none
    twice, never the genome of the memory itself, and each is the genome
    of a memory of the system that shares a tag with it. *)
Theorem associations_sound (s : ElephantMemory) :
  reachable s -> Forall (associates_in (heap s)) (all_memories s).
Proof.
  intros Hr. pose proof (reachable_wf s Hr) as Hwf.
  destruct (reachable_assoc_ok s Hr) as [T1 T2].
  rewrite (all_memories_perm s Hwf). apply Forall_forall. intros m Hm.
  destruct (T2 m Hm) as (H1 & H2 & H3 & H4). unfold associates_in.
  split; [done|]. split; [done|]. split; [done|].
  apply Forall_forall. intros a Ha. destruct (H4 a Ha) as (t & Ht & Hg).
  destruct (T1 t a Hg) as (m' & Hm' & Hgm & Htm). exists m'.
  split; [done|]. split; [done|]. by exists t.
Qed.

Lemma associations_sound_witness :
  Forall (associates_in (heap twelve_after_second_cycle))
         (all_memories twelve_after_second_cycle).
Proof.
  apply (associations_sound twelve_after_second_cycle twelve_second_reachable).
Defined.

(** One cycle, as a map over the memories. *)
Lemma cycle_full (now : string) (t : float) (s : ElephantMemory) :
  elephant_wf s ->
  exists c s1 s2 s3 s4 s5,
    breath_cycle now t s = Ok c (finish_cycle t s5)
    /\ advanced trunk_sort_body s (trunk_sorted c) s1
    /\ advanced herd_consensus_body s1 (herd_validated c) s2
    /\ advanced (memory_encode_body (tag_index s)) s2 (encoded c) s3
    /\ advanced generational_pass_body s3 (generational_passed c) s4
    /\ advanced echo_amplify_body s4 (echo_amplified c) s5
    /\ heap s5 = cycle_body (tag_index s) <$> heap s.
Proof.
  intros Hwf.
  destruct (breath_cycle_spec now t s Hwf)
    as (c & s1 & s2 & s3 & s4 & s5 & E1 & E2 & E3 & E4 & E5 & E).
  destruct (trunk_sort_spec s Hwf) as (? & ? & E1' & A1 & _).
  rewrite E1 in E1'. injection E1' as <- <-.
  pose proof (adv_wf _ _ _ _ A1) as W1.
  destruct (herd_consensus_spec s1 W1) as (? & ? & E2' & A2 & _).
  rewrite E2 in E2'. injection E2' as <- <-.
  pose proof (adv_wf _ _ _ _ A2) as W2.
  destruct (memory_encode_spec s2 W2) as (? & ? & E3' & A3 & _).
  rewrite E3 in E3'. injection E3' as <- <-.
  pose proof (adv_wf _ _ _ _ A3) as W3.
  destruct (generational_pass_spec now s3 W3) as (? & ? & E4' & A4 & _).
  rewrite E4 in E4'. injection E4' as <- <-.
  pose proof (adv_wf _ _ _ _ A4) as W4.
  destruct (echo_amplify_spec s4 W4) as (? & ? & E5' & A5 & _).
  rewrite E5 in E5'. injection E5' as <- <-.
  rewrite (adv_tag_index _ _ _ _ A2), (adv_tag_index _ _ _ _ A1) in A3.
  exists c, s1, s2, s3, s4, s5. repeat (split; [done|]).
  rewrite (adv_heap _ _ _ _ A5), (adv_heap _ _ _ _ A4), (adv_heap _ _ _ _ A3),
    (adv_heap _ _ _ _ A2), (adv_heap _ _ _ _ A1).
  rewrite <- !list_fmap_compose. done.
Qed.

(** What two cycles in a row make of a memory. *)
Lemma cycle_body_twice (ti ti' : list (string * list string)) (m : Memory) :
  strength m = 1%float ->
  home_page (phase m) = Some (page m) ->
  (phase m = "INTAKE" -> herd_validations m = 0) ->
  phase (cycle_body ti' (cycle_body ti m)) = "ECHO_AMPLIFY"
  /\ page (cycle_body ti' (cycle_body ti m)) = 41.
Proof.
  destruct m as [c ts g st ph pg gen hv ec tg asc].
  cbn [phase herd_validations strength page]. intros -> Hh Hhv.
  destruct (home_page_cases _ _ Hh) as
    [[-> ->]|[[-> ->]|[[-> ->]|[[-> ->]|[[-> ->]|[-> ->]]]]]];
    try (split; reflexivity).
  - rewrite (Hhv eq_refl). split; reflexivity.
  - destruct hv as [|hv]; split; reflexivity.
Qed.

(** A memory in ECHO_AMPLIFY is at the end of the line. *)
Lemma cycle_body_done (ti : list (string * list string)) (m : Memory) :
  phase m = "ECHO_AMPLIFY" -> cycle_body ti m = m.
Proof.
  destruct m as [c ts g st ph pg gen hv ec tg asc]. cbn [phase]. intros ->.
  reflexivity.
Qed.

Lemma same_identity_refl (m : Memory) : same_identity m m.
Proof. unfold same_identity. repeat split; lia. Qed.

Lemma same_identity_trans (a b c : Memory) :
  same_identity a b -> same_identity b c -> same_identity a c.
Proof.
  unfold same_identity. intros (A1 & A2 & A3 & A4 & A5 & A6 & A7)
    (B1 & B2 & B3 & B4 & B5 & B6 & B7).
  repeat split; try congruence; lia.
Qed.

Lemma body_identity (ti : list (string * list string)) (body : Memory -> Memory * bool)
    (m : Memory) :
  body = trunk_sort_body \/ body = herd_consensus_body
  \/ body = memory_encode_body ti \/ body = generational_pass_body
  \/ body = echo_amplify_body ->
  same_identity m (fst (body m)).
Proof.
  intros [->|[->|[->|[->| ->]]]];
    unfold trunk_sort_body, herd_consensus_body, memory_encode_body,
      generational_pass_body, echo_amplify_body;
    destruct (String.eqb (phase m) _); try apply same_identity_refl;
    try destruct (_ || _); try destruct (Nat.leb _ _);
    unfold same_identity; simpl; repeat split; lia.
Qed.

(** *** Memories are never deleted, and what [ingest] recorded stays *)

Lemma persist_refl (h : list Memory) : persist h h.
Proof. intros l m Hm. exists m. split; [done|apply same_identity_refl]. Qed.

Lemma persist_trans (h1 h2 h3 : list Memory) :
  persist h1 h2 -> persist h2 h3 -> persist h1 h3.
Proof.
  intros H12 H23 l m Hm. destruct (H12 l m Hm) as (m2 & Hm2 & I12).
  destruct (H23 l m2 Hm2) as (m3 & Hm3 & I23). exists m3.
  split; [done|]. by apply (same_identity_trans m m2 m3).
Qed.

Lemma persist_advance (body : Memory -> Memory * bool) (s s' : ElephantMemory)
    (n : nat) :
  body = trunk_sort_body \/ body = herd_consensus_body
  \/ body = memory_encode_body (tag_index s) \/ body = generational_pass_body
  \/ body = echo_amplify_body ->
  advanced body s n s' -> persist (heap s) (heap s').
Proof.
  intros Hb A l m Hm. exists (fst (body m)).
  rewrite (adv_heap _ _ _ _ A), list_lookup_fmap, Hm. split; [done|].
  by apply (body_identity (tag_index s)).
Qed.

Lemma persist_step (o : op) (s : ElephantMemory) :
  elephant_wf s ->
  match o with BreathCycle _ _ => False | _ => True end ->
  persist (heap s) (heap (run_op o s)).
Proof.
  intros Hwf Ho.
  destruct o as [now now40 breath c tgs| | | |now| |now t]; [..|done]; cbn [run_op].
  - unfold ingest. destruct (_compute_genome c) as [g|]; [|apply persist_refl].
    destruct (genome_index s !! g) as [l|] eqn:Hl.
    + cbn [Store40D.state_of heap with_stats with_heap]. intros i m Hm.
      destruct (decide (l = i)) as [->|Hne].
      * exists (echo_bump m). rewrite list_lookup_alter_eq, Hm. split; [done|].
        unfold same_identity. simpl. repeat split; lia.
      * exists m. rewrite list_lookup_alter_ne by done.
        split; [done|apply same_identity_refl].
    + assert (persist (heap s) (heap s ++ [new_memory now c g tgs s])) as Hnew.
      { intros i m Hm. exists m. split; [by apply lookup_app_l_Some|].
        apply same_identity_refl. }
      destruct (store40d s) as [cube|]; [|exact Hnew].
      match goal with |- context [Store40D.store ?a ?b ?d ?cu] =>
        destruct (Store40D.store a b d cu) end; exact Hnew.
  - destruct (trunk_sort_stats s Hwf) as (n & s' & -> & A & _).
    apply (persist_advance trunk_sort_body s s' n); [tauto|done].
  - destruct (herd_consensus_stats s Hwf) as (n & s' & -> & A & _).
    apply (persist_advance herd_consensus_body s s' n); [tauto|done].
  - destruct (memory_encode_stats s Hwf) as (n & s' & -> & A & _).
    apply (persist_advance (memory_encode_body (tag_index s)) s s' n); [tauto|done].
  - destruct (generational_pass_stats now s Hwf) as (n & s' & -> & A & _).
    apply (persist_advance generational_pass_body s s' n); [tauto|done].
  - destruct (echo_amplify_stats s Hwf) as (n & s' & -> & A & _).
    apply (persist_advance echo_amplify_body s s' n); [tauto|done].
Qed.

Lemma persist_op (o : op) (s : ElephantMemory) :
  elephant_wf s -> persist (heap s) (heap (run_op o s)).
Proof.
  intros Hwf.
  destruct o as [now now40 breath c tgs| | | |now| |now t];
    try (by apply persist_step).
  rewrite run_cycle_steps by done. cbn [heap finish_cycle].
  unfold cycle_steps, run. cbn [fold_left].
  repeat (eapply persist_trans;
          [|apply persist_step; [repeat apply run_op_wf; done|done]]).
  apply persist_refl.
Qed.

Lemma wf_filed (s : ElephantMemory) (l : loc) (m : Memory) :
  elephant_wf s -> heap s !! l = Some m -> filed s l m.
Proof.
  intros Hwf Hm. split; [exact Hm|]. split.
  - rewrite (all_memories_perm s Hwf). by eapply list_elem_of_lookup_2.
  - destruct (wf_one_bucket s Hwf l m Hm) as (_ & _ & Hc & _).
    split; [exact Hc|]. apply (wf_genome_index s Hwf). eauto.
Qed.

Lemma persist_length (h h' : list Memory) : persist h h' -> length h <= length h'.
Proof.
  intros Hp. destruct (decide (length h <= length h')) as [|Hgt]; [done|].
  assert (is_Some (h !! length h')) as [m Hm] by (apply lookup_lt_is_Some; lia).
  destruct (Hp _ _ Hm) as (m' & Hm' & _).
  apply lookup_lt_Some in Hm'. lia.
Qed.

Lemma heap_persist (ops : list op) (s : ElephantMemory) :
  elephant_wf s -> persist (heap s) (heap (run ops s)).
Proof.
  revert s. induction ops as [|o ops IH]; intros s Hwf; [apply persist_refl|].
  cbn [run fold_left]. eapply persist_trans; [by apply persist_op|].
  apply IH. by apply run_op_wf.
Qed.

(** X17: memories are never deleted and never rewritten: whatever calls
    follow, every memory the pages held is still held by the pages, in
    the list of its own page once and in no other, and found under its
    genome in the genome index, with the content, time stamp, genome, tags
    and generation that [ingest] gave it and with echo and validation
    counters that have not gone down; and the pages hold no fewer memories
    than before. *)
Theorem memories_persist (ops : list op) (s : ElephantMemory) :
  reachable s ->
  Forall (kept_in (run ops s)) (all_memories s)
  /\ length (all_memories s) <= length (all_memories (run ops s)).
Proof.
  intros Hwf%reachable_wf.
  pose proof (run_wf ops s Hwf) as Hwf'.
  pose proof (heap_persist ops s Hwf) as Hp.
  split.
  - apply Forall_forall. intros m Hm. rewrite (all_memories_perm s Hwf) in Hm.
    apply list_elem_of_lookup in Hm as [l Hl].
    destruct (Hp l m Hl) as (m' & Hm' & Hid).
    exists l, m'. split; [by apply wf_filed|exact Hid].
  - rewrite (Permutation_length (all_memories_perm s Hwf)),
      (Permutation_length (all_memories_perm _ Hwf')).
    by apply persist_length.
Qed.

Lemma memories_persist_witness :
  Forall (kept_in (run [Ingest "t4" "t5" 0 [("event", PStr "x")] (Some ["again"]);
                        BreathCycle "t6" 0%float] after_first_cycle))
         (all_memories after_first_cycle)
  /\ length (all_memories after_first_cycle)
     <= length (all_memories
                  (run [Ingest "t4" "t5" 0 [("event", PStr "x")] (Some ["again"]);
                        BreathCycle "t6" 0%float] after_first_cycle)).
Proof.
  apply (memories_persist
           [Ingest "t4" "t5" 0 [("event", PStr "x")] (Some ["again"]);
            BreathCycle "t6" 0%float] after_first_cycle after_first_cycle_reachable).
Defined.

(** *** Two cycles take every memory to the last phase *)

Lemma cycle_heap (now : string) (t : float) (s : ElephantMemory) :
  elephant_wf s ->
  heap (run_op (BreathCycle now t) s) = cycle_body (tag_index s) <$> heap s.
Proof.
  intros Hwf.
  destruct (cycle_full now t s Hwf) as (c & s1 & s2 & s3 & s4 & s5 & E & _ & _ & _ & _ & _ & H).
  cbn [run_op]. rewrite E. exact H.
Qed.

(** X18: two cycles are enough: after two calls of [breath_cycle] in a
    row, every memory the pages held is in ECHO_AMPLIFY and held by the
    pages still, in the list of page 41 once and in no other, and found
    under its genome in the genome index; the pages hold as many memories
    as before, each of them in ECHO_AMPLIFY on page 41. *)
Theorem two_cycles_settle (now1 now2 : string) (t1 t2 : float) (s : ElephantMemory) :
  reachable s ->
  Forall (settled_in (run [BreathCycle now1 t1; BreathCycle now2 t2] s))
         (all_memories s)
  /\ length (all_memories (run [BreathCycle now1 t1; BreathCycle now2 t2] s))
     = length (all_memories s)
  /\ Forall (fun m => phase m = "ECHO_AMPLIFY" /\ page m = 41)
            (all_memories (run [BreathCycle now1 t1; BreathCycle now2 t2] s)).
Proof.
  intros Hr. pose proof (reachable_wf s Hr) as Hwf.
  pose proof (run_wf [BreathCycle now1 t1; BreathCycle now2 t2] s Hwf) as Hwf2.
  pose proof (heap_persist [BreathCycle now1 t1; BreathCycle now2 t2] s Hwf) as Hp.
  pose proof (run_op_wf (BreathCycle now1 t1) s Hwf) as Hwf1.
  assert (heap (run [BreathCycle now1 t1; BreathCycle now2 t2] s)
          = cycle_body (tag_index (run_op (BreathCycle now1 t1) s))
              <$> (cycle_body (tag_index s) <$> heap s)) as Hh.
  { cbn [run fold_left].
    by rewrite (cycle_heap now2 t2 _ Hwf1), (cycle_heap now1 t1 s Hwf). }
  assert (forall l m', heap (run [BreathCycle now1 t1; BreathCycle now2 t2] s) !! l
                       = Some m' ->
                       phase m' = "ECHO_AMPLIFY" /\ page m' = 41) as Hall.
  { intros l m'. rewrite Hh, !list_lookup_fmap.
    destruct (heap s !! l) as [m|] eqn:Hm; [|done]. simpl. intros [= <-].
    apply cycle_body_twice.
    - by apply (wf_strength s Hwf l).
    - by apply (wf_home s Hwf l).
    - by apply (wf_fresh s Hwf l). }
  split; [|split].
  - apply Forall_forall. intros m Hm. rewrite (all_memories_perm s Hwf) in Hm.
    apply list_elem_of_lookup in Hm as [l Hl].
    destruct (Hp l m Hl) as (m' & Hm' & Hid).
    exists l, m'. split; [by apply wf_filed|]. split; [exact Hid|].
    by apply (Hall l).
  - rewrite (Permutation_length (all_memories_perm s Hwf)),
      (Permutation_length (all_memories_perm _ Hwf2)), Hh.
    by rewrite !length_fmap.
  - apply Forall_forall. intros m' Hm'. rewrite (all_memories_perm _ Hwf2) in Hm'.
    apply list_elem_of_lookup in Hm' as [l Hl]. by apply (Hall l).
Qed.

Lemma two_cycles_settle_witness :
  Forall (settled_in (run [BreathCycle "t3" 0%float; BreathCycle "t4" 0%float]
                          twelve_after_first_cycle))
         (all_memories twelve_after_first_cycle)
  /\ length (all_memories (run [BreathCycle "t3" 0%float; BreathCycle "t4" 0%float]
                               twelve_after_first_cycle))
     = length (all_memories twelve_after_first_cycle)
  /\ Forall (fun m => phase m = "ECHO_AMPLIFY" /\ page m = 41)
            (all_memories (run [BreathCycle "t3" 0%float; BreathCycle "t4" 0%float]
                               twelve_after_first_cycle)).
Proof.
  apply (two_cycles_settle "t3" "t4" 0%float 0%float twelve_after_first_cycle
           twelve_reachable).
Defined.

(** *** A cycle with nothing to do *)

Lemma idle_pages (s : ElephantMemory) (q : nat) :
  elephant_wf s ->
  Forall (fun m => phase m = "ECHO_AMPLIFY") (heap s) ->
  q <> 41 -> pages s !!! q = [].
Proof.
  intros Hwf Hall Hq. destruct (pages s !!! q) as [|l ls] eqn:E; [done|].
  destruct (wf_in_page s Hwf l q) as (m & Hm & Hp); [rewrite E; by left|].
  destruct (wf_home s Hwf l m Hm) as [_ Hh].
  rewrite Forall_forall in Hall.
  rewrite (Hall m) in Hh by (by eapply list_elem_of_lookup_2).
  injection Hh as Hh. congruence.
Qed.

Lemma idle_advance (body : Memory -> Memory * bool) (onp : Stats -> Stats)
    (dst : nat) (ph : string) (s : ElephantMemory) :
  elephant_wf s ->
  Forall (fun m => phase m = "ECHO_AMPLIFY") (heap s) ->
  41 ∉ phase_pages ph ->
  advance_pages body onp dst (phase_pages ph) 0 s = Ok 0 s.
Proof.
  intros Hwf Hall Hph. apply advance_pages_empty. intros q Hq.
  apply idle_pages; [done..|]. intros ->. done.
Qed.

(** X19: a cycle with nothing to do: when every memory is in ECHO_AMPLIFY,
    and so too when the system holds no memory at all, [breath_cycle]
    returns five zero counts and changes nothing but the loop counter and
    the time of the last breath. *)
Theorem idle_cycle (now : string) (t : float) (s : ElephantMemory) :
  reachable s ->
  Forall (fun m => phase m = "ECHO_AMPLIFY") (heap s) ->
  breath_cycle now t s = Ok no_promotion (finish_cycle t s).
Proof.
  intros Hwf%reachable_wf Hall.
  assert (forall ph, ph ∈ ["INTAKE"; "TRUNK_SORT"; "HERD_CONSENSUS"; "MEMORY_ENCODE";
                           "GENERATIONAL_PASS"] -> 41 ∉ phase_pages ph) as Hp.
  { intros ph Hph. repeat (apply elem_of_cons in Hph as [->|Hph];
      [intros H; repeat (apply elem_of_cons in H as [H|H]; [discriminate H|]);
       by apply elem_of_nil in H|]). by apply elem_of_nil in Hph. }
  unfold breath_cycle, trunk_sort, herd_consensus, memory_encode,
    generational_pass, echo_amplify.
  rewrite (idle_advance _ _ 9 "INTAKE" s Hwf Hall) by (apply Hp; set_solver).
  cbn [Nat.ltb Nat.leb].
  rewrite (idle_advance _ _ 17 "TRUNK_SORT" s Hwf Hall) by (apply Hp; set_solver).
  rewrite (idle_advance _ _ 25 "HERD_CONSENSUS" s Hwf Hall) by (apply Hp; set_solver).
  rewrite (idle_advance _ _ 33 "MEMORY_ENCODE" s Hwf Hall) by (apply Hp; set_solver).
  cbn [Nat.ltb Nat.leb].
  rewrite (idle_advance _ _ 41 "GENERATIONAL_PASS" s Hwf Hall) by (apply Hp; set_solver).
  reflexivity.
Qed.

Lemma settled_reachable : reachable settled.
Proof. apply reachable_run, after_first_cycle_reachable. Qed.

Lemma idle_cycle_witness :
  breath_cycle "t4" 0%float settled = Ok no_promotion (finish_cycle 0%float settled).
Proof.
  apply (idle_cycle "t4" 0%float settled settled_reachable).
  vm_compute. repeat constructor.
Defined.

(** *** The counts a cycle returns *)

Lemma count_fmap (f : Memory -> bool) (g : Memory -> Memory) (h : list Memory) :
  length (List.filter f (g <$> h)) = length (List.filter (fun m => f (g m)) h).
Proof.
  induction h as [|m h IH]; [done|]. rewrite fmap_cons. cbn [List.filter].
  destruct (f (g m)); simpl; by rewrite IH.
Qed.

Lemma count_ext (f g : Memory -> bool) (h : list Memory) :
  (forall m, m ∈ h -> f m = g m) ->
  length (List.filter f h) = length (List.filter g h).
Proof.
  induction h as [|m h IH]; intros H; [done|]. cbn [List.filter].
  rewrite (H m) by (by left). destruct (g m); simpl; rewrite IH; try done;
    intros x Hx; apply H; by right.
Qed.

Lemma count_or (a b : Memory -> bool) (h : list Memory) :
  (forall m, m ∈ h -> a m && b m = false) ->
  length (List.filter (fun m => a m || b m) h)
  = length (List.filter a h) + length (List.filter b h).
Proof.
  induction h as [|m h IH]; intros H; [done|]. cbn [List.filter].
  pose proof (H m ltac:(by left)) as Hm.
  assert (forall x, x ∈ h -> a x && b x = false) as H' by (intros x Hx; apply H; by right).
  specialize (IH H').
  destruct (a m), (b m); simpl in *; try done; rewrite IH; lia.
Qed.

(** Which memories each step of a cycle promotes, told from the state
    the cycle starts in. *)
Lemma cascade_bodies (ti : list (string * list string)) (m : Memory) :
  strength m = 1%float ->
  home_page (phase m) = Some (page m) ->
  (phase m = "INTAKE" -> herd_validations m = 0) ->
  let m1 := fst (trunk_sort_body m) in
  let m2 := fst (herd_consensus_body m1) in
  let m3 := fst (memory_encode_body ti m2) in
  let m4 := fst (generational_pass_body m3) in
  snd (trunk_sort_body m) = String.eqb (phase m) "INTAKE"
  /\ snd (herd_consensus_body m1) = due_for_consensus m
  /\ snd (memory_encode_body ti m2)
     = due_for_consensus m || String.eqb (phase m) "HERD_CONSENSUS"
  /\ snd (generational_pass_body m3)
     = (due_for_consensus m || String.eqb (phase m) "HERD_CONSENSUS")
       || String.eqb (phase m) "MEMORY_ENCODE"
  /\ snd (echo_amplify_body m4)
     = ((due_for_consensus m || String.eqb (phase m) "HERD_CONSENSUS")
        || String.eqb (phase m) "MEMORY_ENCODE")
       || String.eqb (phase m) "GENERATIONAL_PASS".
Proof.
  destruct m as [c ts g st ph pg gen hv ec tg asc].
  cbn [phase herd_validations strength page]. intros -> Hh Hhv.
  destruct (home_page_cases _ _ Hh) as
    [[-> ->]|[[-> ->]|[[-> ->]|[[-> ->]|[[-> ->]|[-> ->]]]]]];
    try (repeat split; reflexivity).
  - rewrite (Hhv eq_refl). repeat split; reflexivity.
  - destruct hv as [|hv]; repeat split; reflexivity.
Qed.

(** X20: the counts of a cycle, told from the state it starts in: it takes
    every memory out of INTAKE; it validates the memories of TRUNK_SORT
    that were validated once before; and each later step promotes what
    the step before it has just promoted, together with the memories that
    were waiting in its own source phase. *)
Theorem cycle_counts (now : string) (t : float) (s : ElephantMemory) :
  reachable s ->
  exists c s',
    breath_cycle now t s = Ok c s'
    /\ trunk_sorted c = count_in_phase "INTAKE" s
    /\ herd_validated c = length (List.filter due_for_consensus (heap s))
    /\ encoded c = herd_validated c + count_in_phase "HERD_CONSENSUS" s
    /\ generational_passed c = encoded c + count_in_phase "MEMORY_ENCODE" s
    /\ echo_amplified c = generational_passed c + count_in_phase "GENERATIONAL_PASS" s.
Proof.
  intros Hwf%reachable_wf.
  destruct (cycle_full now t s Hwf)
    as (c & s1 & s2 & s3 & s4 & s5 & E & A1 & A2 & A3 & A4 & A5 & _).
  exists c, (finish_cycle t s5). split; [exact E|].
  assert (forall m, m ∈ heap s ->
            strength m = 1%float /\ home_page (phase m) = Some (page m)
            /\ (phase m = "INTAKE" -> herd_validations m = 0)) as Hm.
  { intros m [l Hl]%list_elem_of_lookup. split; [by apply (wf_strength s Hwf l)|].
    split; [by apply (wf_home s Hwf l)|by apply (wf_fresh s Hwf l)]. }
  assert (forall m, m ∈ heap s ->
            due_for_consensus m && String.eqb (phase m) "HERD_CONSENSUS" = false
            /\ (due_for_consensus m || String.eqb (phase m) "HERD_CONSENSUS")
               && String.eqb (phase m) "MEMORY_ENCODE" = false
            /\ ((due_for_consensus m || String.eqb (phase m) "HERD_CONSENSUS")
                || String.eqb (phase m) "MEMORY_ENCODE")
               && String.eqb (phase m) "GENERATIONAL_PASS" = false) as Hdis.
  { intros m _. unfold due_for_consensus.
    destruct (String.eqb_spec (phase m) "TRUNK_SORT") as [->|_];
      [simpl; by rewrite !andb_false_r|].
    destruct (String.eqb_spec (phase m) "HERD_CONSENSUS") as [->|_];
      [by repeat split|].
    destruct (String.eqb_spec (phase m) "MEMORY_ENCODE") as [->|_];
      [by repeat split|]. by repeat split. }
  pose proof (adv_count _ _ _ _ A1) as C1.
  pose proof (adv_count _ _ _ _ A2) as C2.
  pose proof (adv_count _ _ _ _ A3) as C3.
  pose proof (adv_count _ _ _ _ A4) as C4.
  pose proof (adv_count _ _ _ _ A5) as C5.
  rewrite (adv_heap _ _ _ _ A4), (adv_heap _ _ _ _ A3), (adv_heap _ _ _ _ A2),
    (adv_heap _ _ _ _ A1), !count_fmap in C5.
  rewrite (adv_heap _ _ _ _ A3), (adv_heap _ _ _ _ A2),
    (adv_heap _ _ _ _ A1), !count_fmap in C4.
  rewrite (adv_heap _ _ _ _ A2), (adv_heap _ _ _ _ A1), !count_fmap in C3.
  rewrite (adv_heap _ _ _ _ A1), !count_fmap in C2.
  unfold count_in_phase.
  assert (herd_validated c = length (List.filter due_for_consensus (heap s))) as H2.
  { rewrite C2. apply count_ext. intros m Hin.
    destruct (Hm m Hin) as (M1 & M2 & M3).
    by destruct (cascade_bodies (tag_index s) m M1 M2 M3) as (_ & -> & _). }
  assert (encoded c
          = length (List.filter (fun m => due_for_consensus m
                                          || String.eqb (phase m) "HERD_CONSENSUS")
                                (heap s))) as H3.
  { rewrite C3. apply count_ext. intros m Hin.
    destruct (Hm m Hin) as (M1 & M2 & M3).
    by destruct (cascade_bodies (tag_index s) m M1 M2 M3) as (_ & _ & -> & _). }
  assert (generational_passed c
          = length (List.filter
                      (fun m => (due_for_consensus m
                                 || String.eqb (phase m) "HERD_CONSENSUS")
                                || String.eqb (phase m) "MEMORY_ENCODE")
                      (heap s))) as H4.
  { rewrite C4. apply count_ext. intros m Hin.
    destruct (Hm m Hin) as (M1 & M2 & M3).
    by destruct (cascade_bodies (tag_index s) m M1 M2 M3) as (_ & _ & _ & -> & _). }
  assert (echo_amplified c
          = length (List.filter
                      (fun m => ((due_for_consensus m
                                  || String.eqb (phase m) "HERD_CONSENSUS")
                                 || String.eqb (phase m) "MEMORY_ENCODE")
                                || String.eqb (phase m) "GENERATIONAL_PASS")
                      (heap s))) as H5.
  { rewrite C5. apply count_ext. intros m Hin.
    destruct (Hm m Hin) as (M1 & M2 & M3).
    by destruct (cascade_bodies (tag_index s) m M1 M2 M3) as (_ & _ & _ & _ & ->). }
  split.
  { rewrite C1. apply count_ext. intros m Hin.
    destruct (Hm m Hin) as (M1 & M2 & M3).
    by destruct (cascade_bodies (tag_index s) m M1 M2 M3) as (-> & _). }
  split; [exact H2|].
  split.
  { rewrite H3, H2. apply (count_or due_for_consensus). intros m Hin.
    by destruct (Hdis m Hin) as (D & _). }
  split.
  { rewrite H4, H3.
    apply (count_or (fun m => due_for_consensus m
                              || String.eqb (phase m) "HERD_CONSENSUS")).
    intros m Hin. by destruct (Hdis m Hin) as (_ & D & _). }
  rewrite H5, H4.
  apply (count_or (fun m => (due_for_consensus m
                             || String.eqb (phase m) "HERD_CONSENSUS")
                            || String.eqb (phase m) "MEMORY_ENCODE")).
  intros m Hin. by destruct (Hdis m Hin) as (_ & _ & D).
Qed.

Lemma cycle_counts_witness :
  exists c s',
    breath_cycle "t3" 0%float twelve_after_first_cycle = Ok c s'
    /\ trunk_sorted c = count_in_phase "INTAKE" twelve_after_first_cycle
    /\ herd_validated c
       = length (List.filter due_for_consensus (heap twelve_after_first_cycle))
    /\ encoded c
       = herd_validated c + count_in_phase "HERD_CONSENSUS" twelve_after_first_cycle
    /\ generational_passed c
       = encoded c + count_in_phase "MEMORY_ENCODE" twelve_after_first_cycle
    /\ echo_amplified c
       = generational_passed c
         + count_in_phase "GENERATIONAL_PASS" twelve_after_first_cycle.
Proof.
  apply (cycle_counts "t3" 0%float twelve_after_first_cycle twelve_reachable).
Defined.

(** *** [recall] by genome *)

Lemma genome_nonempty (c : pydict) (g : string) :
  _compute_genome c = Some g -> exists a r, g = String a r.
Proof.
  unfold _compute_genome. destruct (json_dumps (PDict c)) as [j|]; [|done].
  intros [= <-]. apply sha256_hex_nonempty.
Qed.

Lemma recall_by_genome (s : ElephantMemory) (g : string) (l : loc) (m : Memory)
    (tgs : option (list string)) (ph : option string) (limit : Z) :
  (exists a r, g = String a r) ->
  genome_index s !! g = Some l -> heap s !! l = Some m ->
  recall (Some g) tgs ph limit s = [m].
Proof. intros (a & r & ->) Hl Hm. unfold recall. by rewrite Hl, Hm. Qed.

(** X21: [ingest] then [recall] by genome: whatever way [ingest] ends on
    serializable content, the genome it computes recalls exactly one
    memory, the one with that genome, whatever the tags, the phase and
    the limit passed along; for new content it is the memory [ingest]
    has just created. *)
Theorem recall_after_ingest (now now40 : string) (breath : Z) (c : pydict)
    (tgs tgs' : option (list string)) (ph : option string) (limit : Z)
    (s : ElephantMemory) (g : string) :
  reachable s ->
  _compute_genome c = Some g ->
  exists m,
    recall (Some g) tgs' ph limit (Store40D.state_of (ingest now now40 breath c tgs s))
    = [m]
    /\ genome m = g
    /\ (genome_index s !! g = None -> m = new_memory now c g tgs s).
Proof.
  intros Hwf%reachable_wf Hg.
  pose proof (genome_nonempty c g Hg) as Hne.
  destruct (genome_index s !! g) as [l|] eqn:Hl.
  - destruct (ingest_known now now40 breath c tgs s g l Hg Hl) as [st ->].
    cbn [Store40D.state_of].
    pose proof (wf_echo_bump s l st Hwf) as Hwf'.
    assert (genome_index (with_stats (with_heap s (alter echo_bump l (heap s))) st) !! g
            = Some l) as Hl' by exact Hl.
    pose proof Hl' as Hl''. apply (wf_genome_index _ Hwf') in Hl'' as (m & Hm & Hgm).
    exists m. split; [by apply (recall_by_genome _ g l m)|]. split; [done|done].
  - destruct (ingest_new now now40 breath c tgs s g Hg Hl)
      as (s1 & Hh & Hp & Hgi & HE & _).
    assert (Store40D.state_of (ingest now now40 breath c tgs s) = s1) as ->.
    { destruct HE as [->|[e ->]]; reflexivity. }
    exists (new_memory now c g tgs s). split; [|done].
    apply (recall_by_genome _ g (length (heap s))); [done|..].
    + by rewrite Hgi, lookup_insert_eq.
    + by rewrite Hh, list_lookup_middle.
Qed.

Lemma recall_after_ingest_witness :
  exists m,
    recall (Some "5a9e1312ed3ae701aaa9f886f7eeb7b89cc0078a0131ad1432122e9183b6da35")
           (Some ["none"]) (Some "ECHO_AMPLIFY") 0%Z
           (Store40D.state_of
              (ingest "t2" "t3" 1 [("event", PStr "y")] (Some ["a"]) first_ingest))
    = [m]
    /\ genome m = "5a9e1312ed3ae701aaa9f886f7eeb7b89cc0078a0131ad1432122e9183b6da35"
    /\ (genome_index first_ingest
          !! "5a9e1312ed3ae701aaa9f886f7eeb7b89cc0078a0131ad1432122e9183b6da35" = None ->
        m = new_memory "t2" [("event", PStr "y")]
              "5a9e1312ed3ae701aaa9f886f7eeb7b89cc0078a0131ad1432122e9183b6da35"
              (Some ["a"]) first_ingest).
Proof.
  apply (recall_after_ingest "t2" "t3" 1 [("event", PStr "y")] (Some ["a"])
           (Some ["none"]) (Some "ECHO_AMPLIFY") 0%Z first_ingest).
  - apply reachable_run. by exists None, 0%float, 0%float, [].
  - vm_compute. reflexivity.
Defined.

(** *** [ingest] with a store attached *)

Lemma dict_get_set (k k' : string) (v : pyval) (d : pydict) :
  dict_get k (dict_set k' v d)
  = if String.eqb k k' then Some v else dict_get k d.
Proof.
  induction d as [|[k0 v0] d IH]; simpl.
  - by destruct (String.eqb k k').
  - destruct (String.eqb_spec k' k0) as [->|Hne]; simpl.
    + by destruct (String.eqb k k0).
    + destruct (String.eqb_spec k k0) as [->|Hne'].
      * destruct (String.eqb_spec k0 k'); [by subst|done].
      * exact IH.
Qed.

Lemma dict_parts_set (k : string) (v : pyval) (d : pydict) :
  is_Some (json_dumps v) -> is_Some (dict_parts d) ->
  is_Some (dict_parts (dict_set k v d)).
Proof.
  intros [sv Hv]. induction d as [|[k0 v0] d IH]; simpl.
  - intros _. rewrite Hv. by eexists.
  - destruct (json_dumps v0) as [s0|] eqn:E0; [|by intros [? [=]]].
    destruct (dict_parts d) as [r|] eqn:Er; [|by intros [? [=]]]. intros _.
    destruct (String.eqb k k0); simpl.
    + rewrite Hv, Er. by eexists.
    + rewrite E0. destruct (IH ltac:(by eexists)) as [r' ->]. by eexists.
Qed.

(** The enriched record serializes whenever the content does. *)
Lemma data_40d_serializes (m : Memory) :
  is_Some (json_dumps (PDict (content m))) ->
  is_Some (json_dumps (PDict (data_40d m))).
Proof.
  rewrite !json_dumps_dict. intros H.
  assert (is_Some (dict_parts (content m))) as Hp
    by (destruct (dict_parts (content m)); [by eexists|by destruct H]).
  assert (is_Some (dict_parts (data_40d m))) as [r ->]; [|by eexists].
  unfold data_40d.
  repeat (apply dict_parts_set; [by eexists|]). exact Hp.
Qed.

Lemma data_40d_get (m : Memory) (k : string) :
  k ∉ enrichment_keys -> dict_get k (data_40d m) = dict_get k (content m).
Proof.
  unfold enrichment_keys. rewrite !not_elem_of_cons.
  intros (H1 & H2 & H3 & H4 & H5 & H6 & _). unfold data_40d.
  rewrite !dict_get_set.
  repeat match goal with
         | |- context [String.eqb k ?x] => destruct (String.eqb_spec k x); [done|]
         end.
  done.
Qed.

(** *** [ingest] of content already held, with or without a store *)

(** When the store takes the [value] field, [ingest] of serializable
    content returns. *)
Lemma ingest_returns (now now40 : string) (breath : Z) (c : pydict)
    (tgs : option (list string)) (s : ElephantMemory) (g : string) :
  _compute_genome c = Some g ->
  forwardable c s = true ->
  exists s1, ingest now now40 breath c tgs s = Ok g s1.
Proof.
  intros Hg Hf. destruct (genome_index s !! g) as [l|] eqn:Hl.
  { destruct (ingest_known now now40 breath c tgs s g l Hg Hl) as [st E]. eauto. }
  destruct (store40d s) as [cube|] eqn:Hcube.
  2:{ unfold ingest. rewrite Hg, Hl, Hcube. eauto. }
  assert (is_Some (Store40D._compute_genome (data_40d (new_memory now c g tgs s))))
    as [g40 Hg40].
  { unfold Store40D._compute_genome.
    destruct (data_40d_serializes (new_memory now c g tgs s)) as [j ->]; [|by eexists].
    cbn [content new_memory]. unfold _compute_genome in Hg.
    destruct (json_dumps (PDict c)); [by eexists|done]. }
  assert (dict_get "value" (data_40d (new_memory now c g tgs s)) = dict_get "value" c)
    as Hval.
  { apply (data_40d_get (new_memory now c g tgs s)). unfold enrichment_keys.
    rewrite !not_elem_of_cons. repeat (split; [discriminate|]). apply not_elem_of_nil. }
  destruct (StoreFacts.store_cases now40 breath _ cube g40 Hg40)
    as (cube' & Hc & _).
  unfold ingest. rewrite Hg, Hl, Hcube.
  destruct Hc as [(_ & E & _)|[(v & x & _ & _ & E & _)|(v & e' & Hv & He & E & _)]];
    rewrite E; [eauto..|].
  rewrite Hval in Hv. unfold forwardable in Hf. rewrite Hcube, Hv, He in Hf.
  discriminate Hf.
Qed.

(** C4, for content that [ingest] takes: when the content serializes
    and the attached store, if there is one, takes its [value] field, the
    first [ingest] returns the hash, and the second returns the same hash,
    creates no memory, and adds one to the echo counter of the memory the
    first call created or found. *)
Theorem C4_ingest_twice (now1 now1' now2 now2' : string) (b1 b2 : Z)
    (c : pydict) (tgs1 tgs2 : option (list string))
    (s : ElephantMemory) (g : string) :
  elephant_wf s ->
  _compute_genome c = Some g ->
  forwardable c s = true ->
  exists s1 s2 l m1 m2,
    ingest now1 now1' b1 c tgs1 s = Ok g s1
    /\ ingest now2 now2' b2 c tgs2 s1 = Ok g s2
    /\ genome_index s1 !! g = Some l
    /\ heap s1 !! l = Some m1
    /\ heap s2 !! l = Some m2
    /\ genome m1 = g
    /\ echo_count m2 = S (echo_count m1)
    /\ (genome_index s !! g = None -> echo_count m1 = 0)
    /\ length (heap s2) = length (heap s1)
    /\ pages s2 = pages s1
    /\ genome_index s2 = genome_index s1
    /\ forall l', l' <> l -> heap s2 !! l' = heap s1 !! l'.
Proof.
  intros Hwf Hg Hf.
  destruct (ingest_returns now1 now1' b1 c tgs1 s g Hg Hf) as [s1 H1].
  destruct (ingest_twice_returns now1 now1' now2 now2' b1 b2 c tgs1 tgs2 s s1 g Hwf H1)
    as (s2 & l & m1 & m2 & H).
  exists s1, s2, l, m1, m2. split; [exact H1|exact H].
Qed.

Lemma with_cube_wf : elephant_wf with_cube.
Proof.
  apply reachable_wf.
  by exists (Some (Store40D.init Store40D.CARE_15)), 0%float, 0%float, [].
Qed.

(** An instance of C4: content with a numeric [value], ingested twice
    with a store attached. *)
Lemma C4_ingest_twice_witness :
  exists s1 s2 l m1 m2,
    ingest "t1" "t2" 3 [("sector", PStr "ai"); ("value", PInt 1000)] None with_cube
    = Ok "7e60b7af19ce02d95ffebd627a4501730eaa96a7bfd0c2e84f07d80ba6df8a80" s1
    /\ ingest "t3" "t4" 4 [("sector", PStr "ai"); ("value", PInt 1000)]
         (Some ["again"]) s1
       = Ok "7e60b7af19ce02d95ffebd627a4501730eaa96a7bfd0c2e84f07d80ba6df8a80" s2
    /\ genome_index s1
         !! "7e60b7af19ce02d95ffebd627a4501730eaa96a7bfd0c2e84f07d80ba6df8a80"
       = Some l
    /\ heap s1 !! l = Some m1
    /\ heap s2 !! l = Some m2
    /\ genome m1 = "7e60b7af19ce02d95ffebd627a4501730eaa96a7bfd0c2e84f07d80ba6df8a80"
    /\ echo_count m2 = S (echo_count m1)
    /\ (genome_index with_cube
          !! "7e60b7af19ce02d95ffebd627a4501730eaa96a7bfd0c2e84f07d80ba6df8a80" = None
        -> echo_count m1 = 0)
    /\ length (heap s2) = length (heap s1)
    /\ pages s2 = pages s1
    /\ genome_index s2 = genome_index s1
    /\ forall l', l' <> l -> heap s2 !! l' = heap s1 !! l'.
Proof.
  apply (C4_ingest_twice "t1" "t2" "t3" "t4" 3 4 [("sector", PStr "ai"); ("value", PInt 1000)]
           None (Some ["again"]) with_cube).
  - apply with_cube_wf.
  - vm_compute. reflexivity.
  - reflexivity.
Defined.

(** C4 does not hold for every content.  Content that does not
    serialize has no hash: [ingest] raises both times and the system
    stays empty.  And with a store attached, content whose [value] is a
    text makes the first [ingest] raise, without a hash, after the memory
    was registered; only the second call returns the hash, as an echo. *)
Lemma C4_counterexample :
  (ingest "t1" "t2" 3 [("payload", PBytes "abc")] None with_cube
   = Raise TypeError with_cube
   /\ heap with_cube = [])
  /\ exists s1 s2 m2,
       ingest "t1" "t2" 3 [("sector", PStr "ai"); ("value", PStr "abc")] None with_cube
       = Raise TypeError s1
       /\ length (heap s1) = 1
       /\ ingest "t3" "t4" 4 [("sector", PStr "ai"); ("value", PStr "abc")] None s1
          = Ok "deb575173ea2ccf929ef665646af9b7a96504efcf6c6dceec37c9650ea81b469" s2
       /\ heap s2 = [m2]
       /\ echo_count m2 = 1.
Proof.
  split; [split; reflexivity|].
  eexists _, _, _. split; [vm_compute; reflexivity|]. split; [reflexivity|].
  split; [vm_compute; reflexivity|]. split; reflexivity.
Qed.

(** *** What [ingest] forwards, and how it fails *)

(** X22: [ingest] forwards new content to the attached store, once:
    whatever way the call ends, the store has one more point, filed for
    the content with the six enrichment fields written over it; the
    memory keeps the content as it was given; and a repeated [ingest] of
    content already held leaves the store untouched. *)
Theorem ingest_forwards (now now40 : string) (breath : Z) (c : pydict)
    (tgs : option (list string)) (s : ElephantMemory) (cube : Store40D.Store40D)
    (g : string) :
  store40d s = Some cube ->
  _compute_genome c = Some g ->
  match genome_index s !! g with
  | Some _ => store40d (Store40D.state_of (ingest now now40 breath c tgs s)) = Some cube
  | None =>
      exists g40 cube',
        store40d (Store40D.state_of (ingest now now40 breath c tgs s)) = Some cube'
        /\ Store40D.data cube'
           = Store40D.data cube
             ++ [Store40D.point_of now40 breath g40
                   (data_40d (new_memory now c g tgs s))]
        /\ dict_get "genome" (data_40d (new_memory now c g tgs s)) = Some (PStr g)
        /\ dict_get "elephant_phase" (data_40d (new_memory now c g tgs s))
           = Some (PStr "INTAKE")
        /\ dict_get "elephant_page" (data_40d (new_memory now c g tgs s))
           = Some (PInt 1)
        /\ dict_get "elephant_strength" (data_40d (new_memory now c g tgs s))
           = Some (PFloat 1)
        /\ (forall k, k ∉ enrichment_keys ->
              dict_get k (data_40d (new_memory now c g tgs s)) = dict_get k c)
        /\ heap (Store40D.state_of (ingest now now40 breath c tgs s))
                !! length (heap s)
           = Some (new_memory now c g tgs s)
  end.
Proof.
  intros Hcube Hg. destruct (genome_index s !! g) as [l|] eqn:Hl.
  - destruct (ingest_known now now40 breath c tgs s g l Hg Hl) as [st ->]. exact Hcube.
  - assert (is_Some (Store40D._compute_genome (data_40d (new_memory now c g tgs s))))
      as [g40 Hg40].
    { unfold Store40D._compute_genome.
      destruct (data_40d_serializes (new_memory now c g tgs s)) as [j ->]; [|by eexists].
      cbn [content new_memory]. unfold _compute_genome in Hg.
      destruct (json_dumps (PDict c)); [by eexists|done]. }
    destruct (StoreFacts.store_outcome now40 breath _ cube g40 Hg40)
      as (cube' & HE & Hd & _).
    exists g40, cube'. unfold ingest. rewrite Hg, Hl, Hcube.
    assert (forall k v, dict_get k (data_40d (new_memory now c g tgs s)) = v ->
              dict_get k (data_40d (new_memory now c g tgs s)) = v) as _ by done.
    split; [by destruct HE as [->|[e ->]]|]. split; [exact Hd|].
    split; [by unfold data_40d; rewrite !dict_get_set|].
    split; [by unfold data_40d; rewrite !dict_get_set|].
    split; [by unfold data_40d; rewrite !dict_get_set|].
    split; [by unfold data_40d; rewrite !dict_get_set|].
    split; [intros k Hk; by apply (data_40d_get (new_memory now c g tgs s))|].
    destruct HE as [->|[e ->]]; cbn [Store40D.state_of heap with_store40d];
      by rewrite list_lookup_middle.
Qed.

Lemma ingest_forwards_witness :
  exists g40 cube',
    store40d (Store40D.state_of
                (ingest "t1" "t2" 3 [("sector", PStr "ai"); ("genome", PStr "mine")]
                        (Some ["a"]) with_cube)) = Some cube'
    /\ Store40D.data cube'
       = Store40D.data (Store40D.init Store40D.CARE_15)
         ++ [Store40D.point_of "t2" 3 g40
               (data_40d (new_memory "t1" [("sector", PStr "ai"); ("genome", PStr "mine")]
                            "1c3039e9c1f783478bb611648ce2de8d8c580c826b9e4ede51b7d8c9e1732287"
                            (Some ["a"]) with_cube))]
    /\ dict_get "genome"
         (data_40d (new_memory "t1" [("sector", PStr "ai"); ("genome", PStr "mine")]
                      "1c3039e9c1f783478bb611648ce2de8d8c580c826b9e4ede51b7d8c9e1732287"
                      (Some ["a"]) with_cube))
       = Some (PStr "1c3039e9c1f783478bb611648ce2de8d8c580c826b9e4ede51b7d8c9e1732287")
    /\ dict_get "elephant_phase"
         (data_40d (new_memory "t1" [("sector", PStr "ai"); ("genome", PStr "mine")]
                      "1c3039e9c1f783478bb611648ce2de8d8c580c826b9e4ede51b7d8c9e1732287"
                      (Some ["a"]) with_cube))
       = Some (PStr "INTAKE")
    /\ dict_get "elephant_page"
         (data_40d (new_memory "t1" [("sector", PStr "ai"); ("genome", PStr "mine")]
                      "1c3039e9c1f783478bb611648ce2de8d8c580c826b9e4ede51b7d8c9e1732287"
                      (Some ["a"]) with_cube))
       = Some (PInt 1)
    /\ dict_get "elephant_strength"
         (data_40d (new_memory "t1" [("sector", PStr "ai"); ("genome", PStr "mine")]
                      "1c3039e9c1f783478bb611648ce2de8d8c580c826b9e4ede51b7d8c9e1732287"
                      (Some ["a"]) with_cube))
       = Some (PFloat 1)
    /\ (forall k, k ∉ enrichment_keys ->
          dict_get k
            (data_40d (new_memory "t1" [("sector", PStr "ai"); ("genome", PStr "mine")]
                         "1c3039e9c1f783478bb611648ce2de8d8c580c826b9e4ede51b7d8c9e1732287"
                         (Some ["a"]) with_cube))
          = dict_get k [("sector", PStr "ai"); ("genome", PStr "mine")])
    /\ heap (Store40D.state_of
               (ingest "t1" "t2" 3 [("sector", PStr "ai"); ("genome", PStr "mine")]
                       (Some ["a"]) with_cube))
            !! length (heap with_cube)
       = Some (new_memory "t1" [("sector", PStr "ai"); ("genome", PStr "mine")]
                 "1c3039e9c1f783478bb611648ce2de8d8c580c826b9e4ede51b7d8c9e1732287"
                 (Some ["a"]) with_cube).
Proof.
  apply (ingest_forwards "t1" "t2" 3 [("sector", PStr "ai"); ("genome", PStr "mine")]
           (Some ["a"]) with_cube (Store40D.init Store40D.CARE_15)
           "1c3039e9c1f783478bb611648ce2de8d8c580c826b9e4ede51b7d8c9e1732287").
  - reflexivity.
  - vm_compute. reflexivity.
Defined.

(** X23: how [ingest] fails: it raises when the content does not
    serialize, and then nothing has changed, or when the attached store
    rejects the [value] field of new content, and then the memory has been
    registered all the same: it is in the heap and in the genome index,
    and counted; the next [ingest] of that content returns normally, as an
    echo. *)
Theorem ingest_raises (now now40 : string) (breath : Z) (c : pydict)
    (tgs : option (list string)) (s s' : ElephantMemory) (e : exn) :
  ingest now now40 breath c tgs s = Raise e s' ->
  (json_dumps (PDict c) = None /\ e = TypeError /\ s' = s)
  \/ exists g cube v,
       _compute_genome c = Some g
       /\ genome_index s !! g = None
       /\ store40d s = Some cube
       /\ dict_get "value" c = Some v
       /\ py_mul_float v (Store40D.care_mandate cube) = inl e
       /\ heap s' = heap s ++ [new_memory now c g tgs s]
       /\ genome_index s' !! g = Some (length (heap s))
       /\ total_memories (stats s') = S (total_memories (stats s))
       /\ forall now2 now2' b2 tgs2,
            exists s2, ingest now2 now2' b2 c tgs2 s' = Ok g s2.
Proof.
  intros H. destruct (_compute_genome c) as [g|] eqn:Hg.
  - right. destruct (genome_index s !! g) as [l|] eqn:Hl.
    { destruct (ingest_known now now40 breath c tgs s g l Hg Hl) as [st E].
      rewrite E in H. discriminate H. }
    destruct (store40d s) as [cube|] eqn:Hcube.
    2:{ unfold ingest in H. rewrite Hg, Hl, Hcube in H. discriminate H. }
    assert (is_Some (Store40D._compute_genome (data_40d (new_memory now c g tgs s))))
      as [g40 Hg40].
    { unfold Store40D._compute_genome.
      destruct (data_40d_serializes (new_memory now c g tgs s)) as [j ->]; [|by eexists].
      cbn [content new_memory]. unfold _compute_genome in Hg.
      destruct (json_dumps (PDict c)); [by eexists|done]. }
    assert (dict_get "value" (data_40d (new_memory now c g tgs s)) = dict_get "value" c)
      as Hval.
    { apply (data_40d_get (new_memory now c g tgs s)). unfold enrichment_keys.
      rewrite !not_elem_of_cons. repeat (split; [discriminate|]). apply not_elem_of_nil. }
    destruct (StoreFacts.store_cases now40 breath _ cube g40 Hg40)
      as (cube' & Hc & _).
    unfold ingest in H. rewrite Hg, Hl, Hcube in H.
    destruct Hc as [(_ & E & _)|[(v & x & _ & _ & E & _)|(v & e' & Hv & He & E & _)]];
      rewrite E in H; [discriminate H..|].
    injection H as <- <-. rewrite Hval in Hv.
    exists g, cube, v. repeat (split; [done|]).
    cbn [heap genome_index stats total_memories with_store40d].
    split; [by rewrite lookup_insert_eq|]. split; [done|].
    intros now2 now2' b2 tgs2. unfold ingest. rewrite Hg.
    cbn [genome_index with_store40d]. rewrite lookup_insert_eq. eauto.
  - left. unfold ingest in H. rewrite Hg in H. injection H as <- <-.
    unfold _compute_genome in Hg. by destruct (json_dumps (PDict c)).
Qed.

Lemma ingest_raises_witness :
  exists s',
    ingest "t1" "t2" 3 [("sector", PStr "ai"); ("value", PStr "abc")] None with_cube
    = Raise TypeError s'
    /\ ((json_dumps (PDict [("sector", PStr "ai"); ("value", PStr "abc")]) = None
         /\ TypeError = TypeError /\ s' = with_cube)
        \/ exists g cube v,
             _compute_genome [("sector", PStr "ai"); ("value", PStr "abc")] = Some g
             /\ genome_index with_cube !! g = None
             /\ store40d with_cube = Some cube
             /\ dict_get "value" [("sector", PStr "ai"); ("value", PStr "abc")] = Some v
             /\ py_mul_float v (Store40D.care_mandate cube) = inl TypeError
             /\ heap s'
                = heap with_cube
                  ++ [new_memory "t1" [("sector", PStr "ai"); ("value", PStr "abc")]
                        g None with_cube]
             /\ genome_index s' !! g = Some (length (heap with_cube))
             /\ total_memories (stats s') = S (total_memories (stats with_cube))
             /\ forall now2 now2' b2 tgs2,
                  exists s2,
                    ingest now2 now2' b2 [("sector", PStr "ai"); ("value", PStr "abc")]
                           tgs2 s' = Ok g s2).
Proof.
  eexists. split; [vm_compute; reflexivity|].
  apply (ingest_raises "t1" "t2" 3 [("sector", PStr "ai"); ("value", PStr "abc")]
           None with_cube).
  vm_compute. reflexivity.
Defined.

End ElephantFacts.
